(** * MEMO_DUNIYA: the virtualized grid viewer (data.js, app.js)

    A shallow embedding of the item store of [data.js] and of the
    virtualization engine of [app.js], with the properties of the
    specification stated over it.

    Numbers.  JavaScript numbers are IEEE-754 doubles.  The camera, the
    viewport bounds and the eviction distances are fractional and are modelled
    with Rocq's primitive binary64 floats.  Item ids and grid positions only
    ever hold integers; they are modelled in [Z], which agrees with the
    doubles as long as magnitudes stay below 2^53.

    Exceptions.  One call of the page can raise on its own data: the spread
    [Math.min(...ITEM_DATA.map(...))] of [addMoreItems], once [ITEM_DATA] has
    more items than the engine accepts as arguments of a call.  Nothing
    catches it, and the statements it skips in [checkBoundariesAndLoad] and
    in [render] are modelled as skipped.  The limit is the engine's; it is a
    parameter of everything from [addMoreItems] on. *)

From Stdlib Require Import String ZArith List Bool Lia Floats.
From Stdlib Require Import DecimalString DecimalZ.
From Stdlib Require Import Permutation.
Import ListNotations.
Open Scope Z_scope.

(** ** JavaScript number helpers *)

Module JS.

(** An integer-valued number read as a double (exact below 2^53). *)
Definition num_of_Z (z : Z) : float :=
  if z <? 0 then PrimFloat.opp (PrimFloat.of_uint63 (Uint63.of_Z (- z)))
  else PrimFloat.of_uint63 (Uint63.of_Z z).

Definition is_neg_zero (a : float) : bool :=
  match PrimFloat.classify a with NZero => true | _ => false end.

(** [Math.min(a, b)]: NaN if either is NaN, and -0 below +0. *)
Definition Math_min (a b : float) : float :=
  if PrimFloat.is_nan a || PrimFloat.is_nan b then PrimFloat.nan
  else if PrimFloat.ltb a b then a
  else if PrimFloat.ltb b a then b
  else if is_neg_zero a then a else b.

(** [Math.max(a, b)]: NaN if either is NaN, and +0 above -0. *)
Definition Math_max (a b : float) : float :=
  if PrimFloat.is_nan a || PrimFloat.is_nan b then PrimFloat.nan
  else if PrimFloat.ltb a b then b
  else if PrimFloat.ltb b a then a
  else if is_neg_zero a then b else a.

(** [Math.ceil(a / b)] on integers, for a positive divisor. *)
Definition ceil_div (a b : Z) : Z := - ((- a) / b).

(** [Math.min] of the integer arguments [l]; [None] stands for the
    [Infinity] that JavaScript returns on an empty argument list.  How the
    arguments get there is the caller's business: the spread call
    [Math.min(...array)] of data.js is [Math_min_spread] below. *)
Definition Math_min_list (l : list Z) : option Z :=
  match l with
  | [] => None
  | a :: r => Some (fold_left Z.min r a)
  end.

(** [n.toString()] for an integer [n]. *)
Definition toString (z : Z) : string := NilZero.string_of_int (Z.to_int z).

(** [parseInt(s)] on the strings a registry key can be: an optional minus
    sign followed by decimal digits.  [None] stands for NaN. *)
Definition parseInt (s : string) : option Z :=
  option_map Z.of_int (NilZero.int_of_string s).

End JS.

(** ** data.js: the item store *)

Definition GRID_COLUMNS : Z := 50.
Definition ITEM_SIZE : Z := 200.

(** A grid item.  The media fields ([type], [src], [topic]) are drawn from
    [Math.random] and the session topic; nothing below reads them and they
    are left out. *)
Record Item := mkItem {
  item_id : Z;
  item_x : Z;
  item_y : Z;
  item_column : Z;
  item_row : Z
}.

Inductive Direction := Right | Left | Top | Bottom.

(** The module-level variables of data.js. *)
Record Store := mkStore {
  ITEM_DATA : list Item;
  globalItemIdCounter : Z;
  usingRealData : bool
}.

(** The body of the [for] loop of [generateItemData], from index [i] on, for
    [n] more rounds.  [Math.floor(globalIndex / GRID_COLUMNS)] is the floor
    division of [Z]; [%] is the truncating remainder. *)
Fixpoint generateLoop (n : nat) (i baseId startIndex : Z) : list Item :=
  match n with
  | O => []
  | S n' =>
      let globalIndex := startIndex + i in
      let row := globalIndex / GRID_COLUMNS in
      let column := Z.rem globalIndex GRID_COLUMNS in
      mkItem (baseId + i) (column * ITEM_SIZE) (row * ITEM_SIZE) column row
        :: generateLoop n' (i + 1) baseId startIndex
  end.

(** [generateItemData(totalItems, topic, startId, startIndex)]: the items and
    the new value of [globalItemIdCounter].  [startId = None] is [null]. *)
Definition generateItemData (totalItems : Z) (startId : option Z)
    (startIndex : Z) (counter : Z) : list Item * Z :=
  let baseId := match startId with Some s => s | None => counter + 1 end in
  (generateLoop (Z.to_nat totalItems) 0 baseId startIndex,
   baseId + totalItems - 1).

(** [let ITEM_DATA = generateItemData(2000, selectedTopic, 1, 0)] with the
    counter at its initial 0. *)
Definition initialStore : Store :=
  let (items, c) := generateItemData 2000 (Some 1) 0 0 in
  mkStore items c false.

(** The [newItems.forEach] of the ['left'] branch, from index [idx] on. *)
Fixpoint positionLeft (idx newCols minX minY : Z) (items : list Item)
  : list Item :=
  match items with
  | [] => []
  | item :: rest =>
      let col := Z.rem idx newCols in
      let row := idx / newCols in
      let x := minX - (newCols - col) * ITEM_SIZE in
      let y := (minY / ITEM_SIZE + row) * ITEM_SIZE in
      mkItem (item_id item) x y (x / ITEM_SIZE) (y / ITEM_SIZE)
        :: positionLeft (idx + 1) newCols minX minY rest
  end.

(** The [newItems.forEach] of the ['top'] branch, from index [idx] on. *)
Fixpoint positionTop (idx newRows minY : Z) (items : list Item) : list Item :=
  match items with
  | [] => []
  | item :: rest =>
      let col := Z.rem idx GRID_COLUMNS in
      let row := idx / GRID_COLUMNS in
      let x := col * ITEM_SIZE in
      let y := minY - (newRows - row) * ITEM_SIZE in
      mkItem (item_id item) x y col (y / ITEM_SIZE)
        :: positionTop (idx + 1) newRows minY rest
  end.

(** ** The engine's limit on the arguments of a call

    A spread call [f(...array)] passes one argument per element of the
    array, and an engine raises [RangeError] when a call gets more arguments
    than it accepts.  ECMAScript names no limit; every engine has one (some
    65536 in JavaScriptCore, about 125000 in V8 with its default stack, more
    in SpiderMonkey).  The limit is a parameter of this development: the
    smallest limit of the engines in use plus a slack that the engine
    chooses. *)

Definition MIN_ARGUMENT_LIMIT : Z := 65535.

(** The slack of an engine that accepts 125000 arguments, as V8 about
    does. *)
Definition v8 : N := 59465.

(** The slack of an engine that accepts no more than the minimum. *)
Definition smallEngine : N := 0.

Section Engine.

Variable spreadSlack : N.

(** The largest number of arguments that a call may have. *)
Definition argumentLimit : Z := MIN_ARGUMENT_LIMIT + Z.of_N spreadSlack.

(** [Math.min(...l)].  [None] stands for a call without a finite result: the
    [RangeError] raised when [l] has more elements than the engine accepts
    as arguments, or the [Infinity] of an empty [l]. *)
Definition Math_min_spread (l : list Z) : option Z :=
  if Z.of_nat (length l) <=? argumentLimit then JS.Math_min_list l else None.

(** [addMoreItems(count, direction)]: the new store and the returned
    [newItems].  The result is [None] when the call returns no store:

    - a ['left'] or ['top'] append on an [ITEM_DATA] of more items than the
      engine accepts as arguments raises [RangeError] in
      [Math.min(...ITEM_DATA.map(...))] (lines 177 and 197), before anything
      is generated and before [ITEM_DATA] or [globalItemIdCounter] is
      assigned: the store stays as it was;
    - a ['left'] or ['top'] append on an empty [ITEM_DATA] computes the
      positions from [Math.min()], that is from [Infinity], and they are not
      integers.  (For a [count] of 0 or less the source computes no position
      and returns [[]] even then; the page never appends to an empty store,
      which [checkBoundariesAndLoad] refuses, nor with a [count] other than
      2000.)

    The second spread, on line 189, sits in the [forEach] and is over the
    same [ITEM_DATA] as the first. *)
Definition addMoreItems (count : Z) (direction : Direction) (s : Store)
  : option (Store * list Item) :=
  if usingRealData s then Some (s, [])
  else
    let currentLength := Z.of_nat (length (ITEM_DATA s)) in
    let currentRows := JS.ceil_div currentLength GRID_COLUMNS in
    let counter := globalItemIdCounter s in
    match direction with
    | Right | Bottom =>
        let startIndex := currentLength in
        let (newItems, c) :=
          generateItemData count (Some (counter + 1)) startIndex counter in
        Some (mkStore (ITEM_DATA s ++ newItems) c false, newItems)
    | Left =>
        match Math_min_spread (map item_x (ITEM_DATA s)),
              Math_min_spread (map item_y (ITEM_DATA s)) with
        | Some minX, Some minY =>
            let itemsToAdd := count in
            let newCols := JS.ceil_div itemsToAdd currentRows in
            let (generated, c) :=
              generateItemData count (Some (counter + 1)) (- itemsToAdd)
                counter in
            let newItems := positionLeft 0 newCols minX minY generated in
            Some (mkStore (newItems ++ ITEM_DATA s) c false, newItems)
        | _, _ => None
        end
    | Top =>
        match Math_min_spread (map item_y (ITEM_DATA s)) with
        | Some minY =>
            let itemsToAdd := count in
            let newRows := JS.ceil_div itemsToAdd GRID_COLUMNS in
            let (generated, c) :=
              generateItemData count (Some (counter + 1)) (- itemsToAdd)
                counter in
            let newItems := positionTop 0 newRows minY generated in
            Some (mkStore (newItems ++ ITEM_DATA s) c false, newItems)
        | None => None
        end
    end.

(** The store after a sequence of appends; [None] as in [addMoreItems]. *)
Fixpoint appendAll (calls : list (Z * Direction)) (s : Store) : option Store :=
  match calls with
  | [] => Some s
  | (count, direction) :: rest =>
      match addMoreItems count direction s with
      | Some (s', _) => appendAll rest s'
      | None => None
      end
  end.

(** The promise callback of [loadItemData]: real data, when there is some,
    replaces the store and switches appends off. *)
Definition loadRealData (data : list Item) (s : Store) : Store :=
  match data with
  | [] => s
  | _ :: _ => mkStore data (globalItemIdCounter s) true
  end.

(** ** app.js: constants and state *)

Definition BUFFER_SIZE : Z := 3.
Definition MAX_DOM_NODES : Z := 500.
Definition LOAD_THRESHOLD : float := 2000%float.

(** The [state] object. *)
Record Camera := mkCamera {
  panX : float;
  panY : float;
  zoom : float;
  isDragging : bool;
  dragStartX : float;
  dragStartY : float;
  dragStartPanX : float;
  dragStartPanY : float;
  viewportWidth : float;
  viewportHeight : float;
  canvasWidth : Z;
  canvasHeight : Z
}.

(** [let state = {...}] as app.js initialises it. *)
Definition initialCamera : Camera :=
  mkCamera 0 0 1 false 0 0 0 0 0 0 0 0.

(** What the model keeps of a grid-item element: its [dataset.itemId] and its
    [style.left] / [style.top] in pixels. *)
Record Element := mkElement {
  el_itemId : Z;
  el_left : Z;
  el_top : Z
}.

(** [renderedItems], a [Map] from the id's decimal string to the element, as
    the association list of its entries in insertion order. *)
Definition Registry := list (string * Element).

(** The page.  [addMoreInstalled] says whether
    [window.addMoreItemsToMEGHTOSH] is a function.  The last five fields are
    bookkeeping of what the page did: the appends invoked, the keys whose
    element went through [cleanupVideoElement] and [element.remove()], the
    number of [scheduleRender] calls, the number of [requestAnimationFrame]
    calls (handles count up from 1) and the frame callbacks the browser still
    owes. *)
Record World := mkWorld {
  state : Camera;
  renderedItems : Registry;
  renderAnimationFrame : option Z;
  isLoadingMore : bool;
  store : Store;
  addMoreInstalled : bool;
  appendCalls : list (Z * Direction);
  released : list string;
  scheduleCalls : nat;
  frameRequests : nat;
  pendingFrames : nat
}.

Definition set_state (c : Camera) (w : World) : World :=
  mkWorld c (renderedItems w) (renderAnimationFrame w) (isLoadingMore w)
    (store w) (addMoreInstalled w) (appendCalls w) (released w)
    (scheduleCalls w) (frameRequests w) (pendingFrames w).

Definition set_renderedItems (r : Registry) (w : World) : World :=
  mkWorld (state w) r (renderAnimationFrame w) (isLoadingMore w)
    (store w) (addMoreInstalled w) (appendCalls w) (released w)
    (scheduleCalls w) (frameRequests w) (pendingFrames w).

Definition set_isLoadingMore (b : bool) (w : World) : World :=
  mkWorld (state w) (renderedItems w) (renderAnimationFrame w) b
    (store w) (addMoreInstalled w) (appendCalls w) (released w)
    (scheduleCalls w) (frameRequests w) (pendingFrames w).

Definition set_renderAnimationFrame (h : option Z) (w : World) : World :=
  mkWorld (state w) (renderedItems w) h (isLoadingMore w)
    (store w) (addMoreInstalled w) (appendCalls w) (released w)
    (scheduleCalls w) (frameRequests w) (pendingFrames w).

Definition set_store (s : Store) (w : World) : World :=
  mkWorld (state w) (renderedItems w) (renderAnimationFrame w)
    (isLoadingMore w) s (addMoreInstalled w) (appendCalls w) (released w)
    (scheduleCalls w) (frameRequests w) (pendingFrames w).

Definition set_addMoreInstalled (b : bool) (w : World) : World :=
  mkWorld (state w) (renderedItems w) (renderAnimationFrame w)
    (isLoadingMore w) (store w) b (appendCalls w) (released w)
    (scheduleCalls w) (frameRequests w) (pendingFrames w).

(** Replace what the DOM manager owns: the registry and the release log. *)
Definition set_dom (r : Registry) (rel : list string) (w : World) : World :=
  mkWorld (state w) r (renderAnimationFrame w) (isLoadingMore w)
    (store w) (addMoreInstalled w) (appendCalls w) rel
    (scheduleCalls w) (frameRequests w) (pendingFrames w).

(** The page once both scripts have run their top level, before
    [initialize]. *)
Definition initialWorld : World :=
  mkWorld initialCamera [] None false initialStore true [] [] O O O.

(** ** Phase 2: canvas sizing *)

Definition calculateCanvasDimensions (s : Store) : Z * Z :=
  match ITEM_DATA s with
  | [] => (0, 0)
  | _ :: _ =>
      let totalRows :=
        JS.ceil_div (Z.of_nat (length (ITEM_DATA s))) GRID_COLUMNS in
      (GRID_COLUMNS * ITEM_SIZE, totalRows * ITEM_SIZE)
  end.

Definition set_canvas (dims : Z * Z) (c : Camera) : Camera :=
  mkCamera (panX c) (panY c) (zoom c) (isDragging c) (dragStartX c)
    (dragStartY c) (dragStartPanX c) (dragStartPanY c) (viewportWidth c)
    (viewportHeight c) (fst dims) (snd dims).

Definition set_viewport (width height : float) (c : Camera) : Camera :=
  mkCamera (panX c) (panY c) (zoom c) (isDragging c) (dragStartX c)
    (dragStartY c) (dragStartPanX c) (dragStartPanY c) width height
    (canvasWidth c) (canvasHeight c).

Definition set_pan (px py : float) (c : Camera) : Camera :=
  mkCamera px py (zoom c) (isDragging c) (dragStartX c)
    (dragStartY c) (dragStartPanX c) (dragStartPanY c) (viewportWidth c)
    (viewportHeight c) (canvasWidth c) (canvasHeight c).

Definition set_zoom (z : float) (c : Camera) : Camera :=
  mkCamera (panX c) (panY c) z (isDragging c) (dragStartX c)
    (dragStartY c) (dragStartPanX c) (dragStartPanY c) (viewportWidth c)
    (viewportHeight c) (canvasWidth c) (canvasHeight c).

Definition set_isDragging (b : bool) (c : Camera) : Camera :=
  mkCamera (panX c) (panY c) (zoom c) b (dragStartX c)
    (dragStartY c) (dragStartPanX c) (dragStartPanY c) (viewportWidth c)
    (viewportHeight c) (canvasWidth c) (canvasHeight c).

Definition updateCanvasSize (w : World) : World :=
  set_state (set_canvas (calculateCanvasDimensions (store w)) (state w)) w.

(** [initializeCanvas], with the viewport's [clientWidth] / [clientHeight]
    as arguments. *)
Definition initializeCanvas (clientWidth clientHeight : float) (w : World)
  : World :=
  set_state
    (set_viewport clientWidth clientHeight
       (set_canvas (calculateCanvasDimensions (store w)) (state w))) w.

(** ** Phase 4: viewport and camera tracking *)

Record Bounds := mkBounds {
  b_left : float;
  b_top : float;
  b_right : float;
  b_bottom : float
}.

Definition screenToWorld (c : Camera) (screenX screenY : float)
  : float * float :=
  ((screenX - panX c) / zoom c, (screenY - panY c) / zoom c)%float.

Definition gridToWorld (column row : Z) : Z * Z :=
  (column * ITEM_SIZE, row * ITEM_SIZE).

Definition calculateViewportBounds (c : Camera) : Bounds :=
  let topLeft := screenToWorld c 0 0 in
  let topRight := screenToWorld c (viewportWidth c) 0 in
  let bottomLeft := screenToWorld c 0 (viewportHeight c) in
  let bottomRight := screenToWorld c (viewportWidth c) (viewportHeight c) in
  let left := JS.Math_min (fst topLeft) (fst bottomLeft) in
  let right := JS.Math_max (fst topRight) (fst bottomRight) in
  let top := JS.Math_min (snd topLeft) (snd topRight) in
  let bottom := JS.Math_max (snd bottomLeft) (snd bottomRight) in
  let buffer := JS.num_of_Z (BUFFER_SIZE * ITEM_SIZE) in
  mkBounds (left - buffer) (top - buffer) (right + buffer)
    (bottom + buffer)%float.

(** ** Phase 5: the virtualization engine *)

Definition itemIntersectsViewport (item : Item) (bounds : Bounds) : bool :=
  let itemLeft := JS.num_of_Z (item_x item) in
  let itemRight := (JS.num_of_Z (item_x item) + JS.num_of_Z ITEM_SIZE)%float in
  let itemTop := JS.num_of_Z (item_y item) in
  let itemBottom :=
    (JS.num_of_Z (item_y item) + JS.num_of_Z ITEM_SIZE)%float in
  negb (PrimFloat.ltb itemRight (b_left bounds)
        || PrimFloat.ltb (b_right bounds) itemLeft
        || PrimFloat.ltb itemBottom (b_top bounds)
        || PrimFloat.ltb (b_bottom bounds) itemTop).

Definition findVisibleItems (c : Camera) (items : list Item) : list Item :=
  let bounds := calculateViewportBounds c in
  filter (fun item => itemIntersectsViewport item bounds) items.

(** *** The registry: [Map] operations on the entry list *)

Definition reg_get (key : string) (r : Registry) : option Element :=
  option_map snd (find (fun entry => String.eqb (fst entry) key) r).

Definition reg_has (key : string) (r : Registry) : bool :=
  existsb (fun entry => String.eqb (fst entry) key) r.

Definition reg_delete (key : string) (r : Registry) : Registry :=
  filter (fun entry => negb (String.eqb (fst entry) key)) r.

(** [Map.prototype.set]: an existing key keeps its place, a new one goes
    last. *)
Fixpoint reg_set (key : string) (el : Element) (r : Registry) : Registry :=
  match r with
  | [] => [(key, el)]
  | entry :: rest =>
      if String.eqb (fst entry) key then (key, el) :: rest
      else entry :: reg_set key el rest
  end.

Definition reg_size (r : Registry) : Z := Z.of_nat (length r).

(** [visibleItemIds.has(n)], where [n = None] is NaN. *)
Definition ids_has (ids : list Z) (n : option Z) : bool :=
  match n with
  | Some z => existsb (Z.eqb z) ids
  | None => false
  end.

(** [ITEM_DATA.find(i => i.id === n)], where [n = None] is NaN. *)
Definition findItem (items : list Item) (n : option Z) : option Item :=
  match n with
  | Some z => find (fun i => item_id i =? z) items
  | None => None
  end.

(** The release procedure shared by both removal loops of [syncDOM]:
    [cleanupVideoElement(element); element.remove();
    renderedItems.delete(itemId)], guarded by [if (element)]. *)
Definition release (w : World) (itemId : string) : World :=
  match reg_get itemId (renderedItems w) with
  | Some _ =>
      mkWorld (state w) (reg_delete itemId (renderedItems w))
        (renderAnimationFrame w) (isLoadingMore w) (store w)
        (addMoreInstalled w) (appendCalls w) (released w ++ [itemId])
        (scheduleCalls w) (frameRequests w) (pendingFrames w)
  | None => w
  end.

(** Lines 414-429 of [syncDOM]: remove the items no longer visible. *)
Definition removeStale (visibleItemIds : list Z) (w : World) : World :=
  let itemsToRemove :=
    map fst
      (filter (fun entry =>
                 negb (ids_has visibleItemIds (JS.parseInt (fst entry))))
         (renderedItems w)) in
  fold_left release itemsToRemove w.

(** The distance of an item's centre from the centre of the bounds;
    [Math.pow(d, 2)] is the product [d * d]. *)
Definition distanceFrom (centerX centerY : float) (item : Item) : float :=
  let itemCenterX := (JS.num_of_Z (item_x item) + JS.num_of_Z ITEM_SIZE / 2)%float in
  let itemCenterY := (JS.num_of_Z (item_y item) + JS.num_of_Z ITEM_SIZE / 2)%float in
  let dx := (itemCenterX - centerX)%float in
  let dy := (itemCenterY - centerY)%float in
  PrimFloat.sqrt (dx * dx + dy * dy)%float.

(** The [itemDistances] array: one entry per live key whose item exists and
    is not selected, in registry order. *)
Fixpoint collectDistances (items : list Item) (visibleItemIds : list Z)
    (centerX centerY : float) (r : Registry) : list (string * float) :=
  match r with
  | [] => []
  | (itemId, _) :: rest =>
      let tail := collectDistances items visibleItemIds centerX centerY rest in
      match findItem items (JS.parseInt itemId) with
      | Some item =>
          if negb (ids_has visibleItemIds (Some (item_id item)))
          then (itemId, distanceFrom centerX centerY item) :: tail
          else tail
      | None => tail
      end
  end.

(** [itemDistances.sort((a, b) => b.distance - a.distance)]: the sort is
    stable, and [a] moves behind [b] only when the comparator is positive
    (a NaN result counts as 0). *)
Fixpoint insertByDistance (a : string * float) (l : list (string * float))
  : list (string * float) :=
  match l with
  | [] => [a]
  | b :: rest =>
      if PrimFloat.ltb 0 (snd b - snd a)%float
      then b :: insertByDistance a rest
      else a :: l
  end.

Definition sortByDistance (l : list (string * float))
  : list (string * float) :=
  fold_right insertByDistance [] l.

(** The [itemDistances] array as [syncDOM] fills it, measured from the centre
    of the buffered bounds. *)
Definition itemDistances (visibleItemIds : list Z) (w : World)
  : list (string * float) :=
  let bounds := calculateViewportBounds (state w) in
  let centerX := ((b_left bounds + b_right bounds) / 2)%float in
  let centerY := ((b_top bounds + b_bottom bounds) / 2)%float in
  collectDistances (ITEM_DATA (store w)) visibleItemIds centerX centerY
    (renderedItems w).

(** Lines 431-464 of [syncDOM]: the eviction under memory pressure. *)
Definition evictUnderPressure (visibleItemIds : list Z) (w : World) : World :=
  if MAX_DOM_NODES <? reg_size (renderedItems w) then
    let sorted := sortByDistance (itemDistances visibleItemIds w) in
    let itemsToRemoveCount := reg_size (renderedItems w) - MAX_DOM_NODES in
    fold_left release
      (firstn (Z.to_nat itemsToRemoveCount) (map fst sorted)) w
  else w.

(** [createItemElement(item)] with its position set. *)
Definition createItemElement (item : Item) : Element :=
  mkElement (item_id item) (item_x item) (item_y item).

(** Lines 466-476 of [syncDOM]: add the selected items that are not live. *)
Definition addVisible (visibleItems : list Item) (w : World) : World :=
  fold_left
    (fun w item =>
       let itemIdStr := JS.toString (item_id item) in
       if reg_has itemIdStr (renderedItems w) then w
       else set_renderedItems
              (reg_set itemIdStr (createItemElement item) (renderedItems w)) w)
    visibleItems w.

Definition updateItemPositions (w : World) : World :=
  set_renderedItems
    (map (fun entry =>
            match findItem (ITEM_DATA (store w)) (JS.parseInt (fst entry)) with
            | Some item =>
                (fst entry,
                 mkElement (el_itemId (snd entry)) (item_x item) (item_y item))
            | None => entry
            end)
       (renderedItems w)) w.

(** [syncDOM].  Its last step, [manageVideoPlayback], plays and pauses the
    videos of live elements and changes nothing the model keeps. *)
Definition syncDOM (w : World) : World :=
  let visibleItems := findVisibleItems (state w) (ITEM_DATA (store w)) in
  let visibleItemIds := map item_id visibleItems in
  let w1 := removeStale visibleItemIds w in
  let w2 := evictUnderPressure visibleItemIds w1 in
  let w3 := addVisible visibleItems w2 in
  updateItemPositions w3.

(** ** The render scheduler *)

(** [scheduleRender]: a frame is requested only when no handle is held. *)
Definition scheduleRender (w : World) : World :=
  match renderAnimationFrame w with
  | None =>
      mkWorld (state w) (renderedItems w)
        (Some (Z.of_nat (S (frameRequests w)))) (isLoadingMore w) (store w)
        (addMoreInstalled w) (appendCalls w) (released w)
        (S (scheduleCalls w)) (S (frameRequests w)) (S (pendingFrames w))
  | Some _ =>
      mkWorld (state w) (renderedItems w) (renderAnimationFrame w)
        (isLoadingMore w) (store w) (addMoreInstalled w) (appendCalls w)
        (released w) (S (scheduleCalls w)) (frameRequests w) (pendingFrames w)
  end.

(** ** The boundary loader *)

(** The call [window.addMoreItemsToMEGHTOSH(count, direction)], which is
    [addMoreItems] of data.js, as far as the store and the log of calls go.
    When [addMoreItems] raises, the call has been made and the store is as
    it was; what the caller then skips is in [loadMore] and [render]. *)
Definition callAppend (count : Z) (direction : Direction) (w : World)
  : World :=
  let s' := match addMoreItems count direction (store w) with
            | Some (s', _) => s'
            | None => store w
            end in
  mkWorld (state w) (renderedItems w) (renderAnimationFrame w)
    (isLoadingMore w) s' (addMoreInstalled w)
    (appendCalls w ++ [(count, direction)]) (released w)
    (scheduleCalls w) (frameRequests w) (pendingFrames w).

(** The first half of a branch of [checkBoundariesAndLoad]: the guard is
    raised and the append is invoked. *)
Definition beginLoad (direction : Direction) (w : World) : World :=
  callAppend 2000 direction (set_isLoadingMore true w).

(** The second half: the statements that follow the append. *)
Definition finishLoad (w : World) : World :=
  scheduleRender (set_isLoadingMore false (updateCanvasSize w)).

(** The body common to the four branches of [checkBoundariesAndLoad].
    There is no [try] around the call of the handler: when it raises, the
    exception leaves [checkBoundariesAndLoad] and the statements that follow
    the call ([updateCanvasSize], [isLoadingMore = false], [scheduleRender])
    are not run.  ([checkBoundariesAndLoad] has returned before on an empty
    [ITEM_DATA], so that an [addMoreItems] without result is one that
    raised.) *)
Definition loadMore (direction : Direction) (w : World) : World :=
  if addMoreInstalled w then
    match addMoreItems 2000 direction (store w) with
    | Some _ => finishLoad (beginLoad direction w)
    | None => beginLoad direction w
    end
  else set_isLoadingMore true w.

(** The [if / else if] chain of [checkBoundariesAndLoad]: the direction whose
    branch is taken, if any. *)
Definition nearBoundary (w : World) : option Direction :=
  let bounds := calculateViewportBounds (state w) in
  let canvasDims := calculateCanvasDimensions (store w) in
  let distanceToRight := (JS.num_of_Z (fst canvasDims) - b_right bounds)%float in
  let distanceToLeft := (b_left bounds - 0)%float in
  let distanceToBottom := (JS.num_of_Z (snd canvasDims) - b_bottom bounds)%float in
  let distanceToTop := (b_top bounds - 0)%float in
  if PrimFloat.ltb distanceToRight LOAD_THRESHOLD then Some Right
  else if PrimFloat.ltb distanceToBottom LOAD_THRESHOLD then Some Bottom
  else if PrimFloat.ltb distanceToLeft LOAD_THRESHOLD
          && PrimFloat.ltb (b_left bounds) LOAD_THRESHOLD then Some Left
  else if PrimFloat.ltb distanceToTop LOAD_THRESHOLD
          && PrimFloat.ltb (b_top bounds) LOAD_THRESHOLD then Some Top
  else None.

Definition checkBoundariesAndLoad (w : World) : World :=
  if isLoadingMore w then w
  else
    match ITEM_DATA (store w) with
    | [] => w
    | _ :: _ =>
        match nearBoundary w with
        | Some direction => loadMore direction w
        | None => w
        end
    end.

(** The four threshold tests of [checkBoundariesAndLoad], one per direction,
    each taken on its own. *)
Definition withinThreshold (direction : Direction) (w : World) : bool :=
  let bounds := calculateViewportBounds (state w) in
  let canvasDims := calculateCanvasDimensions (store w) in
  match direction with
  | Right =>
      PrimFloat.ltb (JS.num_of_Z (fst canvasDims) - b_right bounds)%float
        LOAD_THRESHOLD
  | Bottom =>
      PrimFloat.ltb (JS.num_of_Z (snd canvasDims) - b_bottom bounds)%float
        LOAD_THRESHOLD
  | Left =>
      PrimFloat.ltb (b_left bounds - 0)%float LOAD_THRESHOLD
      && PrimFloat.ltb (b_left bounds) LOAD_THRESHOLD
  | Top =>
      PrimFloat.ltb (b_top bounds - 0)%float LOAD_THRESHOLD
      && PrimFloat.ltb (b_top bounds) LOAD_THRESHOLD
  end.

(** Whether [checkBoundariesAndLoad] ends in the exception of its append
    handler. *)
Definition checkRaises (w : World) : bool :=
  if isLoadingMore w then false
  else
    match ITEM_DATA (store w) with
    | [] => false
    | _ :: _ =>
        match nearBoundary w with
        | Some direction =>
            addMoreInstalled w
            && match addMoreItems 2000 direction (store w) with
               | Some _ => false
               | None => true
               end
        | None => false
        end
    end.

(** [render]: [syncDOM(); checkBoundariesAndLoad(); renderAnimationFrame =
    null], with no [try] either: an exception of the boundary check leaves
    [render] before the handle is cleared. *)
Definition render (w : World) : World :=
  if checkRaises (syncDOM w) then checkBoundariesAndLoad (syncDOM w)
  else set_renderAnimationFrame None (checkBoundariesAndLoad (syncDOM w)).

(** ** Input handlers *)

Definition handleMouseDown (button : Z) (clientX clientY : float) (w : World)
  : World :=
  if negb (button =? 0) then w
  else
    let c := state w in
    set_state
      (mkCamera (panX c) (panY c) (zoom c) true clientX clientY (panX c)
         (panY c) (viewportWidth c) (viewportHeight c) (canvasWidth c)
         (canvasHeight c)) w.

Definition handleMouseMove (clientX clientY : float) (w : World) : World :=
  let c := state w in
  if negb (isDragging c) then w
  else
    let deltaX := (clientX - dragStartX c)%float in
    let deltaY := (clientY - dragStartY c)%float in
    let c' := set_pan (dragStartPanX c + deltaX) (dragStartPanY c + deltaY) c in
    checkBoundariesAndLoad (scheduleRender (set_state c' w)).

Definition handleMouseUp (w : World) : World :=
  if negb (isDragging (state w)) then w
  else scheduleRender (set_state (set_isDragging false (state w)) w).

(** [handleWheel]; [rectLeft] and [rectTop] are the viewport's bounding
    rectangle. *)
Definition zoomAt (deltaY mouseX mouseY : float) (c : Camera) : Camera :=
  let zoomSensitivity := 0x1.999999999999ap-4%float in
  let zoomDelta := (- deltaY * zoomSensitivity / 1000)%float in
  let newZoom :=
    JS.Math_max 0x1.999999999999ap-4 (JS.Math_min 5 (zoom c + zoomDelta)) in
  let worldX := ((mouseX - panX c) / zoom c)%float in
  let worldY := ((mouseY - panY c) / zoom c)%float in
  set_pan (mouseX - worldX * newZoom) (mouseY - worldY * newZoom)
    (set_zoom newZoom c).

Definition handleWheel (deltaY clientX clientY rectLeft rectTop : float)
    (w : World) : World :=
  let mouseX := (clientX - rectLeft)%float in
  let mouseY := (clientY - rectTop)%float in
  checkBoundariesAndLoad
    (scheduleRender (set_state (zoomAt deltaY mouseX mouseY (state w)) w)).

Definition handleResize (clientWidth clientHeight : float) (w : World)
  : World :=
  scheduleRender
    (set_state (set_viewport clientWidth clientHeight (state w)) w).

(** [handleDoubleClick] up to the download it starts; [itemId] is the parsed
    [dataset.itemId] of the grid item under the cursor, if there is one. *)
Definition handleDoubleClick (itemId : option Z) (w : World) : World :=
  match itemId with
  | Some z =>
      if z =? 0 then w
      else
        match findItem (ITEM_DATA (store w)) (Some z) with
        | Some _ => set_state (set_isDragging false (state w)) w
        | None => w
        end
  | None => w
  end.

(** ** Phase 6: load from centre, initialisation *)

Definition loadFromCenter (w : World) : World :=
  let c := state w in
  let centerX := (JS.num_of_Z (canvasWidth c) / 2)%float in
  let centerY := (JS.num_of_Z (canvasHeight c) / 2)%float in
  let c' :=
    set_pan (viewportWidth c / 2 - centerX * zoom c)
      (viewportHeight c / 2 - centerY * zoom c) c in
  render (set_state c' w).

(** [initialize] and [reinitializeWithNewData] differ by listener set-up
    only. *)
Definition initialize (clientWidth clientHeight : float) (w : World)
  : World :=
  loadFromCenter (initializeCanvas clientWidth clientHeight w).

(** ** The session: what can happen to the page *)

Inductive Event :=
| MouseDown (button : Z) (clientX clientY : float)
| MouseMove (clientX clientY : float)
| MouseUp
| Wheel (deltaY clientX clientY rectLeft rectTop : float)
| Resize (clientWidth clientHeight : float)
| DoubleClick (itemId : option Z)
| Frame
| Initialize (clientWidth clientHeight : float)
| RealDataLoaded (data : list Item) (clientWidth clientHeight : float)
| SetAppendHandler (installed : bool).

(** One turn of the event loop.  [Frame] is the browser running an owed
    frame callback; [RealDataLoaded] is the promise callback of data.js;
    [SetAppendHandler] is other script assigning
    [window.addMoreItemsToMEGHTOSH].  An exception that leaves a handler ends
    the turn (the browser reports it); in every handler the boundary check,
    or the [render] that makes it, is the last statement that changes the
    page. *)
Definition step (w : World) (e : Event) : World :=
  match e with
  | MouseDown button clientX clientY => handleMouseDown button clientX clientY w
  | MouseMove clientX clientY => handleMouseMove clientX clientY w
  | MouseUp => handleMouseUp w
  | Wheel deltaY clientX clientY rectLeft rectTop =>
      handleWheel deltaY clientX clientY rectLeft rectTop w
  | Resize clientWidth clientHeight => handleResize clientWidth clientHeight w
  | DoubleClick itemId => handleDoubleClick itemId w
  | Frame =>
      match pendingFrames w with
      | O => w
      | S n =>
          render
            (mkWorld (state w) (renderedItems w) (renderAnimationFrame w)
               (isLoadingMore w) (store w) (addMoreInstalled w)
               (appendCalls w) (released w) (scheduleCalls w)
               (frameRequests w) n)
      end
  | Initialize clientWidth clientHeight => initialize clientWidth clientHeight w
  | RealDataLoaded data clientWidth clientHeight =>
      match data with
      | [] => w
      | _ :: _ =>
          initialize clientWidth clientHeight
            (set_store (loadRealData data (store w)) w)
      end
  | SetAppendHandler installed => set_addMoreInstalled installed w
  end.

Definition run (events : list Event) (w : World) : World :=
  fold_left step events w.

(** ** Notions used to state the properties *)

(** The ids [start], [start + 1], ... ([n] of them). *)
Fixpoint idsFrom (start : Z) (n : nat) : list Z :=
  match n with
  | O => []
  | S n' => start :: idsFrom (start + 1) n'
  end.

(** [m] is the largest id of [items]. *)
Definition isMaxId (m : Z) (items : list Item) : Prop :=
  In m (map item_id items) /\ Forall (fun i => item_id i <= m) items.

(** What every store of generated data satisfies. *)
Record storeInv (s : Store) : Prop := mkStoreInv {
  inv_generated : usingRealData s = false;
  inv_nonempty : ITEM_DATA s <> [];
  inv_unique : NoDup (map item_id (ITEM_DATA s));
  inv_counter : isMaxId (globalItemIdCounter s) (ITEM_DATA s)
}.

(** The position fields of an item agree: [x = column * ITEM_SIZE]. *)
Definition columnConsistent (item : Item) : Prop :=
  item_x item = item_column item * ITEM_SIZE.

(** A registry the page can hold: no key twice (it is a [Map]) and every key
    the decimal string of an integer (only [syncDOM] inserts, under
    [item.id.toString()]). *)
Definition registryWf (r : Registry) : Prop :=
  NoDup (map fst r) /\
  Forall (fun key => exists z, key = JS.toString z) (map fst r).

(** The entry of a selected item. *)
Definition selectedEntry (visibleItemIds : list Z) (entry : string * Element)
  : bool :=
  ids_has visibleItemIds (JS.parseInt (fst entry)).

(** The entry's key is one of [keys]. *)
Definition keyIn (keys : list string) (entry : string * Element) : bool :=
  existsb (String.eqb (fst entry)) keys.

(** What [addVisible] does to the registry. *)
Definition addVisibleReg (visibleItems : list Item) (r : Registry)
  : Registry :=
  fold_left
    (fun r item =>
       let itemIdStr := JS.toString (item_id item) in
       if reg_has itemIdStr r then r
       else reg_set itemIdStr (createItemElement item) r)
    visibleItems r.

(** What [updateItemPositions] does to one entry. *)
Definition reposition (items : list Item) (entry : string * Element)
  : string * Element :=
  match findItem items (JS.parseInt (fst entry)) with
  | Some item =>
      (fst entry, mkElement (el_itemId (snd entry)) (item_x item) (item_y item))
  | None => entry
  end.

(** What a whole [syncDOM] pass does to the registry. *)
Definition syncDOMReg (items visibleItems : list Item) (r : Registry)
  : Registry :=
  map (reposition items)
    (addVisibleReg visibleItems
       (filter (selectedEntry (map item_id visibleItems)) r)).

(** The first direction, in the order of the [if / else if] chain, whose
    threshold test holds. *)
Definition firstWithinThreshold (w : World) : option Direction :=
  find (fun d => withinThreshold d w) [Right; Bottom; Left; Top].

(** The store of the first 60 generated items: two rows, columns from 0. *)
Definition sixtyItems : Store :=
  mkStore (fst (generateItemData 60 (Some 1) 0 0)) 60 false.

(** The camera of the specification's example: no pan, zoom 1, a viewport of
    800 by 600. *)
Definition cornerCamera : Camera :=
  mkCamera 0 0 1 false 0 0 0 0 800 600 0 0.

(** The freshly loaded page looking at the top left corner of the grid. *)
Definition cornerWorld : World := set_state cornerCamera initialWorld.

(** A page under memory pressure: 502 live elements, of which the items 1 to
    499 are selected and the items 500, 501 and 502 sit at 50, 10 and 30
    pixels from the centre (400, 300) of the buffered bounds. *)
Definition crowdedWorld : World :=
  mkWorld cornerCamera
    (map (fun z => (JS.toString z, mkElement z 0 0)) (idsFrom 1 502))
    None false
    (mkStore [mkItem 500 350 200 1 1; mkItem 501 310 200 1 1;
              mkItem 502 330 200 1 1] 502 false)
    true [] [] O O O.

(** The session that drags the freshly initialised page (viewport 800 by 600)
    to the top left corner of the grid. *)
Definition dragToCorner : list Event :=
  [Initialize 800 600; MouseDown 0 0 0; MouseMove 4600 3700].

(** The page after that drag, with a frame callback owed. *)
Definition cornerDragged : World := run dragToCorner initialWorld.

(** C1 as the specification words it, for one pass on the page [w]: every
    direction whose threshold test holds after the reconciliation gets an
    append in the boundary check of that pass. *)
Definition appendsEveryDirectionWithinThreshold (w : World) : Prop :=
  forall d, withinThreshold d (syncDOM w) = true ->
            In (2000, d) (skipn (length (appendCalls w))
                            (appendCalls (render w))).

(** Both position fields of an item agree with its grid cell. *)
Definition positionConsistent (item : Item) : Prop :=
  item_x item = item_column item * ITEM_SIZE
  /\ item_y item = item_row item * ITEM_SIZE.

(** The store [generateItemData(n, topic, 1, 0)] leaves behind. *)
Definition generatedStore (n : Z) : Store :=
  mkStore (fst (generateItemData n (Some 1) 0 0)) n false.

(** [ITEM_DATA] has no more items than the engine accepts as arguments. *)
Definition spreadFits (s : Store) : Prop :=
  Z.of_nat (length (ITEM_DATA s)) <= argumentLimit.

(** The appends to the store return even after [room] more items: it
    holds real data, which no append touches, or generated data that leaves
    that much room below what the engine accepts as arguments. *)
Definition loadsReturn (room : Z) (s : Store) : Prop :=
  usingRealData s = true
  \/ (usingRealData s = false
      /\ Z.of_nat (length (ITEM_DATA s)) + room <= argumentLimit).

(** An append at the end of [ITEM_DATA]. *)
Definition towardsEnd (direction : Direction) : bool :=
  match direction with
  | Right | Bottom => true
  | Left | Top => false
  end.

(** The number of items a sequence of appends asks for. *)
Definition totalCount (calls : list (Z * Direction)) : Z :=
  fold_right (fun call acc => fst call + acc) 0 calls.

(** ** data.js: loading real data *)

(** [s.includes(pattern)]. *)
Definition includes (pattern s : string) : bool :=
  match String.index 0 pattern s with
  | Some _ => true
  | None => false
  end.

(** What [loadItemData] reads of one entry of [data.items]: its [id]
    ([None] when missing), whether it has a (non-empty) [type], and its [src]
    ([None] when missing). *)
Record JsonItem := mkJsonItem {
  json_id : option Z;
  json_hasType : bool;
  json_src : option string
}.

(** The test inside [data.items.some(...)]. *)
Definition isRealUrl (item : JsonItem) : bool :=
  match json_src item with
  | Some src =>
      negb (String.eqb src "")
      && negb (includes "picsum.photos" src)
      && negb (includes "unsplash" src)
      && negb (includes "placeholder" src)
  | None => false
  end.

Definition hasRealUrls (items : list JsonItem) : bool :=
  existsb isRealUrl items.

(** The [data.items.forEach] of [loadItemData], from [index] on.  [None] is
    the [TypeError] of [item.src.match(...)] on an entry with neither [type]
    nor [src]; the surrounding [try / catch] swallows it. *)
Fixpoint processItems (index : Z) (items : list JsonItem)
  : option (list Item) :=
  match items with
  | [] => Some []
  | item :: rest =>
      let row := index / GRID_COLUMNS in
      let column := Z.rem index GRID_COLUMNS in
      let id := match json_id item with
                | Some z => if z =? 0 then index + 1 else z
                | None => index + 1
                end in
      match json_hasType item, json_src item with
      | false, None => None
      | _, _ =>
          option_map
            (cons (mkItem id (column * ITEM_SIZE) (row * ITEM_SIZE) column row))
            (processItems (index + 1) rest)
      end
  end.

(** [loadItemData]; [response] is the [items] array of a fetched and parsed
    photos-data.json, [None] when there is no such file or no such field. *)
Definition loadItemData (response : option (list JsonItem))
  : option (list Item) :=
  match response with
  | Some items =>
      match items with
      | [] => None
      | _ :: _ => if hasRealUrls items then processItems 0 items else None
      end
  | None => None
  end.

(** ** Further notions used to state properties *)

(** The events that replace the store. *)
Definition isDataLoad (e : Event) : bool :=
  match e with
  | RealDataLoaded _ _ _ => true
  | _ => false
  end.

(** The events whose handler calls [render] itself rather than scheduling
    it. *)
Definition rendersDirectly (e : Event) : bool :=
  match e with
  | Initialize _ _ | RealDataLoaded _ _ _ => true
  | _ => false
  end.

(** Every element is filed under the decimal string of its own
    [dataset.itemId]. *)
Definition filedUnderOwnId (r : Registry) : Prop :=
  Forall (fun entry => fst entry = JS.toString (el_itemId (snd entry))) r.

(** The element of an entry sits where the item of that id is. *)
Definition elementAtItem (items : list Item) (entry : string * Element)
  : Prop :=
  exists item,
    findItem items (JS.parseInt (fst entry)) = Some item
    /\ el_left (snd entry) = item_x item
    /\ el_top (snd entry) = item_y item.


(** The canvas size kept in [state] is the one of the current store. *)
Definition canvasInSync (w : World) : Prop :=
  (canvasWidth (state w), canvasHeight (state w))
  = calculateCanvasDimensions (store w).

(** A photos-data.json of three entries: one real photo without an id, one
    placeholder, one real video with its own id. *)
Definition sampleJson : list JsonItem :=
  [mkJsonItem None true (Some "https://example.com/image1.jpg"%string);
   mkJsonItem (Some 2) true (Some "https://picsum.photos/200"%string);
   mkJsonItem (Some 7) false (Some "https://example.com/video1.mp4"%string)].

(** The item [loadItemData] makes of the [k]-th entry. *)
Definition loadedAs (entry : nat * JsonItem) (item : Item) : Prop :=
  let k := Z.of_nat (fst entry) in
  item = mkItem (match json_id (snd entry) with
                 | Some z => if z =? 0 then k + 1 else z
                 | None => k + 1
                 end)
           (k mod GRID_COLUMNS * ITEM_SIZE) (k / GRID_COLUMNS * ITEM_SIZE)
           (k mod GRID_COLUMNS) (k / GRID_COLUMNS).

(** The pixel position of an item. *)
Definition cellOf (item : Item) : Z * Z := (item_x item, item_y item).

(** The position [generateItemData] gives the item of global index [g]. *)
Definition gridCell (g : Z) : Z * Z :=
  (Z.rem g GRID_COLUMNS * ITEM_SIZE, g / GRID_COLUMNS * ITEM_SIZE).

(** The positions the ['left'] and ['top'] branches give their [idx]-th new
    item. *)
Definition leftCell (newCols minX minY idx : Z) : Z * Z :=
  (minX - (newCols - Z.rem idx newCols) * ITEM_SIZE,
   (minY / ITEM_SIZE + idx / newCols) * ITEM_SIZE).

Definition topCell (newRows minY idx : Z) : Z * Z :=
  (Z.rem idx GRID_COLUMNS * ITEM_SIZE,
   minY - (newRows - idx / GRID_COLUMNS) * ITEM_SIZE).

(** What the placement of the items of a generated store keeps true: the
    first cell is taken, no cell is taken twice, and every item lies left of
    the origin, above it, or on the row-by-row grid at an index below the
    length of the store. *)
Record storeTiled (s : Store) : Prop := mkStoreTiled {
  tiled_generated : usingRealData s = false;
  tiled_origin : In (0, 0) (map cellOf (ITEM_DATA s));
  tiled_distinct : NoDup (map cellOf (ITEM_DATA s));
  tiled_where :
    Forall (fun item =>
              item_x item < 0 \/ item_y item < 0
              \/ exists g, 0 <= g < Z.of_nat (length (ITEM_DATA s))
                           /\ cellOf item = gridCell g)
      (ITEM_DATA s)
}.

(** The zoom is NaN or lies between 0.1 and 5. *)
Definition zoomClamped (c : Camera) : bool :=
  PrimFloat.is_nan (zoom c)
  || (PrimFloat.leb 0x1.999999999999ap-4 (zoom c)
      && PrimFloat.leb (zoom c) 5).

(** ** Zoom anchoring *)











(** The events that leave [window.addMoreItemsToMEGHTOSH] a function. *)
Definition keepsHandler (e : Event) : bool :=
  match e with
  | SetAppendHandler false => false
  | _ => true
  end.

(** A photos-data.json of two real photos: the first brings the id 2, the
    second brings none and gets its index plus 1, which is 2 again. *)
Definition dupJson : list JsonItem :=
  [mkJsonItem (Some 2) true (Some "https://example.com/a.jpg"%string);
   mkJsonItem None true (Some "https://example.com/b.jpg"%string)].

(** C7 as the specification words it: at all times of the life of the
    store, that is after every session of the page, the ids of the store are
    pairwise distinct. *)
Definition idsAlwaysUnique : Prop :=
  forall events,
    NoDup (map item_id (ITEM_DATA (store (run events initialWorld)))).

(** The corner page with a generated store of 66000 items, more than the
    smallest engine accepts as arguments. *)
Definition overfullWorld : World :=
  set_store (generatedStore 66000) cornerWorld.

(** A photos-data.json whose last entry has neither a [type] nor a [src]. *)
Definition brokenJson : list JsonItem :=
  sampleJson ++ [mkJsonItem (Some 9) false None].

(** The freshly loaded page looking at the right edge of the grid. *)
Definition rightEdgeWorld : World :=
  set_state (mkCamera (-8000) 0 1 false 0 0 0 0 800 600 10000 8000)
    initialWorld.

(* ================================================================== *)
(** * Properties of the item store (data.js) *)

Section ItemStore.

Lemma idsFrom_In (x start : Z) (n : nat) :
  In x (idsFrom start n) <-> start <= x < start + Z.of_nat n.
Proof.
  revert start; induction n as [|n IH]; intros start; simpl idsFrom.
  - simpl; lia.
  - simpl In. rewrite IH. lia.
Qed.

Lemma idsFrom_NoDup (start : Z) (n : nat) : NoDup (idsFrom start n).
Proof.
  revert start; induction n as [|n IH]; intros start; simpl.
  - constructor.
  - constructor; [rewrite idsFrom_In; lia | apply IH].
Qed.

Lemma idsFrom_length (start : Z) (n : nat) : length (idsFrom start n) = n.
Proof.
  revert start; induction n as [|n IH]; intros start; simpl;
    [reflexivity | now rewrite IH].
Qed.

Lemma generateLoop_ids (n : nat) (i baseId startIndex : Z) :
  map item_id (generateLoop n i baseId startIndex) = idsFrom (baseId + i) n.
Proof.
  revert i; induction n as [|n IH]; intros i; simpl; [reflexivity|].
  rewrite IH. now rewrite Z.add_assoc.
Qed.

Lemma generateLoop_length (n : nat) (i baseId startIndex : Z) :
  length (generateLoop n i baseId startIndex) = n.
Proof.
  revert i; induction n as [|n IH]; intros i; simpl; [reflexivity|].
  now rewrite IH.
Qed.

Lemma positionLeft_ids (idx newCols minX minY : Z) (items : list Item) :
  map item_id (positionLeft idx newCols minX minY items) = map item_id items.
Proof.
  revert idx; induction items as [|a l IH]; intros idx; simpl;
    [reflexivity | now rewrite IH].
Qed.

Lemma positionTop_ids (idx newRows minY : Z) (items : list Item) :
  map item_id (positionTop idx newRows minY items) = map item_id items.
Proof.
  revert idx; induction items as [|a l IH]; intros idx; simpl;
    [reflexivity | now rewrite IH].
Qed.

Lemma Math_min_list_nonempty {A} (f : A -> Z) (l : list A) :
  l <> [] -> exists m, JS.Math_min_list (map f l) = Some m.
Proof.
  destruct l as [|a r]; [congruence|]. intros _. simpl. eauto.
Qed.

(** A spread that returns a number has been given no more arguments than
    the engine accepts, and returns their minimum. *)
Lemma Math_min_spread_Some (l : list Z) (m : Z) :
  Math_min_spread l = Some m ->
  JS.Math_min_list l = Some m /\ Z.of_nat (length l) <= argumentLimit.
Proof.
  unfold Math_min_spread.
  destruct (Z.leb_spec (Z.of_nat (length l)) argumentLimit);
    [now split | discriminate].
Qed.

Lemma Math_min_spread_fits {A} (f : A -> Z) (l : list A) :
  Z.of_nat (length l) <= argumentLimit ->
  Math_min_spread (map f l) = JS.Math_min_list (map f l).
Proof.
  intros H. unfold Math_min_spread. rewrite length_map.
  destruct (Z.leb_spec (Z.of_nat (length l)) argumentLimit); [reflexivity|lia].
Qed.

Lemma Math_min_spread_raises {A} (f : A -> Z) (l : list A) :
  argumentLimit < Z.of_nat (length l) -> Math_min_spread (map f l) = None.
Proof.
  intros H. unfold Math_min_spread. rewrite length_map.
  destruct (Z.leb_spec (Z.of_nat (length l)) argumentLimit); [lia|reflexivity].
Qed.

(** What an append that returns has done to a store of generated data,
    whatever the direction. *)
Lemma addMoreItems_generated (count : Z) (direction : Direction)
    (s s' : Store) (newItems : list Item) :
  usingRealData s = false ->
  addMoreItems count direction s = Some (s', newItems) ->
  map item_id newItems
    = idsFrom (globalItemIdCounter s + 1) (Z.to_nat count) /\
  (s' = mkStore (ITEM_DATA s ++ newItems)
          (globalItemIdCounter s + 1 + count - 1) false
   \/
   s' = mkStore (newItems ++ ITEM_DATA s)
          (globalItemIdCounter s + 1 + count - 1) false).
Proof.
  intros Hreal. unfold addMoreItems. rewrite Hreal.
  destruct direction; unfold generateItemData.
  - intros E; injection E as <- <-. split; [|now left].
    rewrite generateLoop_ids. now rewrite Z.add_0_r.
  - destruct (Math_min_spread (map item_x (ITEM_DATA s))) as [minX|];
      [|discriminate].
    destruct (Math_min_spread (map item_y (ITEM_DATA s))) as [minY|];
      [|discriminate].
    intros E; injection E as <- <-. split; [|now right].
    rewrite positionLeft_ids, generateLoop_ids. now rewrite Z.add_0_r.
  - destruct (Math_min_spread (map item_y (ITEM_DATA s))) as [minY|];
      [|discriminate].
    intros E; injection E as <- <-. split; [|now right].
    rewrite positionTop_ids, generateLoop_ids. now rewrite Z.add_0_r.
  - intros E; injection E as <- <-. split; [|now left].
    rewrite generateLoop_ids. now rewrite Z.add_0_r.
Qed.

(** An append returns whenever [ITEM_DATA] is not empty and has no more
    items than the engine accepts as arguments. *)
Lemma addMoreItems_total (count : Z) (direction : Direction) (s : Store) :
  ITEM_DATA s <> [] -> spreadFits s ->
  exists s' newItems, addMoreItems count direction s = Some (s', newItems).
Proof.
  intros Hne Hfit. unfold addMoreItems.
  destruct (usingRealData s); [eauto|].
  rewrite !Math_min_spread_fits by exact Hfit.
  destruct (Math_min_list_nonempty item_x _ Hne) as [minX ->].
  destruct (Math_min_list_nonempty item_y _ Hne) as [minY ->].
  destruct direction; unfold generateItemData; eauto.
Qed.

(** An append at the end makes no spread call and always returns. *)
Lemma addMoreItems_towardsEnd (count : Z) (direction : Direction)
    (s : Store) :
  towardsEnd direction = true ->
  exists s' newItems, addMoreItems count direction s = Some (s', newItems).
Proof.
  intros Hd. unfold addMoreItems.
  destruct (usingRealData s); [eauto|].
  destruct direction; try discriminate; unfold generateItemData; eauto.
Qed.

(** A ['left'] or ['top'] append on more generated items than the engine
    accepts as arguments raises. *)
Lemma addMoreItems_raises (count : Z) (direction : Direction) (s : Store) :
  usingRealData s = false -> towardsEnd direction = false ->
  argumentLimit < Z.of_nat (length (ITEM_DATA s)) ->
  addMoreItems count direction s = None.
Proof.
  intros Hreal Hd Hbig. unfold addMoreItems. rewrite Hreal.
  destruct direction; try discriminate.
  - now rewrite (Math_min_spread_raises item_x _ Hbig).
  - now rewrite (Math_min_spread_raises item_y _ Hbig).
Qed.

Lemma isMaxId_extend (m count : Z) (old new : list Item) :
  0 <= count -> isMaxId m old ->
  map item_id new = idsFrom (m + 1) (Z.to_nat count) ->
  isMaxId (m + 1 + count - 1) (old ++ new)
  /\ isMaxId (m + 1 + count - 1) (new ++ old).
Proof.
  intros Hc [Hin Hall] Hnew.
  assert (Hnew' : Forall (fun i => item_id i <= m + 1 + count - 1) new).
  { apply Forall_forall; intros i Hi.
    apply (in_map item_id) in Hi. rewrite Hnew, idsFrom_In in Hi. lia. }
  assert (Hold' : Forall (fun i => item_id i <= m + 1 + count - 1) old).
  { eapply Forall_impl; [|exact Hall]. simpl; intros; lia. }
  assert (Hmem : In (m + 1 + count - 1) (map item_id old)
                 \/ In (m + 1 + count - 1) (map item_id new)).
  { destruct (Z.eq_dec count 0) as [->|Hnz].
    - left. now replace (m + 1 + 0 - 1) with m by lia.
    - right. rewrite Hnew, idsFrom_In. lia. }
  split; (split; [rewrite map_app, in_app_iff; tauto
                 | apply Forall_app; tauto]).
Qed.

Lemma ids_unique_extend (m count : Z) (old new : list Item) :
  isMaxId m old -> NoDup (map item_id old) ->
  map item_id new = idsFrom (m + 1) (Z.to_nat count) ->
  NoDup (map item_id (old ++ new)) /\ NoDup (map item_id (new ++ old)).
Proof.
  intros [_ Hall] Hnd Hnew.
  assert (Hdisj : forall z, In z (map item_id old) ->
                            ~ In z (map item_id new)).
  { intros z Hz. rewrite Hnew, idsFrom_In.
    apply in_map_iff in Hz. destruct Hz as [i [<- Hi]].
    rewrite Forall_forall in Hall. specialize (Hall i Hi). lia. }
  assert (Hndn : NoDup (map item_id new))
    by (rewrite Hnew; apply idsFrom_NoDup).
  rewrite !map_app. split.
  - apply NoDup_app; repeat split; auto.
  - apply NoDup_app; repeat split; auto.
    intros z Hz Hz'. exact (Hdisj z Hz' Hz).
Qed.

Lemma generated_inv (total startIndex : Z) :
  0 < total ->
  storeInv (mkStore (generateLoop (Z.to_nat total) 0 1 startIndex)
              (1 + total - 1) false).
Proof.
  intros Hpos.
  constructor; cbn [ITEM_DATA usingRealData globalItemIdCounter].
  - reflexivity.
  - destruct (Z.to_nat total) eqn:E; [lia | discriminate].
  - rewrite generateLoop_ids. apply idsFrom_NoDup.
  - split.
    + rewrite generateLoop_ids, idsFrom_In. lia.
    + apply Forall_forall. intros i Hi.
      apply (in_map item_id) in Hi.
      rewrite generateLoop_ids, idsFrom_In in Hi. lia.
Qed.

Lemma initialStore_inv : storeInv initialStore.
Proof. apply (generated_inv 2000 0). reflexivity. Qed.

(** One append that returns keeps the invariant, hands out the next [count]
    ids and leaves the old items in place. *)
Lemma addMoreItems_inv (count : Z) (direction : Direction)
    (s s' : Store) (newItems : list Item) :
  0 <= count -> storeInv s ->
  addMoreItems count direction s = Some (s', newItems) ->
  map item_id newItems
    = idsFrom (globalItemIdCounter s + 1) (Z.to_nat count) /\
  (ITEM_DATA s' = ITEM_DATA s ++ newItems
   \/ ITEM_DATA s' = newItems ++ ITEM_DATA s) /\
  storeInv s'.
Proof.
  intros Hc [Hreal Hne Hnd Hmax] Happ.
  destruct (addMoreItems_generated count direction s s' newItems Hreal Happ)
    as [Hids Hres].
  destruct (isMaxId_extend _ count _ newItems Hc Hmax Hids) as [Ma Mb].
  destruct (ids_unique_extend _ count _ newItems Hmax Hnd Hids) as [Na Nb].
  split; [exact Hids|].
  destruct Hres as [->| ->]; cbn [ITEM_DATA];
    (split; [auto|]);
    constructor; cbn [ITEM_DATA usingRealData globalItemIdCounter]; auto.
  - destruct (ITEM_DATA s); [congruence | discriminate].
  - destruct (ITEM_DATA s) as [|a l]; [congruence|].
    destruct newItems; discriminate.
Qed.

(** Every sequence of appends that run through keeps the invariant. *)
Lemma appendAll_inv (calls : list (Z * Direction)) (s s' : Store) :
  Forall (fun call => 0 <= fst call) calls -> storeInv s ->
  appendAll calls s = Some s' -> storeInv s'.
Proof.
  revert s; induction calls as [|[count direction] rest IH];
    intros s Hall Hinv; simpl.
  - intros E; injection E as <-. exact Hinv.
  - inversion Hall as [|? ? Hc Hrest]; subst. simpl in Hc.
    destruct (addMoreItems count direction s) as [[s1 new]|] eqn:E;
      [|discriminate].
    apply IH; [exact Hrest|].
    apply (addMoreItems_inv count direction s s1 new Hc Hinv E).
Qed.

(** An append that returns adds [count] items. *)
Lemma addMoreItems_length (count : Z) (direction : Direction)
    (s s' : Store) (newItems : list Item) :
  usingRealData s = false -> 0 <= count ->
  addMoreItems count direction s = Some (s', newItems) ->
  Z.of_nat (length (ITEM_DATA s'))
  = Z.of_nat (length (ITEM_DATA s)) + count
  /\ usingRealData s' = false.
Proof.
  intros Hreal Hc Happ.
  destruct (addMoreItems_generated count direction s s' newItems Hreal Happ)
    as [Hids Hres].
  assert (Hlen : Z.of_nat (length newItems) = count).
  { rewrite <- (length_map item_id), Hids, idsFrom_length. lia. }
  destruct Hres as [->| ->]; cbn [ITEM_DATA usingRealData];
    rewrite length_app; split; (lia || reflexivity).
Qed.

(** A sequence of appends runs through as long as the store stays within
    what the engine accepts as arguments. *)
Lemma appendAll_returns (calls : list (Z * Direction)) (s : Store) :
  Forall (fun call => 0 <= fst call) calls ->
  usingRealData s = false -> ITEM_DATA s <> [] ->
  Z.of_nat (length (ITEM_DATA s)) + totalCount calls <= argumentLimit ->
  exists s',
    appendAll calls s = Some s'
    /\ usingRealData s' = false /\ ITEM_DATA s' <> []
    /\ Z.of_nat (length (ITEM_DATA s'))
       = Z.of_nat (length (ITEM_DATA s)) + totalCount calls.
Proof.
  revert s; induction calls as [|[count direction] rest IH];
    intros s Hall Hreal Hne Hfit.
  - exists s. cbn [appendAll totalCount fold_right]. repeat split; auto. lia.
  - inversion Hall as [|? ? Hc Hrest]; subst. cbn [fst] in Hc.
    cbn [totalCount fold_right fst] in Hfit. fold (totalCount rest) in Hfit.
    assert (Hrest0 : 0 <= totalCount rest).
    { clear - Hrest. induction Hrest as [|c l Hc _ IHl];
        cbn [totalCount fold_right]; [lia|].
      fold (totalCount l). lia. }
    destruct (addMoreItems_total count direction s Hne) as [s1 [new E]];
      [unfold spreadFits; lia|].
    destruct (addMoreItems_length _ _ _ _ _ Hreal Hc E) as [Hlen Hreal1].
    assert (Hne1 : ITEM_DATA s1 <> []).
    { intros E1. rewrite E1 in Hlen. cbn [length] in Hlen.
      destruct (ITEM_DATA s); [congruence | cbn [length] in Hlen; lia]. }
    destruct (IH s1 Hrest Hreal1 Hne1) as [s' [Hs' [Hr' [Hn' Hl']]]];
      [lia|].
    exists s'. cbn [appendAll]. rewrite E.
    repeat split; auto.
    cbn [totalCount fold_right fst]. fold (totalCount rest). lia.
Qed.

Lemma min_fold_scaled (l : list Item) (c : Z) :
  Forall columnConsistent l ->
  fold_left Z.min (map item_x l) (c * ITEM_SIZE)
  = fold_left Z.min (map item_column l) c * ITEM_SIZE.
Proof.
  revert c; induction l as [|a l IH]; intros c Hall; simpl; [reflexivity|].
  inversion Hall as [|? ? Ha Hl]; subst. rewrite Ha.
  rewrite Z.mul_min_distr_nonneg_r by (unfold ITEM_SIZE; lia).
  now apply IH.
Qed.

Lemma min_x_of_min_column (l : list Item) (c : Z) :
  Forall columnConsistent l ->
  JS.Math_min_list (map item_column l) = Some c ->
  JS.Math_min_list (map item_x l) = Some (c * ITEM_SIZE).
Proof.
  destruct l as [|a l]; simpl; [discriminate|].
  intros Hall Hmin. inversion Hall as [|? ? Ha Hl]; subst.
  injection Hmin as <-. rewrite Ha. f_equal. now apply min_fold_scaled.
Qed.

Lemma columnConsistent_check (l : list Item) :
  forallb (fun i => item_x i =? item_column i * ITEM_SIZE) l = true ->
  Forall columnConsistent l.
Proof.
  rewrite forallb_forall, Forall_forall. intros H i Hi.
  now apply Z.eqb_eq, H.
Qed.

(** With real data loaded an append is refused and changes nothing. *)
Lemma addMoreItems_real_data (count : Z) (direction : Direction) (s : Store) :
  usingRealData s = true -> addMoreItems count direction s = Some (s, []).
Proof. intros H. unfold addMoreItems. now rewrite H. Qed.

(** C7 (as the code has it): in the store of generated data item ids are
    unique, and each append hands out ids that continue the sequence from
    the largest id so far.  After any sequence of appends to the initial
    store that have returned (counts not negative), the ids of the store are
    pairwise distinct and the counter is its largest id; one more append of
    [count] items that returns, in any direction, gives the new items the
    ids [counter + 1, ..., counter + count], keeps every old item and keeps
    the ids distinct.  The appends do return as long as the store holds no
    more items than the engine accepts as arguments. *)
Theorem store_ids_unique_and_sequential
    (calls : list (Z * Direction)) (count : Z) (direction : Direction) :
  Forall (fun call => 0 <= fst call) calls -> 0 <= count ->
  (forall s s' newItems,
     appendAll calls initialStore = Some s ->
     addMoreItems count direction s = Some (s', newItems) ->
     NoDup (map item_id (ITEM_DATA s)) /\
     isMaxId (globalItemIdCounter s) (ITEM_DATA s) /\
     map item_id newItems
       = idsFrom (globalItemIdCounter s + 1) (Z.to_nat count) /\
     (ITEM_DATA s' = ITEM_DATA s ++ newItems
      \/ ITEM_DATA s' = newItems ++ ITEM_DATA s) /\
     NoDup (map item_id (ITEM_DATA s')) /\
     isMaxId (globalItemIdCounter s') (ITEM_DATA s'))
  /\ (2000 + totalCount calls <= argumentLimit ->
      exists s s' newItems,
        appendAll calls initialStore = Some s /\
        addMoreItems count direction s = Some (s', newItems)).
Proof.
  intros Hcalls Hcount. split.
  - intros s s' newItems Hs Happ.
    pose proof (appendAll_inv calls initialStore s Hcalls initialStore_inv Hs)
      as Hinv.
    destruct (addMoreItems_inv count direction s s' newItems Hcount Hinv Happ)
      as [Hids [Hdata Hinv']].
    split; [apply (inv_unique _ Hinv)|].
    split; [apply (inv_counter _ Hinv)|].
    split; [exact Hids|]. split; [exact Hdata|].
    split; [apply (inv_unique _ Hinv') | apply (inv_counter _ Hinv')].
  - intros Hfit.
    destruct (appendAll_returns calls initialStore Hcalls eq_refl
                (inv_nonempty _ initialStore_inv))
      as [s [Hs [Hreal [Hne Hlen]]]].
    { change (ITEM_DATA initialStore)
        with (generateLoop (Z.to_nat 2000) 0 1 0).
      rewrite generateLoop_length. lia. }
    destruct (addMoreItems_total count direction s Hne) as [s' [new E]].
    { unfold spreadFits. rewrite Hlen.
      change (ITEM_DATA initialStore)
        with (generateLoop (Z.to_nat 2000) 0 1 0).
      rewrite generateLoop_length. lia. }
    exists s, s', new. now split.
Qed.

(** C4: appending 5 items to the left of a store of two rows whose smallest
    column is 0 gives the new items the columns -3, -2, -1, -3, -2 (all
    below 0, filling the three columns just before column 0) and puts them
    in front of the old items, which stay as they were. *)
Theorem append_left_tiles (s : Store) :
  usingRealData s = false ->
  JS.ceil_div (Z.of_nat (length (ITEM_DATA s))) GRID_COLUMNS = 2 ->
  Forall columnConsistent (ITEM_DATA s) ->
  JS.Math_min_list (map item_column (ITEM_DATA s)) = Some 0 ->
  exists s' newItems,
    addMoreItems 5 Left s = Some (s', newItems) /\
    map item_column newItems = [-3; -2; -1; -3; -2] /\
    map item_x newItems = [-600; -400; -200; -600; -400] /\
    Forall (fun item => item_column item < 0) newItems /\
    ITEM_DATA s' = newItems ++ ITEM_DATA s.
Proof.
  intros Hreal Hrows Hcons Hmin.
  pose proof (min_x_of_min_column _ _ Hcons Hmin) as HX.
  assert (Hne : ITEM_DATA s <> []).
  { intros E. rewrite E in Hmin. discriminate. }
  destruct (Math_min_list_nonempty item_y _ Hne) as [minY HY].
  assert (Hfit : Z.of_nat (length (ITEM_DATA s)) <= argumentLimit).
  { unfold JS.ceil_div, GRID_COLUMNS in Hrows.
    unfold argumentLimit, MIN_ARGUMENT_LIMIT.
    pose proof (Z.div_mod (- Z.of_nat (length (ITEM_DATA s))) 50 ltac:(lia)).
    pose proof (Z.mod_pos_bound (- Z.of_nat (length (ITEM_DATA s))) 50
                  ltac:(lia)).
    lia. }
  unfold addMoreItems.
  rewrite !Math_min_spread_fits by exact Hfit.
  rewrite Hreal, Hrows, HX, HY.
  eexists; eexists. split; [reflexivity|].
  repeat split; repeat constructor.
Qed.

End ItemStore.

(* ================================================================== *)
(** * Properties of the registry and of the DOM manager *)

Section RegistryFacts.

Lemma filter_filter {A} (f g : A -> bool) (l : list A) :
  filter f (filter g l) = filter (fun a => g a && f a) l.
Proof.
  induction l as [|a l IH]; simpl; [reflexivity|].
  destruct (g a); simpl; [destruct (f a)|]; now rewrite IH.
Qed.

Lemma filter_all {A} (f : A -> bool) (l : list A) :
  Forall (fun a => f a = true) l -> filter f l = l.
Proof.
  induction 1 as [|a l Ha _ IH]; simpl; [reflexivity|].
  now rewrite Ha, IH.
Qed.

Lemma filter_Forall {A} (f : A -> bool) (l : list A) :
  Forall (fun a => f a = true) (filter f l).
Proof. apply Forall_forall. intros a Ha. now apply filter_In in Ha. Qed.

Lemma In_firstn {A} (n : nat) (l : list A) (x : A) :
  In x (firstn n l) -> In x l.
Proof.
  revert l; induction n as [|n IH]; intros [|a l]; simpl; try tauto.
  intros [H|H]; [now left | right; now apply IH].
Qed.

Lemma reg_has_In (key : string) (r : Registry) :
  reg_has key r = true <-> In key (map fst r).
Proof.
  unfold reg_has. rewrite existsb_exists, in_map_iff. split.
  - intros [e [He Heq]]. apply String.eqb_eq in Heq. eauto.
  - intros [e [Heq He]]. exists e. split; [assumption|].
    now apply String.eqb_eq.
Qed.

Lemma reg_has_false (key : string) (r : Registry) :
  reg_has key r = false <-> ~ In key (map fst r).
Proof.
  rewrite <- reg_has_In. destruct (reg_has key r); split; congruence.
Qed.

Lemma reg_get_has (key : string) (r : Registry) :
  reg_get key r = None <-> reg_has key r = false.
Proof.
  unfold reg_get, reg_has.
  induction r as [|e r IH]; simpl; [tauto|].
  destruct (String.eqb (fst e) key); simpl; [split; discriminate | exact IH].
Qed.

Lemma reg_delete_absent (key : string) (r : Registry) :
  reg_has key r = false -> reg_delete key r = r.
Proof.
  intros H. apply filter_all, Forall_forall. intros e He.
  apply negb_true_iff. destruct (String.eqb (fst e) key) eqn:E; [|reflexivity].
  apply String.eqb_eq in E. apply reg_has_false in H.
  exfalso. apply H. rewrite <- E. now apply in_map.
Qed.

Lemma reg_set_absent (key : string) (el : Element) (r : Registry) :
  reg_has key r = false -> reg_set key el r = r ++ [(key, el)].
Proof.
  unfold reg_has. induction r as [|e r IH]; simpl; [reflexivity|].
  destruct (String.eqb (fst e) key); simpl; [discriminate|].
  intros H. now rewrite IH.
Qed.

Lemma set_dom_self (w : World) :
  set_dom (renderedItems w) (released w) w = w.
Proof. now destruct w. Qed.

(** A release only touches the registry and the log. *)
Lemma release_frame (w : World) (key : string) :
  exists rel,
    release w key = set_dom (reg_delete key (renderedItems w)) rel w.
Proof.
  unfold release. destruct (reg_get key (renderedItems w)) eqn:E.
  - eexists; reflexivity.
  - apply reg_get_has in E. rewrite (reg_delete_absent _ _ E).
    exists (released w). now rewrite set_dom_self.
Qed.

(** A run of releases removes exactly the entries under the given keys. *)
Lemma releaseAll_frame (keys : list string) (w : World) :
  exists rel,
    fold_left release keys w
    = set_dom (filter (fun e => negb (keyIn keys e)) (renderedItems w)) rel w.
Proof.
  revert w; induction keys as [|k keys IH]; intros w; simpl.
  - exists (released w).
    rewrite filter_all by (apply Forall_forall; reflexivity).
    now rewrite set_dom_self.
  - destruct (release_frame w k) as [rel1 H1]. rewrite H1.
    destruct (IH (set_dom (reg_delete k (renderedItems w)) rel1 w))
      as [rel2 H2].
    rewrite H2. exists rel2. unfold set_dom; simpl.
    unfold reg_delete. rewrite filter_filter. f_equal.
    apply filter_ext. intros e. unfold keyIn. simpl.
    now rewrite negb_orb.
Qed.

(** After the removal step the registry is the selected part of what it
    was. *)
Lemma removeStale_frame (ids : list Z) (w : World) :
  exists rel,
    removeStale ids w
    = set_dom (filter (selectedEntry ids) (renderedItems w)) rel w.
Proof.
  unfold removeStale.
  destruct (releaseAll_frame
              (map fst (filter (fun entry =>
                 negb (ids_has ids (JS.parseInt (fst entry))))
                 (renderedItems w))) w) as [rel H].
  rewrite H. exists rel. f_equal.
  apply filter_ext_in. intros e He. unfold keyIn, selectedEntry.
  destruct (ids_has ids (JS.parseInt (fst e))) eqn:Esel; simpl.
  - apply negb_true_iff. apply not_true_iff_false. intros Hex.
    apply existsb_exists in Hex. destruct Hex as [k [Hk Heq]].
    apply String.eqb_eq in Heq. subst k.
    apply in_map_iff in Hk. destruct Hk as [e' [Hfst He']].
    apply filter_In in He'. destruct He' as [_ Hsel'].
    rewrite Hfst, Esel in Hsel'. discriminate.
  - apply negb_false_iff. apply existsb_exists. exists (fst e).
    split; [|apply String.eqb_refl].
    apply in_map. apply filter_In. split; [assumption|].
    now rewrite Esel.
Qed.

Lemma parseInt_toString (z : Z) : JS.parseInt (JS.toString z) = Some z.
Proof.
  unfold JS.parseInt, JS.toString. rewrite NilZero.isi.
  - simpl. now rewrite DecimalZ.of_to.
  - destruct z; simpl; try discriminate.
    intros E. injection E as E.
    exact (DecimalPos.Unsigned.to_uint_nonnil _ E).
  - destruct z; simpl; try discriminate.
    intros E. injection E as E.
    exact (DecimalPos.Unsigned.to_uint_nonnil _ E).
Qed.

Lemma findItem_id (items : list Item) (n : option Z) (item : Item) :
  findItem items n = Some item -> n = Some (item_id item).
Proof.
  destruct n as [z|]; simpl; [|discriminate].
  intros H. apply find_some in H. destruct H as [_ H].
  apply Z.eqb_eq in H. now subst.
Qed.

(** Every entry of [itemDistances] is a live key of a non-selected item. *)
Lemma collectDistances_keys (items : list Item) (ids : list Z)
    (cx cy : float) (r : Registry) :
  Forall (fun p => In (fst p) (map fst r)
                   /\ ids_has ids (JS.parseInt (fst p)) = false)
    (collectDistances items ids cx cy r).
Proof.
  induction r as [|[k el] r IH]; [constructor|].
  cbn [collectDistances].
  assert (IH' : Forall (fun p => In (fst p) (map fst ((k, el) :: r))
                   /\ ids_has ids (JS.parseInt (fst p)) = false)
                  (collectDistances items ids cx cy r)).
  { eapply Forall_impl; [|exact IH].
    intros p [H1 H2]; split; [right; exact H1 | exact H2]. }
  destruct (findItem items (JS.parseInt k)) as [item|] eqn:E; [|exact IH'].
  apply findItem_id in E.
  destruct (ids_has ids (Some (item_id item))) eqn:Hsel; cbn [negb];
    [exact IH'|].
  constructor; [|exact IH'].
  split; [left; reflexivity | cbn [fst]; rewrite E; exact Hsel].
Qed.

(** Over a registry of selected entries [itemDistances] stays empty. *)
Lemma collectDistances_selected (items : list Item) (ids : list Z)
    (cx cy : float) (r : Registry) :
  Forall (fun e => selectedEntry ids e = true) r ->
  collectDistances items ids cx cy r = [].
Proof.
  intros Hall.
  pose proof (collectDistances_keys items ids cx cy r) as Hk.
  destruct (collectDistances items ids cx cy r) as [|[k d] l]; [reflexivity|].
  inversion Hk as [|? ? [Hin Hns] _]; subst. simpl in Hin, Hns.
  apply in_map_iff in Hin. destruct Hin as [e [Hfst He]].
  rewrite Forall_forall in Hall. specialize (Hall e He).
  unfold selectedEntry in Hall. rewrite Hfst in Hall. congruence.
Qed.

Lemma insertByDistance_In (a x : string * float) (l : list (string * float)) :
  In x (insertByDistance a l) -> x = a \/ In x l.
Proof.
  induction l as [|b l IH]; cbn [insertByDistance].
  - intros [H|[]]; left; now symmetry.
  - destruct (PrimFloat.ltb 0 (snd b - snd a)).
    + intros [H|H]; [right; now left|].
      destruct (IH H) as [H'|H']; [now left | right; now right].
    + intros [H|H]; [left; now symmetry | now right].
Qed.

Lemma sortByDistance_In (x : string * float) (l : list (string * float)) :
  In x (sortByDistance l) -> In x l.
Proof.
  induction l as [|a l IH]; cbn [sortByDistance fold_right]; [tauto|].
  intros H. apply insertByDistance_In in H.
  destruct H as [H|H]; [left; now symmetry | right; now apply IH].
Qed.

(** The eviction step removes the entries of some keys, none of them the
    key of a selected item. *)
Lemma evict_frame (ids : list Z) (w : World) :
  exists keys rel,
    evictUnderPressure ids w
    = set_dom (filter (fun e => negb (keyIn keys e)) (renderedItems w)) rel w
    /\ Forall (fun k => ids_has ids (JS.parseInt k) = false) keys.
Proof.
  unfold evictUnderPressure.
  destruct (MAX_DOM_NODES <? reg_size (renderedItems w)).
  - match goal with |- context [fold_left release ?ks w] =>
      destruct (releaseAll_frame ks w) as [rel H]; exists ks, rel end.
    split; [exact H|].
    apply Forall_forall. intros k Hk.
    apply In_firstn in Hk. apply in_map_iff in Hk.
    destruct Hk as [[k' d] [Hfst Hp]]. simpl in Hfst. subst k'.
    apply sortByDistance_In in Hp. unfold itemDistances in Hp.
    match type of Hp with In _ (collectDistances ?a ?b ?cx ?cy ?r) =>
      pose proof (collectDistances_keys a b cx cy r) as Hall end.
    rewrite Forall_forall in Hall. now destruct (Hall _ Hp).
  - exists [], (released w). split; [|constructor].
    rewrite filter_all by (apply Forall_forall; reflexivity).
    now rewrite set_dom_self.
Qed.

(** Selected entries survive the eviction step, whatever the pressure. *)
Lemma evict_keeps_selected (ids : list Z) (w : World) :
  filter (selectedEntry ids) (renderedItems (evictUnderPressure ids w))
  = filter (selectedEntry ids) (renderedItems w).
Proof.
  destruct (evict_frame ids w) as [keys [rel [-> Hkeys]]].
  unfold set_dom; simpl. rewrite filter_filter.
  apply filter_ext_in. intros e He.
  destruct (selectedEntry ids e) eqn:Hsel; [|apply andb_false_r].
  rewrite andb_true_r. apply negb_true_iff, not_true_iff_false.
  intros Hex. apply existsb_exists in Hex. destruct Hex as [k [Hk Heq]].
  apply String.eqb_eq in Heq. rewrite Forall_forall in Hkeys.
  specialize (Hkeys k Hk). unfold selectedEntry in Hsel. congruence.
Qed.

(** Right after the removal step the eviction step has nothing to do. *)
Lemma evict_after_removal (ids : list Z) (r : Registry) (rel : list string)
    (w : World) :
  evictUnderPressure ids (set_dom (filter (selectedEntry ids) r) rel w)
  = set_dom (filter (selectedEntry ids) r) rel w.
Proof.
  unfold evictUnderPressure.
  destruct (MAX_DOM_NODES <? _); [|reflexivity].
  unfold itemDistances. unfold set_dom at 1 2 3 4 5 6; simpl.
  rewrite collectDistances_selected by apply filter_Forall.
  simpl. now rewrite firstn_nil.
Qed.

Lemma ids_has_In (ids : list Z) (z : Z) :
  ids_has ids (Some z) = true <-> In z ids.
Proof.
  simpl. rewrite existsb_exists. split.
  - intros [y [Hy E]]. apply Z.eqb_eq in E. now subst.
  - intros H. exists z. split; [assumption | apply Z.eqb_refl].
Qed.

Lemma addVisible_frame (visibleItems : list Item) (w : World) :
  addVisible visibleItems w
  = set_dom (addVisibleReg visibleItems (renderedItems w)) (released w) w.
Proof.
  rewrite <- (set_dom_self w) at 1.
  generalize (renderedItems w) as r.
  induction visibleItems as [|item rest IH]; intros r; [reflexivity|].
  unfold addVisible, addVisibleReg in *. cbn [fold_left].
  rewrite <- IH. f_equal.
  cbn [set_dom renderedItems]. now destruct (reg_has _ r).
Qed.

Lemma updateItemPositions_frame (r : Registry) (rel : list string)
    (w : World) :
  updateItemPositions (set_dom r rel w)
  = set_dom (map (reposition (ITEM_DATA (store w))) r) rel w.
Proof. reflexivity. Qed.

(** A [syncDOM] pass only touches the registry and the log, and leaves the
    registry as [syncDOMReg] says. *)
Lemma syncDOM_frame (w : World) :
  exists rel,
    syncDOM w
    = set_dom
        (syncDOMReg (ITEM_DATA (store w))
           (findVisibleItems (state w) (ITEM_DATA (store w)))
           (renderedItems w)) rel w.
Proof.
  unfold syncDOM.
  set (S := findVisibleItems (state w) (ITEM_DATA (store w))).
  destruct (removeStale_frame (map item_id S) w) as [rel ->].
  rewrite evict_after_removal, addVisible_frame.
  exists rel. reflexivity.
Qed.

Lemma reposition_key (items : list Item) (r : Registry) :
  map fst (map (reposition items) r) = map fst r.
Proof.
  rewrite map_map. apply map_ext. intros e. unfold reposition.
  now destruct (findItem items (JS.parseInt (fst e))).
Qed.

Lemma addVisibleReg_keys (visibleItems : list Item) (r : Registry)
    (key : string) :
  In key (map fst (addVisibleReg visibleItems r))
  <-> In key (map fst r)
      \/ In key (map (fun i => JS.toString (item_id i)) visibleItems).
Proof.
  revert r; induction visibleItems as [|item rest IH]; intros r.
  - simpl. tauto.
  - unfold addVisibleReg in *. cbn [fold_left map In]. rewrite IH.
    destruct (reg_has (JS.toString (item_id item)) r) eqn:E.
    + apply reg_has_In in E. split; [tauto|].
      intros [H|[H|H]]; try tauto. subst. tauto.
    + rewrite (reg_set_absent _ _ _ E), map_app, in_app_iff. simpl. tauto.
Qed.

Lemma addVisibleReg_NoDup (visibleItems : list Item) (r : Registry) :
  NoDup (map fst r) -> NoDup (map fst (addVisibleReg visibleItems r)).
Proof.
  revert r; induction visibleItems as [|item rest IH]; intros r Hnd;
    [exact Hnd|].
  unfold addVisibleReg in *. cbn [fold_left]. apply IH.
  destruct (reg_has (JS.toString (item_id item)) r) eqn:E; [exact Hnd|].
  rewrite (reg_set_absent _ _ _ E), map_app. simpl.
  apply NoDup_app; repeat split; auto.
  - constructor; [intros []|constructor].
  - intros k Hk [<-|[]]. apply reg_has_false in E. contradiction.
Qed.

Lemma filter_keys_NoDup (f : string * Element -> bool) (r : Registry) :
  NoDup (map fst r) -> NoDup (map fst (filter f r)).
Proof.
  induction r as [|e r IH]; simpl; [auto|].
  intros Hnd. inversion Hnd as [|? ? Hnotin Hrest]; subst.
  destruct (f e); simpl; [|now apply IH].
  constructor; [|now apply IH].
  intros Hin. apply Hnotin. apply in_map_iff in Hin.
  destruct Hin as [e' [Hfst He']]. apply filter_In in He'.
  rewrite <- Hfst. apply in_map. tauto.
Qed.

(** Every key left by a pass is the key of a selected item. *)
Lemma syncDOMReg_selected (items visibleItems : list Item) (r : Registry) :
  Forall (fun e => selectedEntry (map item_id visibleItems) e = true)
    (syncDOMReg items visibleItems r).
Proof.
  apply Forall_forall. intros e He.
  assert (Hk : In (fst e) (map fst (syncDOMReg items visibleItems r)))
    by now apply in_map.
  unfold syncDOMReg in Hk. rewrite reposition_key, addVisibleReg_keys in Hk.
  unfold selectedEntry. destruct Hk as [Hk|Hk].
  - apply in_map_iff in Hk. destruct Hk as [e' [Hfst He']].
    apply filter_In in He'. rewrite <- Hfst. apply He'.
  - apply in_map_iff in Hk. destruct Hk as [i [Hi Hin]].
    rewrite <- Hi, parseInt_toString. apply ids_has_In. now apply in_map.
Qed.

(** Every selected item has its key in the registry after a pass. *)
Lemma syncDOMReg_complete (items visibleItems : list Item) (r : Registry) :
  Forall (fun item =>
            reg_has (JS.toString (item_id item))
              (syncDOMReg items visibleItems r) = true) visibleItems.
Proof.
  apply Forall_forall. intros i Hi. apply reg_has_In.
  unfold syncDOMReg. rewrite reposition_key, addVisibleReg_keys. right.
  now apply (in_map (fun i => JS.toString (item_id i))).
Qed.

Lemma syncDOMReg_wf (items visibleItems : list Item) (r : Registry) :
  registryWf r -> registryWf (syncDOMReg items visibleItems r).
Proof.
  intros [Hnd Hcanon]. unfold registryWf, syncDOMReg.
  rewrite reposition_key. split.
  - now apply addVisibleReg_NoDup, filter_keys_NoDup.
  - apply Forall_forall. intros k Hk. apply addVisibleReg_keys in Hk.
    destruct Hk as [Hk|Hk].
    + rewrite Forall_forall in Hcanon. apply Hcanon.
      apply in_map_iff in Hk. destruct Hk as [e [Hfst He]].
      apply filter_In in He. rewrite <- Hfst. apply in_map. tauto.
    + apply in_map_iff in Hk. destruct Hk as [i [Hi _]]. eauto.
Qed.

(** With a well-formed registry a pass keeps at most one entry per
    selected item. *)
Lemma syncDOMReg_size (items visibleItems : list Item) (r : Registry) :
  registryWf r ->
  (length (syncDOMReg items visibleItems r) <= length visibleItems)%nat.
Proof.
  intros Hwf.
  destruct (syncDOMReg_wf items visibleItems r Hwf) as [Hnd Hcanon].
  pose proof (syncDOMReg_selected items visibleItems r) as Hsel.
  rewrite <- (length_map fst),
    <- (length_map (fun i => JS.toString (item_id i)) visibleItems).
  apply NoDup_incl_length; [exact Hnd|].
  intros k Hk. rewrite Forall_forall in Hcanon, Hsel.
  destruct (Hcanon k Hk) as [z ->].
  apply in_map_iff in Hk. destruct Hk as [e [Hfst He]].
  specialize (Hsel e He). unfold selectedEntry in Hsel.
  rewrite Hfst, parseInt_toString in Hsel. apply ids_has_In in Hsel.
  apply in_map_iff in Hsel. destruct Hsel as [i [Hi Hin]].
  apply in_map_iff. exists i. split; [now rewrite Hi | exact Hin].
Qed.

(** C9: after every [syncDOM] pass the ids in the registry are exactly the
    ids selected by [findVisibleItems] for that pass.  Right after the
    removal step every live entry is selected, so [itemDistances] is empty
    and the eviction block returns the page as it got it; after the whole
    pass every live entry is selected and every selected id is live. *)
Theorem syncDOM_registry_is_selection (w : World) :
  let visibleItems := findVisibleItems (state w) (ITEM_DATA (store w)) in
  let visibleItemIds := map item_id visibleItems in
  let w1 := removeStale visibleItemIds w in
  Forall (fun e => selectedEntry visibleItemIds e = true) (renderedItems w1)
  /\ itemDistances visibleItemIds w1 = []
  /\ evictUnderPressure visibleItemIds w1 = w1
  /\ Forall (fun e => selectedEntry visibleItemIds e = true)
       (renderedItems (syncDOM w))
  /\ Forall (fun z => reg_has (JS.toString z) (renderedItems (syncDOM w))
                      = true) visibleItemIds.
Proof.
  intros visibleItems visibleItemIds w1.
  destruct (removeStale_frame visibleItemIds w) as [rel Hw1].
  destruct (syncDOM_frame w) as [rel' Hsync].
  fold visibleItems in Hsync. subst w1. rewrite Hw1, Hsync.
  repeat split.
  - apply filter_Forall.
  - unfold itemDistances, set_dom; simpl.
    apply collectDistances_selected, filter_Forall.
  - apply evict_after_removal.
  - apply syncDOMReg_selected.
  - unfold visibleItemIds. rewrite Forall_map.
    apply syncDOMReg_complete.
Qed.

(** C3: after a [syncDOM] pass the registry holds at most [MAX_DOM_NODES]
    entries, unless the selection of that pass itself has more items than
    the cap; every selected item has a live element either way.  The
    registry is well formed before the pass, as it is in every reachable
    state, and well formed after it. *)
Theorem live_count_within_cap (w : World) :
  registryWf (renderedItems w) ->
  let visibleItems := findVisibleItems (state w) (ITEM_DATA (store w)) in
  let w' := syncDOM w in
  (reg_size (renderedItems w') <= MAX_DOM_NODES
   \/ MAX_DOM_NODES < Z.of_nat (length visibleItems))
  /\ Forall (fun item =>
               reg_has (JS.toString (item_id item)) (renderedItems w')
               = true) visibleItems
  /\ registryWf (renderedItems w').
Proof.
  intros Hwf visibleItems w'. subst w'.
  destruct (syncDOM_frame w) as [rel ->]. fold visibleItems.
  cbn [set_dom renderedItems].
  pose proof (syncDOMReg_size (ITEM_DATA (store w)) visibleItems _ Hwf).
  split; [|split].
  - unfold reg_size. lia.
  - apply syncDOMReg_complete.
  - now apply syncDOMReg_wf.
Qed.

Lemma reg_has_delete (key key' : string) (r : Registry) :
  reg_has key (reg_delete key' r)
  = negb (String.eqb key key') && reg_has key r.
Proof.
  unfold reg_has, reg_delete.
  induction r as [|e r IH]; simpl; [now rewrite andb_false_r|].
  destruct (String.eqb (fst e) key') eqn:E1; simpl.
  - rewrite IH. apply String.eqb_eq in E1. subst key'.
    destruct (String.eqb (fst e) key) eqn:E2; simpl; [|reflexivity].
    apply String.eqb_eq in E2. subst key.
    now rewrite String.eqb_refl.
  - rewrite IH.
    destruct (String.eqb (fst e) key) eqn:E2; simpl; [|reflexivity].
    apply String.eqb_eq in E2. subst key. now rewrite E1.
Qed.

Lemma release_live (w : World) (key : string) :
  reg_has key (renderedItems w) = true ->
  release w key
  = set_dom (reg_delete key (renderedItems w)) (released w ++ [key]) w.
Proof.
  intros H. unfold release.
  destruct (reg_get key (renderedItems w)) eqn:E; [reflexivity|].
  apply reg_get_has in E. congruence.
Qed.

Lemma collectDistances_NoDup (items : list Item) (ids : list Z)
    (cx cy : float) (r : Registry) :
  NoDup (map fst r) ->
  NoDup (map fst (collectDistances items ids cx cy r)).
Proof.
  induction r as [|[k el] r IH]; [constructor|].
  cbn [collectDistances map fst]. intros Hnd.
  inversion Hnd as [|? ? Hnotin Hrest]; subst.
  specialize (IH Hrest).
  destruct (findItem items (JS.parseInt k)); [|exact IH].
  destruct (negb _); [|exact IH].
  cbn [map fst]. constructor; [|exact IH].
  intros Hin. apply Hnotin. apply in_map_iff in Hin.
  destruct Hin as [p [Hfst Hp]].
  pose proof (collectDistances_keys items ids cx cy r) as Hall.
  rewrite Forall_forall in Hall. destruct (Hall p Hp) as [Hk _].
  now rewrite <- Hfst.
Qed.

(** C2: when the eviction step runs on a registry two entries over the cap
    whose non-selected items are at the distances 50, 10 and 30 from the
    centre of the buffered bounds, it releases the items at 50 and at 30,
    in that order, and keeps the one at 10.  And on any page [w0] the step
    leaves every entry of a selected item in place. *)
Theorem eviction_takes_farthest
    (w : World) (visibleItemIds : list Z) (k50 k10 k30 : string)
    (w0 : World) (ids0 : list Z) :
  NoDup (map fst (renderedItems w)) ->
  reg_size (renderedItems w) = MAX_DOM_NODES + 2 ->
  itemDistances visibleItemIds w
  = [(k50, 50%float); (k10, 10%float); (k30, 30%float)] ->
  let w' := evictUnderPressure visibleItemIds w in
  renderedItems w'
  = filter (fun e => negb (keyIn [k50; k30] e)) (renderedItems w)
  /\ released w' = released w ++ [k50; k30]
  /\ reg_has k50 (renderedItems w') = false
  /\ reg_has k30 (renderedItems w') = false
  /\ reg_has k10 (renderedItems w') = true
  /\ filter (selectedEntry ids0)
       (renderedItems (evictUnderPressure ids0 w0))
     = filter (selectedEntry ids0) (renderedItems w0).
Proof.
  intros Hnd Hsize Hdist w'.
  assert (Hkeys : Forall (fun k => reg_has k (renderedItems w) = true)
                    [k50; k10; k30]
                  /\ NoDup [k50; k10; k30]).
  { unfold itemDistances in Hdist. split.
    - match type of Hdist with collectDistances ?a ?b ?cx ?cy ?r = _ =>
        pose proof (collectDistances_keys a b cx cy r) as Hall end.
      rewrite Hdist in Hall.
      change [k50; k10; k30]
        with (map fst [(k50, 50%float); (k10, 10%float); (k30, 30%float)]).
      rewrite Forall_map. eapply Forall_impl; [|exact Hall].
      intros p [Hp _]. now apply reg_has_In.
    - match type of Hdist with collectDistances ?a ?b ?cx ?cy ?r = _ =>
        pose proof (collectDistances_NoDup a b cx cy r Hnd) as Hn end.
      now rewrite Hdist in Hn. }
  destruct Hkeys as [Hlive Hdistinct].
  inversion Hlive as [|? ? H50 Hlive']; subst.
  inversion Hlive' as [|? ? H10 Hlive'']; subst.
  inversion Hlive'' as [|? ? H30 _]; subst.
  assert (N1 : String.eqb k50 k30 = false /\ String.eqb k30 k50 = false
               /\ String.eqb k10 k50 = false /\ String.eqb k10 k30 = false).
  { inversion Hdistinct as [|? ? Ha Hrest]; subst.
    inversion Hrest as [|? ? Hb _]; subst. simpl in Ha, Hb.
    repeat split; apply String.eqb_neq; intros E; subst; tauto. }
  destruct N1 as [E53 [E35 [E15 E13]]].
  assert (Hw' : w' = set_dom (reg_delete k30 (reg_delete k50 (renderedItems w)))
                       ((released w ++ [k50]) ++ [k30]) w).
  { subst w'. unfold evictUnderPressure. rewrite Hsize, Hdist.
    change (MAX_DOM_NODES <? MAX_DOM_NODES + 2) with true.
    change (Z.to_nat (MAX_DOM_NODES + 2 - MAX_DOM_NODES)) with 2%nat.
    change (sortByDistance
              [(k50, 50%float); (k10, 10%float); (k30, 30%float)])
      with [(k50, 50%float); (k30, 30%float); (k10, 10%float)].
    cbn [map fst firstn fold_left].
    rewrite (release_live w k50 H50).
    rewrite release_live.
    - reflexivity.
    - cbn [set_dom renderedItems]. now rewrite reg_has_delete, E35, H30. }
  rewrite Hw'. cbn [set_dom renderedItems released].
  split; [|split; [|split; [|split; [|split]]]].
  - unfold reg_delete. rewrite filter_filter. apply filter_ext.
    intros e. unfold keyIn. simpl. now rewrite orb_false_r, negb_orb.
  - now rewrite <- app_assoc.
  - now rewrite !reg_has_delete, String.eqb_refl, andb_false_r.
  - now rewrite !reg_has_delete, String.eqb_refl.
  - now rewrite !reg_has_delete, E13, E15, H10.
  - apply evict_keeps_selected.
Qed.

End RegistryFacts.

(* ================================================================== *)
(** * Properties of the boundary loader and of the session *)

Section BoundaryLoader.

(** The chain of [checkBoundariesAndLoad] takes the first direction whose
    own test holds. *)
Lemma nearBoundary_first (w : World) :
  nearBoundary w = firstWithinThreshold w.
Proof. reflexivity. Qed.

Lemma check_guarded (w : World) :
  isLoadingMore w = true -> checkBoundariesAndLoad w = w.
Proof. intros H. unfold checkBoundariesAndLoad. now rewrite H. Qed.

Lemma scheduleRender_frame (w : World) :
  state (scheduleRender w) = state w
  /\ renderedItems (scheduleRender w) = renderedItems w
  /\ isLoadingMore (scheduleRender w) = isLoadingMore w
  /\ store (scheduleRender w) = store w
  /\ addMoreInstalled (scheduleRender w) = addMoreInstalled w
  /\ appendCalls (scheduleRender w) = appendCalls w
  /\ scheduleCalls (scheduleRender w) = S (scheduleCalls w).
Proof.
  unfold scheduleRender. destruct (renderAnimationFrame w); now repeat split.
Qed.

(** The boundary check leaves the registry alone. *)
Lemma check_registry (w : World) :
  renderedItems (checkBoundariesAndLoad w) = renderedItems w.
Proof.
  unfold checkBoundariesAndLoad, loadMore.
  destruct (isLoadingMore w); [reflexivity|].
  destruct (ITEM_DATA (store w)); [reflexivity|].
  destruct (nearBoundary w) as [d|]; [|reflexivity].
  destruct (addMoreInstalled w); [|reflexivity].
  destruct (addMoreItems 2000 d (store w)); [|reflexivity].
  unfold finishLoad.
  now rewrite (proj1 (proj2 (scheduleRender_frame _))).
Qed.

Lemma render_registry (w : World) :
  renderedItems (render w)
  = syncDOMReg (ITEM_DATA (store w))
      (findVisibleItems (state w) (ITEM_DATA (store w))) (renderedItems w).
Proof.
  unfold render. destruct (syncDOM_frame w) as [rel ->].
  destruct (checkRaises _);
    cbn [set_renderAnimationFrame renderedItems]; now rewrite check_registry.
Qed.

(** What a check that finds the guard clear, the store non-empty and the
    handler installed does. *)
Lemma check_loads (w : World) :
  isLoadingMore w = false -> ITEM_DATA (store w) <> [] ->
  addMoreInstalled w = true ->
  checkBoundariesAndLoad w
  = match nearBoundary w with
    | Some d =>
        match addMoreItems 2000 d (store w) with
        | Some _ => finishLoad (beginLoad d w)
        | None => beginLoad d w
        end
    | None => w
    end.
Proof.
  intros Hg Hne Hi. unfold checkBoundariesAndLoad, loadMore.
  rewrite Hg, Hi. destruct (ITEM_DATA (store w)); [congruence|reflexivity].
Qed.

Lemma checkRaises_loads (w : World) :
  isLoadingMore w = false -> ITEM_DATA (store w) <> [] ->
  addMoreInstalled w = true ->
  checkRaises w
  = match nearBoundary w with
    | Some d =>
        match addMoreItems 2000 d (store w) with
        | Some _ => false
        | None => true
        end
    | None => false
    end.
Proof.
  intros Hg Hne Hi. unfold checkRaises.
  rewrite Hg, Hi. destruct (ITEM_DATA (store w)); [congruence|reflexivity].
Qed.

Lemma checkRaises_guarded (w : World) :
  isLoadingMore w = true -> checkRaises w = false.
Proof. intros H. unfold checkRaises. now rewrite H. Qed.

(** The boundary check does not look at the registry or at the log. *)
Lemma checkRaises_set_dom (r : Registry) (rel : list string) (w : World) :
  checkRaises (set_dom r rel w) = checkRaises w.
Proof. reflexivity. Qed.

Lemma callAppend_effect (count : Z) (d : Direction) (w : World)
    (s' : Store) (newItems : list Item) :
  addMoreItems count d (store w) = Some (s', newItems) ->
  callAppend count d w
  = mkWorld (state w) (renderedItems w) (renderAnimationFrame w)
      (isLoadingMore w) s' (addMoreInstalled w)
      (appendCalls w ++ [(count, d)]) (released w)
      (scheduleCalls w) (frameRequests w) (pendingFrames w).
Proof. intros H. unfold callAppend. now rewrite H. Qed.

Lemma callAppend_raised (count : Z) (d : Direction) (w : World) :
  addMoreItems count d (store w) = None ->
  callAppend count d w
  = mkWorld (state w) (renderedItems w) (renderAnimationFrame w)
      (isLoadingMore w) (store w) (addMoreInstalled w)
      (appendCalls w ++ [(count, d)]) (released w)
      (scheduleCalls w) (frameRequests w) (pendingFrames w).
Proof. intros H. unfold callAppend. now rewrite H. Qed.

(** The page a load that raised leaves behind: the guard is up, the call is
    in the log, and nothing else has changed. *)
Lemma raise_shape (d : Direction) (w : World) :
  addMoreItems 2000 d (store w) = None ->
  beginLoad d w
  = mkWorld (state w) (renderedItems w) (renderAnimationFrame w) true
      (store w) (addMoreInstalled w) (appendCalls w ++ [(2000, d)])
      (released w) (scheduleCalls w) (frameRequests w) (pendingFrames w).
Proof.
  intros H. unfold beginLoad.
  now rewrite (callAppend_raised 2000 d (set_isLoadingMore true w) H).
Qed.

(** What one completed load does to the page. *)
Lemma load_effect (d : Direction) (w : World) (s' : Store)
    (newItems : list Item) :
  addMoreItems 2000 d (store w) = Some (s', newItems) ->
  appendCalls (finishLoad (beginLoad d w)) = appendCalls w ++ [(2000, d)]
  /\ store (finishLoad (beginLoad d w)) = s'
  /\ state (finishLoad (beginLoad d w))
     = set_canvas (calculateCanvasDimensions s') (state w)
  /\ isLoadingMore (finishLoad (beginLoad d w)) = false
  /\ scheduleCalls (finishLoad (beginLoad d w)) = S (scheduleCalls w).
Proof.
  intros H. unfold finishLoad, beginLoad.
  rewrite (callAppend_effect 2000 d (set_isLoadingMore true w) s' newItems H).
  unfold scheduleRender.
  cbn [state renderedItems renderAnimationFrame isLoadingMore store
       addMoreInstalled appendCalls released scheduleCalls frameRequests
       pendingFrames updateCanvasSize set_isLoadingMore set_state].
  now destruct (renderAnimationFrame w).
Qed.

(** A load does not look at the registry or at the log. *)
Lemma set_dom_load (d : Direction) (r : Registry) (rel : list string)
    (w : World) :
  finishLoad (beginLoad d (set_dom r rel w))
  = set_dom r rel (finishLoad (beginLoad d w)).
Proof.
  unfold finishLoad, beginLoad, callAppend, scheduleRender.
  cbn [state renderedItems renderAnimationFrame isLoadingMore store
       addMoreInstalled appendCalls released scheduleCalls frameRequests
       pendingFrames updateCanvasSize set_isLoadingMore set_state set_dom].
  now destruct (renderAnimationFrame w).
Qed.

Lemma set_dom_begin (d : Direction) (r : Registry) (rel : list string)
    (w : World) :
  beginLoad d (set_dom r rel w) = set_dom r rel (beginLoad d w).
Proof. reflexivity. Qed.

Lemma outer_fields (h : option Z) (r : Registry) (rel : list string)
    (w : World) :
  appendCalls (set_renderAnimationFrame h (set_dom r rel w)) = appendCalls w
  /\ store (set_renderAnimationFrame h (set_dom r rel w)) = store w
  /\ state (set_renderAnimationFrame h (set_dom r rel w)) = state w
  /\ isLoadingMore (set_renderAnimationFrame h (set_dom r rel w))
     = isLoadingMore w
  /\ scheduleCalls (set_renderAnimationFrame h (set_dom r rel w))
     = scheduleCalls w.
Proof. now repeat split. Qed.

(** The page after a completed load, written out. *)
Lemma load_shape (d : Direction) (w : World) (s' : Store)
    (newItems : list Item) :
  addMoreItems 2000 d (store w) = Some (s', newItems) ->
  finishLoad (beginLoad d w)
  = scheduleRender
      (mkWorld (set_canvas (calculateCanvasDimensions s') (state w))
         (renderedItems w) (renderAnimationFrame w) false s'
         (addMoreInstalled w) (appendCalls w ++ [(2000, d)]) (released w)
         (scheduleCalls w) (frameRequests w) (pendingFrames w)).
Proof.
  intros H. unfold finishLoad, beginLoad.
  now rewrite (callAppend_effect 2000 d (set_isLoadingMore true w) s'
                 newItems H).
Qed.

(** The four things a boundary check can do: nothing, raise the guard for
    want of a handler, load, or end in the exception of the handler. *)
Lemma check_cases (w : World) :
  checkBoundariesAndLoad w = w
  \/ checkBoundariesAndLoad w = set_isLoadingMore true w
  \/ (exists d s' newItems,
        addMoreItems 2000 d (store w) = Some (s', newItems)
        /\ checkBoundariesAndLoad w = finishLoad (beginLoad d w))
  \/ (exists d,
        addMoreItems 2000 d (store w) = None
        /\ checkBoundariesAndLoad w = beginLoad d w).
Proof.
  unfold checkBoundariesAndLoad, loadMore.
  destruct (isLoadingMore w); [now left|].
  destruct (ITEM_DATA (store w)) as [|a l] eqn:Hd; [now left|].
  destruct (nearBoundary w) as [d|]; [|now left].
  destruct (addMoreInstalled w); [|right; now left].
  destruct (addMoreItems 2000 d (store w)) as [[s' new]|] eqn:E.
  - right; right; left. exists d, s', new. now split.
  - right; right; right. exists d. now split.
Qed.

(** [render] is the boundary check on the reconciled page, up to the frame
    handle. *)
Lemma render_cases (w : World) :
  render w = checkBoundariesAndLoad (syncDOM w)
  \/ render w
     = set_renderAnimationFrame None (checkBoundariesAndLoad (syncDOM w)).
Proof. unfold render. destruct (checkRaises (syncDOM w)); auto. Qed.

(** C1 (as the code has it): when a reconciliation pass completes with the
    guard clear, the store non-empty and the append handler installed, the
    boundary check invokes the append at most once, for the first
    direction in the order right, bottom, left, top whose threshold test
    holds.  When the append returns, the store is the one it returned, the
    canvas size is recomputed from it, the guard is clear again,
    [scheduleRender] has been called once and [render] clears the frame
    handle.  When the append raises, the exception ends the pass: the store
    and the canvas size are as they were, the guard stays raised,
    [scheduleRender] is not called and the frame handle is not cleared.
    With no direction within threshold nothing is appended. *)
Theorem render_appends_first_direction (w : World) :
  isLoadingMore w = false -> ITEM_DATA (store w) <> [] ->
  addMoreInstalled w = true ->
  let w' := render w in
  match firstWithinThreshold (syncDOM w) with
  | Some d =>
      appendCalls w' = appendCalls w ++ [(2000, d)]
      /\ match addMoreItems 2000 d (store w) with
         | Some (s', _) =>
             store w' = s'
             /\ (canvasWidth (state w'), canvasHeight (state w'))
                = calculateCanvasDimensions s'
             /\ isLoadingMore w' = false
             /\ scheduleCalls w' = S (scheduleCalls w)
             /\ renderAnimationFrame w' = None
         | None =>
             store w' = store w
             /\ state w' = state w
             /\ isLoadingMore w' = true
             /\ scheduleCalls w' = scheduleCalls w
             /\ renderAnimationFrame w' = renderAnimationFrame w
         end
  | None =>
      appendCalls w' = appendCalls w /\ store w' = store w
      /\ scheduleCalls w' = scheduleCalls w
  end.
Proof.
  intros Hg Hne Hi w'. subst w'. unfold render.
  destruct (syncDOM_frame w) as [rel ->].
  rewrite checkRaises_set_dom.
  rewrite checkRaises_loads by assumption.
  rewrite check_loads by assumption.
  match goal with |- context [firstWithinThreshold ?x] =>
    change (nearBoundary x) with (firstWithinThreshold w);
    change (firstWithinThreshold x) with (firstWithinThreshold w) end.
  change (nearBoundary w) with (firstWithinThreshold w).
  destruct (firstWithinThreshold w) as [d|].
  2:{ match goal with
      |- context [set_renderAnimationFrame None (set_dom ?r ?rel ?x)] =>
        destruct (outer_fields None r rel x) as [Ha [Hs [_ [_ Hc]]]] end.
      now rewrite Ha, Hs, Hc. }
  match goal with |- context [store (set_dom ?r ?rel w)] =>
    change (store (set_dom r rel w)) with (store w) end.
  destruct (addMoreItems 2000 d (store w)) as [[s' new]|] eqn:Happ.
  - rewrite set_dom_load.
    match goal with
    |- context [set_renderAnimationFrame None (set_dom ?r ?rel ?x)] =>
      destruct (outer_fields None r rel x) as [Ha [Hs [Hst [Hl Hc]]]] end.
    rewrite Ha, Hs, Hst, Hl, Hc.
    destruct (load_effect d w s' new Happ) as [Ha' [Hs' [Hst' [Hl' Hc']]]].
    rewrite Ha', Hs', Hst', Hl', Hc'.
    split; [reflexivity|]. split; [reflexivity|].
    split; [|now repeat split].
    unfold set_canvas. now destruct (calculateCanvasDimensions s').
  - rewrite set_dom_begin, (raise_shape d w Happ). now repeat split.
Qed.

(** C6: a boundary check that finds the guard raised changes nothing and
    appends nothing; so a second check fired while the first one's append
    is in flight is a no-op, and the two checks together invoke the append
    exactly once, whether the append then returns (and the first check runs
    to its end) or raises (and the first check ends there). *)
Theorem guarded_check_is_noop (w0 w : World) (d : Direction) :
  isLoadingMore w0 = true ->
  isLoadingMore w = false -> ITEM_DATA (store w) <> [] ->
  addMoreInstalled w = true -> nearBoundary w = Some d ->
  checkBoundariesAndLoad w0 = w0
  /\ let inFlight := beginLoad d w in
     isLoadingMore inFlight = true
     /\ appendCalls inFlight = appendCalls w ++ [(2000, d)]
     /\ checkBoundariesAndLoad inFlight = inFlight
     /\ checkBoundariesAndLoad w
        = match addMoreItems 2000 d (store w) with
          | Some _ => finishLoad inFlight
          | None => inFlight
          end
     /\ appendCalls (checkBoundariesAndLoad w) = appendCalls w ++ [(2000, d)]
     /\ appendCalls (finishLoad (checkBoundariesAndLoad inFlight))
        = appendCalls w ++ [(2000, d)].
Proof.
  intros Hg0 Hg Hne Hi Hd.
  split; [now apply check_guarded|].
  intros inFlight.
  assert (Hflag : isLoadingMore inFlight = true) by reflexivity.
  assert (Hnoop : checkBoundariesAndLoad inFlight = inFlight)
    by now apply check_guarded.
  assert (Hcalls : appendCalls inFlight = appendCalls w ++ [(2000, d)])
    by reflexivity.
  assert (Hfin : appendCalls (finishLoad inFlight)
                 = appendCalls w ++ [(2000, d)]).
  { unfold finishLoad.
    now rewrite (proj1 (proj2 (proj2 (proj2 (proj2 (proj2
                   (scheduleRender_frame _))))))). }
  split; [exact Hflag|].
  split; [exact Hcalls|].
  split; [exact Hnoop|].
  assert (Hcheck : checkBoundariesAndLoad w
                   = match addMoreItems 2000 d (store w) with
                     | Some _ => finishLoad inFlight
                     | None => inFlight
                     end).
  { rewrite check_loads by assumption. now rewrite Hd. }
  split; [exact Hcheck|]. split.
  - rewrite Hcheck. now destruct (addMoreItems 2000 d (store w)).
  - now rewrite Hnoop.
Qed.

Lemma render_stuck (w : World) :
  isLoadingMore w = true ->
  isLoadingMore (render w) = true /\ appendCalls (render w) = appendCalls w.
Proof.
  intros H. unfold render. destruct (syncDOM_frame w) as [rel ->].
  rewrite checkRaises_guarded by exact H.
  rewrite check_guarded by exact H. now split.
Qed.

Lemma check_after_schedule_stuck (w : World) :
  isLoadingMore w = true ->
  isLoadingMore (checkBoundariesAndLoad (scheduleRender w)) = true
  /\ appendCalls (checkBoundariesAndLoad (scheduleRender w)) = appendCalls w.
Proof.
  intros H.
  destruct (scheduleRender_frame w) as [_ [_ [Hl [_ [_ [Ha _]]]]]].
  rewrite check_guarded by congruence. split; congruence.
Qed.

(** Once the guard is raised no turn of the event loop lowers it or
    appends. *)
Lemma step_stuck (w : World) (e : Event) :
  isLoadingMore w = true ->
  isLoadingMore (step w e) = true /\ appendCalls (step w e) = appendCalls w.
Proof.
  intros H. destruct e; cbn [step].
  - unfold handleMouseDown. destruct (negb _); now split.
  - unfold handleMouseMove. destruct (negb _); [now split|].
    now apply (check_after_schedule_stuck (set_state _ w)).
  - unfold handleMouseUp. destruct (negb _); [now split|].
    match goal with |- context [scheduleRender ?x] =>
      destruct (scheduleRender_frame x) as [_ [_ [Hl [_ [_ [Ha _]]]]]] end.
    rewrite Hl, Ha. now split.
  - unfold handleWheel.
    now apply (check_after_schedule_stuck (set_state _ w)).
  - unfold handleResize.
    match goal with |- context [scheduleRender ?x] =>
      destruct (scheduleRender_frame x) as [_ [_ [Hl [_ [_ [Ha _]]]]]] end.
    rewrite Hl, Ha. now split.
  - unfold handleDoubleClick. destruct itemId as [z|]; [|now split].
    destruct (z =? 0); [now split|].
    destruct (findItem _ _); now split.
  - destruct (pendingFrames w); [now split|].
    match goal with |- context [render ?x] =>
      now apply (render_stuck x) end.
  - unfold initialize, loadFromCenter.
    match goal with |- context [render ?x] =>
      now apply (render_stuck x) end.
  - destruct data; [now split|].
    unfold initialize, loadFromCenter.
    match goal with |- context [render ?x] =>
      now apply (render_stuck x) end.
  - now split.
Qed.

Lemma run_stuck (events : list Event) (w : World) :
  isLoadingMore w = true ->
  isLoadingMore (run events w) = true
  /\ appendCalls (run events w) = appendCalls w.
Proof.
  revert w; induction events as [|e rest IH]; intros w H; [now split|].
  unfold run in *. cbn [fold_left].
  destruct (step_stuck w e H) as [H1 H2].
  destruct (IH _ H1) as [H3 H4]. split; congruence.
Qed.

(** C10: when a threshold is crossed while
    [window.addMoreItemsToMEGHTOSH] is not a function, the check raises the
    guard and leaves it raised; whatever happens afterwards (including the
    handler being installed later) the guard stays raised, every further
    check returns at once and no append is invoked. *)
Theorem missing_handler_blocks_loading
    (w : World) (d : Direction) (events : list Event) :
  isLoadingMore w = false -> ITEM_DATA (store w) <> [] ->
  nearBoundary w = Some d -> addMoreInstalled w = false ->
  let w1 := checkBoundariesAndLoad w in
  isLoadingMore w1 = true
  /\ appendCalls w1 = appendCalls w
  /\ isLoadingMore (run events w1) = true
  /\ appendCalls (run events w1) = appendCalls w
  /\ checkBoundariesAndLoad (run events w1) = run events w1.
Proof.
  intros Hg Hne Hd Hi w1.
  assert (Hw1 : w1 = set_isLoadingMore true w).
  { subst w1. unfold checkBoundariesAndLoad, loadMore.
    rewrite Hg, Hd, Hi. destruct (ITEM_DATA (store w)); [congruence|].
    reflexivity. }
  assert (Hflag : isLoadingMore w1 = true) by now rewrite Hw1.
  assert (Hcalls : appendCalls w1 = appendCalls w) by now rewrite Hw1.
  destruct (run_stuck events w1 Hflag) as [Hrun Hsame].
  repeat split; try assumption.
  - congruence.
  - now apply check_guarded.
Qed.

(** The registry is well formed in every state the page can reach. *)
Lemma step_registryWf (w : World) (e : Event) :
  registryWf (renderedItems w) -> registryWf (renderedItems (step w e)).
Proof.
  intros H. destruct e; cbn [step].
  - unfold handleMouseDown. now destruct (negb _).
  - unfold handleMouseMove. destruct (negb _); [assumption|].
    rewrite check_registry.
    now rewrite (proj1 (proj2 (scheduleRender_frame _))).
  - unfold handleMouseUp. destruct (negb _); [assumption|].
    now rewrite (proj1 (proj2 (scheduleRender_frame _))).
  - unfold handleWheel. rewrite check_registry.
    now rewrite (proj1 (proj2 (scheduleRender_frame _))).
  - unfold handleResize.
    now rewrite (proj1 (proj2 (scheduleRender_frame _))).
  - unfold handleDoubleClick. destruct itemId as [z|]; [|assumption].
    destruct (z =? 0); [assumption|]. now destruct (findItem _ _).
  - destruct (pendingFrames w); [assumption|].
    rewrite render_registry. now apply syncDOMReg_wf.
  - unfold initialize, loadFromCenter.
    rewrite render_registry. now apply syncDOMReg_wf.
  - destruct data; [assumption|]. unfold initialize, loadFromCenter.
    rewrite render_registry. now apply syncDOMReg_wf.
  - assumption.
Qed.

Lemma run_registryWf (events : list Event) :
  registryWf (renderedItems (run events initialWorld)).
Proof.
  assert (H : forall w, registryWf (renderedItems w) ->
                        registryWf (renderedItems (run events w))).
  { induction events as [|e rest IH]; intros w Hw; [exact Hw|].
    unfold run in *. cbn [fold_left]. now apply IH, step_registryWf. }
  apply H. split; constructor.
Qed.

End BoundaryLoader.

(* ================================================================== *)
(** * The specification's worked example *)

(** C8: with no pan, zoom 1, a viewport of 800 by 600, cells of 200 and a
    buffer of 3 cells, the buffered bounds are left -600, top -600, right
    1400 and bottom 1200; the item of grid cell (4, 0) lies at world (800, 0),
    overlaps these bounds and is selected from any store that holds it, the
    initial one included. *)
Theorem corner_bounds_and_selection (id : Z) (before after : list Item) :
  ITEM_SIZE = 200 /\ BUFFER_SIZE = 3
  /\ calculateViewportBounds cornerCamera = mkBounds (-600) (-600) 1400 1200
  /\ gridToWorld 4 0 = (800, 0)
  /\ itemIntersectsViewport (mkItem id 800 0 4 0)
       (calculateViewportBounds cornerCamera) = true
  /\ In (mkItem id 800 0 4 0)
       (findVisibleItems cornerCamera (before ++ mkItem id 800 0 4 0 :: after))
  /\ In (mkItem 5 800 0 4 0)
       (findVisibleItems cornerCamera (ITEM_DATA initialStore)).
Proof.
  assert (Hhit : forall i, itemIntersectsViewport (mkItem i 800 0 4 0)
                             (calculateViewportBounds cornerCamera) = true)
    by (intros i; vm_compute; reflexivity).
  split; [reflexivity|]. split; [reflexivity|].
  split; [vm_compute; reflexivity|]. split; [reflexivity|].
  split; [apply Hhit|]. split.
  - apply filter_In. split; [|apply Hhit].
    apply in_or_app. right. now left.
  - apply filter_In. split; [|apply Hhit].
    vm_compute. do 4 right. now left.
Qed.

Lemma NoDup_toString_keys (ids : list Z) :
  NoDup ids ->
  NoDup (map fst (map (fun z => (JS.toString z, mkElement z 0 0)) ids)).
Proof.
  intros H. rewrite map_map. cbn [fst].
  induction H as [|z l Hnotin _ IH]; simpl; constructor; [|exact IH].
  intros Hin. apply in_map_iff in Hin. destruct Hin as [y [Hy Hl]].
  assert (E : Some y = Some z)
    by (rewrite <- !parseInt_toString; now rewrite Hy).
  injection E as ->. contradiction.
Qed.

(* ================================================================== *)
(** * More on the item store: where the items go *)

Section ItemPlacement.

Lemma fold_min_In (l : list Z) (a : Z) : In (fold_left Z.min l a) (a :: l).
Proof.
  revert a; induction l as [|b l IH]; intros a; simpl; [now left|].
  destruct (IH (Z.min a b)) as [H|H]; [|right; now right].
  destruct (Z.min_spec a b) as [[_ E]|[_ E]]; rewrite E in *;
    [now left | right; now left].
Qed.

Lemma fold_min_le (l : list Z) (a : Z) :
  fold_left Z.min l a <= a /\ Forall (fun z => fold_left Z.min l a <= z) l.
Proof.
  revert a; induction l as [|b l IH]; intros a; simpl.
  - split; [lia | constructor].
  - destruct (IH (Z.min a b)) as [H1 H2]. split; [lia|].
    constructor; [lia | exact H2].
Qed.

Lemma Math_min_list_In (l : list Z) (m : Z) :
  JS.Math_min_list l = Some m -> In m l.
Proof.
  destruct l as [|a l]; simpl; [discriminate|].
  intros E. injection E as <-. apply fold_min_In.
Qed.

Lemma Math_min_list_le (l : list Z) (m : Z) :
  JS.Math_min_list l = Some m -> Forall (fun z => m <= z) l.
Proof.
  destruct l as [|a l]; simpl; [discriminate|].
  intros E. injection E as <-.
  destruct (fold_min_le l a) as [H1 H2]. now constructor.
Qed.

Lemma generateLoop_consistent (n : nat) (i baseId startIndex : Z) :
  Forall positionConsistent (generateLoop n i baseId startIndex).
Proof.
  revert i; induction n as [|n IH]; intros i; simpl; constructor;
    [now split | apply IH].
Qed.

Lemma positionLeft_consistent (idx newCols minX minY : Z) (items : list Item) :
  (exists c, minX = c * ITEM_SIZE) ->
  Forall positionConsistent (positionLeft idx newCols minX minY items).
Proof.
  intros [c ->]. revert idx; induction items as [|a l IH]; intros idx;
    simpl; constructor; [|apply IH].
  unfold positionConsistent; cbn [item_x item_y item_column item_row].
  split.
  - replace (c * ITEM_SIZE - (newCols - Z.rem idx newCols) * ITEM_SIZE)
      with ((c - (newCols - Z.rem idx newCols)) * ITEM_SIZE) by ring.
    now rewrite Z.div_mul by (unfold ITEM_SIZE; lia).
  - now rewrite Z.div_mul by (unfold ITEM_SIZE; lia).
Qed.

Lemma positionTop_consistent (idx newRows minY : Z) (items : list Item) :
  (exists r, minY = r * ITEM_SIZE) ->
  Forall positionConsistent (positionTop idx newRows minY items).
Proof.
  intros [r ->]. revert idx; induction items as [|a l IH]; intros idx;
    simpl; constructor; [|apply IH].
  unfold positionConsistent; cbn [item_x item_y item_column item_row].
  split; [reflexivity|].
  replace (r * ITEM_SIZE - (newRows - idx / GRID_COLUMNS) * ITEM_SIZE)
    with ((r - (newRows - idx / GRID_COLUMNS)) * ITEM_SIZE) by ring.
  now rewrite Z.div_mul by (unfold ITEM_SIZE; lia).
Qed.

Lemma min_x_on_grid (items : list Item) (m : Z) :
  Forall positionConsistent items ->
  JS.Math_min_list (map item_x items) = Some m -> exists c, m = c * ITEM_SIZE.
Proof.
  intros Hall Hm. apply Math_min_list_In, in_map_iff in Hm.
  destruct Hm as [i [<- Hi]]. rewrite Forall_forall in Hall.
  exists (item_column i). apply (Hall i Hi).
Qed.

Lemma min_y_on_grid (items : list Item) (m : Z) :
  Forall positionConsistent items ->
  JS.Math_min_list (map item_y items) = Some m -> exists r, m = r * ITEM_SIZE.
Proof.
  intros Hall Hm. apply Math_min_list_In, in_map_iff in Hm.
  destruct Hm as [i [<- Hi]]. rewrite Forall_forall in Hall.
  exists (item_row i). apply (Hall i Hi).
Qed.

(** One append, of any count and in any direction, keeps the positions on
    the grid. *)
Lemma addMoreItems_consistent (count : Z) (direction : Direction)
    (s s' : Store) (newItems : list Item) :
  Forall positionConsistent (ITEM_DATA s) ->
  addMoreItems count direction s = Some (s', newItems) ->
  Forall positionConsistent (ITEM_DATA s').
Proof.
  intros Hall. unfold addMoreItems.
  destruct (usingRealData s); [intros E; injection E as <- _; exact Hall|].
  destruct direction; unfold generateItemData.
  - intros E; injection E as <- _. cbn [ITEM_DATA].
    apply Forall_app. split; [exact Hall | apply generateLoop_consistent].
  - destruct (Math_min_spread (map item_x (ITEM_DATA s))) as [minX|] eqn:EX;
      [|discriminate].
    destruct (Math_min_spread (map item_y (ITEM_DATA s))) as [minY|] eqn:EY;
      [|discriminate].
    apply Math_min_spread_Some in EX. destruct EX as [EX _].
    intros E; injection E as <- _. cbn [ITEM_DATA].
    apply Forall_app. split; [|exact Hall].
    apply positionLeft_consistent. now apply (min_x_on_grid (ITEM_DATA s)).
  - destruct (Math_min_spread (map item_y (ITEM_DATA s))) as [minY|] eqn:EY;
      [|discriminate].
    apply Math_min_spread_Some in EY. destruct EY as [EY _].
    intros E; injection E as <- _. cbn [ITEM_DATA].
    apply Forall_app. split; [|exact Hall].
    apply positionTop_consistent. now apply (min_y_on_grid (ITEM_DATA s)).
  - intros E; injection E as <- _. cbn [ITEM_DATA].
    apply Forall_app. split; [exact Hall | apply generateLoop_consistent].
Qed.

Lemma addMoreItems_nonempty (count : Z) (direction : Direction)
    (s s' : Store) (newItems : list Item) :
  ITEM_DATA s <> [] ->
  addMoreItems count direction s = Some (s', newItems) ->
  ITEM_DATA s' <> [] /\ usingRealData s' = usingRealData s.
Proof.
  intros Hne Happ.
  destruct (usingRealData s) eqn:Hreal.
  - rewrite (addMoreItems_real_data count direction s Hreal) in Happ.
    injection Happ as <- _. now split.
  - destruct (addMoreItems_generated _ _ _ _ _ Hreal Happ) as [_ [->| ->]];
      cbn [ITEM_DATA usingRealData]; (split; [|reflexivity]);
      intros E; apply app_eq_nil in E; tauto.
Qed.

(** X1: throughout the life of the generated store every item lies on the
    grid: after any appends that have returned, of any count and in any
    direction, the store is not empty and every item of it has
    [x = column * ITEM_SIZE] and [y = row * ITEM_SIZE]. *)
Theorem store_positions_on_grid (calls : list (Z * Direction)) (s : Store) :
  appendAll calls initialStore = Some s ->
  ITEM_DATA s <> [] /\ Forall positionConsistent (ITEM_DATA s).
Proof.
  assert (H : forall s0, ITEM_DATA s0 <> [] ->
                Forall positionConsistent (ITEM_DATA s0) ->
                appendAll calls s0 = Some s ->
                ITEM_DATA s <> []
                /\ Forall positionConsistent (ITEM_DATA s)).
  { induction calls as [|[count direction] rest IH]; intros s0 Hne Hall;
      cbn [appendAll].
    - intros E; injection E as <-. now split.
    - destruct (addMoreItems count direction s0) as [[s1 new]|] eqn:E;
        [|discriminate].
      apply IH.
      + apply (addMoreItems_nonempty _ _ _ _ _ Hne E).
      + apply (addMoreItems_consistent _ _ _ _ _ Hall E). }
  apply H.
  - apply (inv_nonempty _ initialStore_inv).
  - apply generateLoop_consistent.
Qed.

Lemma generateLoop_app (a b : nat) (i baseId startIndex : Z) :
  generateLoop (a + b) i baseId startIndex
  = generateLoop a i baseId startIndex
    ++ generateLoop b (i + Z.of_nat a) baseId startIndex.
Proof.
  revert i; induction a as [|a IH]; intros i.
  - simpl. now rewrite Z.add_0_r.
  - cbn [Nat.add generateLoop app]. f_equal. rewrite IH. do 2 f_equal. lia.
Qed.

Lemma generateLoop_shift (n : nat) (i k baseId startIndex : Z) :
  generateLoop n (i + k) baseId startIndex
  = generateLoop n i (baseId + k) (startIndex + k).
Proof.
  revert i; induction n as [|n IH]; intros i; [reflexivity|].
  cbn [generateLoop].
  replace (startIndex + (i + k)) with (startIndex + k + i) by lia.
  replace (baseId + (i + k)) with (baseId + k + i) by lia.
  f_equal. replace (i + k + 1) with (i + 1 + k) by lia. apply IH.
Qed.

(** The [k]-th item of a generated run. *)
Lemma generateLoop_nth (n : nat) (i baseId startIndex : Z) (k : nat) :
  (k < n)%nat ->
  nth_error (generateLoop n i baseId startIndex) k
  = Some (let g := startIndex + i + Z.of_nat k in
          mkItem (baseId + i + Z.of_nat k)
            (Z.rem g GRID_COLUMNS * ITEM_SIZE) (g / GRID_COLUMNS * ITEM_SIZE)
            (Z.rem g GRID_COLUMNS) (g / GRID_COLUMNS)).
Proof.
  revert i k; induction n as [|n IH]; intros i k Hk; [lia|].
  destruct k as [|k]; cbn [generateLoop nth_error].
  - cbv zeta. now rewrite !Z.add_0_r.
  - rewrite IH by lia. cbv zeta.
    replace (startIndex + (i + 1) + Z.of_nat k)
      with (startIndex + i + Z.of_nat (S k)) by lia.
    replace (baseId + (i + 1) + Z.of_nat k)
      with (baseId + i + Z.of_nat (S k)) by lia.
    reflexivity.
Qed.

(** X2: in the store [generateItemData(n, topic, 1, 0)] builds, the item of
    id [k + 1] is the [k]-th of [ITEM_DATA] and fills the grid row by row:
    it sits in column [k mod 50] and row [k / 50], at the matching pixel
    position. *)
Theorem generated_item_cell (n k : Z) :
  0 <= k < n ->
  nth_error (ITEM_DATA (generatedStore n)) (Z.to_nat k)
  = Some (mkItem (k + 1)
            (k mod GRID_COLUMNS * ITEM_SIZE) (k / GRID_COLUMNS * ITEM_SIZE)
            (k mod GRID_COLUMNS) (k / GRID_COLUMNS)).
Proof.
  intros Hk. unfold generatedStore, generateItemData. cbn [fst ITEM_DATA].
  rewrite generateLoop_nth by lia. cbv zeta.
  rewrite Z2Nat.id by lia.
  replace (0 + 0 + k) with k by lia. replace (1 + 0 + k) with (k + 1) by lia.
  rewrite Z.rem_mod_nonneg by (unfold GRID_COLUMNS; lia).
  reflexivity.
Qed.

Lemma generatedStore_length (n : Z) :
  0 <= n -> Z.of_nat (length (ITEM_DATA (generatedStore n))) = n.
Proof.
  intros Hn. unfold generatedStore, generateItemData. cbn [fst ITEM_DATA].
  rewrite generateLoop_length. lia.
Qed.

(** Appending at the end of a generated store gives the longer generated
    store. *)
Lemma addMoreItems_generatedStore (n m : Z) (direction : Direction) :
  0 <= n -> 0 <= m -> towardsEnd direction = true ->
  option_map fst (addMoreItems m direction (generatedStore n))
  = Some (generatedStore (n + m)).
Proof.
  intros Hn Hm Hd.
  assert (E : addMoreItems m direction (generatedStore n)
              = let (newItems, c) :=
                  generateItemData m (Some (n + 1)) n n in
                Some (mkStore (ITEM_DATA (generatedStore n) ++ newItems) c
                        false, newItems)).
  { unfold addMoreItems. rewrite (generatedStore_length n Hn).
    cbn [usingRealData generatedStore globalItemIdCounter].
    destruct direction; try discriminate; reflexivity. }
  rewrite E. unfold generateItemData, generatedStore.
  cbn [option_map fst ITEM_DATA]. f_equal. f_equal; [|lia].
  unfold generateItemData. cbn [fst].
  rewrite Z2Nat.inj_add by lia. rewrite generateLoop_app.
  f_equal. rewrite Z2Nat.id by lia.
  rewrite (generateLoop_shift (Z.to_nat m) 0 n 1 0).
  now rewrite Z.add_comm.
Qed.

(** X3: appends at the right and at the bottom only ever extend the same
    row-by-row grid: after any such appends (counts not negative) the store
    is exactly the one [generateItemData] would have built in one go for the
    total number of items. *)
Theorem appends_at_end_extend_grid (calls : list (Z * Direction)) :
  Forall (fun call => 0 <= fst call /\ towardsEnd (snd call) = true) calls ->
  appendAll calls initialStore = Some (generatedStore (2000 + totalCount calls)).
Proof.
  change initialStore with (generatedStore 2000).
  assert (H : forall n, 0 <= n ->
                Forall (fun call => 0 <= fst call
                                    /\ towardsEnd (snd call) = true) calls ->
                appendAll calls (generatedStore n)
                = Some (generatedStore (n + totalCount calls))).
  { induction calls as [|[count direction] rest IH]; intros n Hn Hall.
    - simpl. now rewrite Z.add_0_r.
    - inversion Hall as [|? ? [Hc Hd] Hrest]; subst. simpl in Hc, Hd.
      cbn [appendAll totalCount fold_right fst].
      pose proof (addMoreItems_generatedStore n count direction Hn Hc Hd) as E.
      destruct (addMoreItems count direction (generatedStore n))
        as [[s1 new]|]; [|discriminate].
      injection E as ->. rewrite IH by (assumption || lia).
      f_equal. f_equal. unfold totalCount. lia. }
  intros Hall. apply H; [lia | exact Hall].
Qed.
Lemma positionLeft_length (idx newCols minX minY : Z) (items : list Item) :
  length (positionLeft idx newCols minX minY items) = length items.
Proof.
  revert idx; induction items as [|a l IH]; intros idx; simpl;
    [reflexivity | now rewrite IH].
Qed.

Lemma positionTop_length (idx newRows minY : Z) (items : list Item) :
  length (positionTop idx newRows minY items) = length items.
Proof.
  revert idx; induction items as [|a l IH]; intros idx; simpl;
    [reflexivity | now rewrite IH].
Qed.

Lemma positionLeft_left (idx newCols minX minY : Z) (items : list Item) :
  0 < newCols -> 0 <= idx ->
  Forall (fun item => item_x item + ITEM_SIZE <= minX)
    (positionLeft idx newCols minX minY items).
Proof.
  intros Hc. revert idx; induction items as [|a l IH]; intros idx Hidx;
    simpl; constructor; [|apply IH; lia].
  cbn [item_x]. pose proof (Z.rem_bound_pos idx newCols Hidx Hc).
  unfold ITEM_SIZE. nia.
Qed.

Lemma positionTop_above (count idx minY : Z) (items : list Item) :
  0 <= idx -> idx + Z.of_nat (length items) <= count ->
  Forall (fun item => item_y item + ITEM_SIZE <= minY)
    (positionTop idx (JS.ceil_div count GRID_COLUMNS) minY items).
Proof.
  revert idx; induction items as [|a l IH]; intros idx Hidx Hlen;
    simpl; constructor; [|apply IH; simpl in Hlen; lia].
  cbn [item_y]. simpl in Hlen.
  unfold JS.ceil_div, GRID_COLUMNS, ITEM_SIZE.
  pose proof (Z.div_mod idx 50 ltac:(lia)).
  pose proof (Z.mod_pos_bound idx 50 ltac:(lia)).
  pose proof (Z.div_mod (- count) 50 ltac:(lia)).
  pose proof (Z.mod_pos_bound (- count) 50 ltac:(lia)).
  lia.
Qed.

Lemma ceil_div_pos (a b : Z) : 0 < a -> 0 < b -> 0 < JS.ceil_div a b.
Proof.
  intros Ha Hb. unfold JS.ceil_div.
  assert (- a / b < 0) by (apply Z.div_lt_upper_bound; lia). lia.
Qed.

(** X4: a left append puts every new item strictly to the left of every old
    item, and a top append strictly above: the new cells end where the old
    minimum begins, so new and old items never share a cell.  Both appends
    return on a generated store that is not empty and holds no more items
    than the engine accepts as arguments, and add exactly [count] items. *)
Theorem append_left_top_clear_of_old (count : Z) (s : Store) :
  usingRealData s = false -> ITEM_DATA s <> [] -> spreadFits s ->
  0 <= count ->
  (exists s' newItems,
     addMoreItems count Left s = Some (s', newItems)
     /\ Z.of_nat (length newItems) = count
     /\ Forall (fun n => Forall (fun o => item_x n + ITEM_SIZE <= item_x o)
                           (ITEM_DATA s)) newItems)
  /\ (exists s' newItems,
        addMoreItems count Top s = Some (s', newItems)
        /\ Z.of_nat (length newItems) = count
        /\ Forall (fun n => Forall (fun o => item_y n + ITEM_SIZE <= item_y o)
                              (ITEM_DATA s)) newItems).
Proof.
  intros Hreal Hne Hfit Hcount.
  destruct (Math_min_list_nonempty item_x _ Hne) as [minX HX].
  destruct (Math_min_list_nonempty item_y _ Hne) as [minY HY].
  pose proof (Math_min_list_le _ _ HX) as HminX.
  pose proof (Math_min_list_le _ _ HY) as HminY.
  rewrite Forall_map in HminX, HminY.
  assert (Hrows : 0 < JS.ceil_div (Z.of_nat (length (ITEM_DATA s)))
                        GRID_COLUMNS).
  { apply ceil_div_pos; [|reflexivity].
    destruct (ITEM_DATA s); [congruence | simpl; lia]. }
  unfold addMoreItems, generateItemData.
  rewrite !Math_min_spread_fits by exact Hfit.
  rewrite Hreal, HX, HY.
  split; eexists; eexists; (split; [reflexivity|]); split.
  - rewrite positionLeft_length, generateLoop_length. lia.
  - destruct (Z.eq_dec count 0) as [->|Hnz]; [constructor|].
    eapply Forall_impl;
      [|apply positionLeft_left; [apply ceil_div_pos; lia | lia]].
    intros n Hn. eapply Forall_impl; [|exact HminX].
    intros o Ho. simpl in *. lia.
  - rewrite positionTop_length, generateLoop_length. lia.
  - eapply Forall_impl;
      [|apply positionTop_above; [lia | rewrite generateLoop_length; lia]].
    intros n Hn. eapply Forall_impl; [|exact HminY].
    intros o Ho. simpl in *. lia.
Qed.

Lemma calculateCanvasDimensions_nonempty (s : Store) :
  ITEM_DATA s <> [] ->
  calculateCanvasDimensions s
  = (GRID_COLUMNS * ITEM_SIZE,
     JS.ceil_div (Z.of_nat (length (ITEM_DATA s))) GRID_COLUMNS * ITEM_SIZE).
Proof.
  unfold calculateCanvasDimensions.
  destruct (ITEM_DATA s); [congruence | reflexivity].
Qed.

(** X5: the canvas only ever grows downwards.  An append of [k] full rows'
    worth of items ([50 * k]) to a generated store, once it has returned,
    has made the canvas exactly [k] rows taller and left its width at 50
    columns, whatever the direction of the append: items added on the left
    or on top do not move the canvas edges towards them. *)
Theorem append_grows_canvas_downwards (k : Z) (direction : Direction)
    (s s' : Store) (newItems : list Item) :
  usingRealData s = false -> ITEM_DATA s <> [] -> 0 <= k ->
  addMoreItems (GRID_COLUMNS * k) direction s = Some (s', newItems) ->
  calculateCanvasDimensions s'
  = (GRID_COLUMNS * ITEM_SIZE,
     snd (calculateCanvasDimensions s) + k * ITEM_SIZE).
Proof.
  intros Hreal Hne Hk Happ.
  assert (Hcount : 0 <= GRID_COLUMNS * k) by (unfold GRID_COLUMNS; lia).
  destruct (addMoreItems_length _ _ _ _ _ Hreal Hcount Happ) as [Hlen _].
  destruct (addMoreItems_nonempty _ _ _ _ _ Hne Happ) as [Hne' _].
  rewrite (calculateCanvasDimensions_nonempty s' Hne').
  rewrite (calculateCanvasDimensions_nonempty s Hne). cbn [snd].
  f_equal. rewrite Hlen. unfold JS.ceil_div.
  replace (- (Z.of_nat (length (ITEM_DATA s)) + GRID_COLUMNS * k))
    with (- Z.of_nat (length (ITEM_DATA s)) + (- k) * GRID_COLUMNS) by ring.
  rewrite Z.div_add by (unfold GRID_COLUMNS; lia). ring.
Qed.

Lemma NoDup_by_decode {A} (cell : Z -> A) (decode : A -> Z) (a : Z)
    (n : nat) :
  (forall g, a <= g -> decode (cell g) = g) ->
  NoDup (map cell (idsFrom a n)).
Proof.
  intros Hdec. apply (NoDup_map_inv decode). rewrite map_map.
  rewrite (map_ext_in _ (fun g => g)).
  - rewrite map_id. apply idsFrom_NoDup.
  - intros g Hg. apply idsFrom_In in Hg. apply Hdec. lia.
Qed.

Lemma gridCell_decode (g : Z) :
  0 <= g ->
  snd (gridCell g) / ITEM_SIZE * GRID_COLUMNS + fst (gridCell g) / ITEM_SIZE
  = g.
Proof.
  intros Hg. unfold gridCell. cbn [fst snd].
  rewrite !Z.div_mul by (unfold ITEM_SIZE; lia).
  rewrite Z.rem_mod_nonneg by (unfold GRID_COLUMNS; lia).
  pose proof (Z.div_mod g GRID_COLUMNS ltac:(unfold GRID_COLUMNS; lia)).
  lia.
Qed.

Lemma gridCell_nonneg (g : Z) :
  0 <= g -> 0 <= fst (gridCell g) /\ 0 <= snd (gridCell g).
Proof.
  intros Hg. unfold gridCell, GRID_COLUMNS, ITEM_SIZE. cbn [fst snd].
  rewrite Z.rem_mod_nonneg by lia.
  pose proof (Z.mod_pos_bound g 50 ltac:(lia)).
  pose proof (Z.div_pos g 50 Hg ltac:(lia)). lia.
Qed.

Lemma leftCell_decode (newCols minX minY idx : Z) :
  0 < newCols -> 0 <= idx ->
  (snd (leftCell newCols minX minY idx) / ITEM_SIZE - minY / ITEM_SIZE)
  * newCols
  + (newCols - (minX - fst (leftCell newCols minX minY idx)) / ITEM_SIZE)
  = idx.
Proof.
  intros Hc Hidx. unfold leftCell. cbn [fst snd].
  rewrite Z.div_mul by (unfold ITEM_SIZE; lia).
  replace (minX - (minX - (newCols - Z.rem idx newCols) * ITEM_SIZE))
    with ((newCols - Z.rem idx newCols) * ITEM_SIZE) by ring.
  rewrite Z.div_mul by (unfold ITEM_SIZE; lia).
  rewrite Z.rem_mod_nonneg by lia.
  pose proof (Z.div_mod idx newCols ltac:(lia)). lia.
Qed.

Lemma topCell_decode (newRows minY idx : Z) :
  0 <= idx ->
  (newRows - (minY - snd (topCell newRows minY idx)) / ITEM_SIZE)
  * GRID_COLUMNS
  + fst (topCell newRows minY idx) / ITEM_SIZE
  = idx.
Proof.
  intros Hidx. unfold topCell. cbn [fst snd].
  replace (minY - (minY - (newRows - idx / GRID_COLUMNS) * ITEM_SIZE))
    with ((newRows - idx / GRID_COLUMNS) * ITEM_SIZE) by ring.
  rewrite !Z.div_mul by (unfold ITEM_SIZE; lia).
  rewrite Z.rem_mod_nonneg by (unfold GRID_COLUMNS; lia).
  pose proof (Z.div_mod idx GRID_COLUMNS ltac:(unfold GRID_COLUMNS; lia)).
  lia.
Qed.

Lemma generateLoop_cells (n : nat) (i baseId startIndex : Z) :
  map cellOf (generateLoop n i baseId startIndex)
  = map gridCell (idsFrom (startIndex + i) n).
Proof.
  revert i; induction n as [|n IH]; intros i; [reflexivity|].
  cbn [generateLoop idsFrom map]. f_equal.
  rewrite IH. now rewrite Z.add_assoc.
Qed.

Lemma positionLeft_cells (idx newCols minX minY : Z) (items : list Item) :
  map cellOf (positionLeft idx newCols minX minY items)
  = map (leftCell newCols minX minY) (idsFrom idx (length items)).
Proof.
  revert idx; induction items as [|a l IH]; intros idx; [reflexivity|].
  cbn [positionLeft idsFrom map length]. f_equal. apply IH.
Qed.

Lemma positionTop_cells (idx newRows minY : Z) (items : list Item) :
  map cellOf (positionTop idx newRows minY items)
  = map (topCell newRows minY) (idsFrom idx (length items)).
Proof.
  revert idx; induction items as [|a l IH]; intros idx; [reflexivity|].
  cbn [positionTop idsFrom map length]. f_equal. apply IH.
Qed.

Lemma tiled_where_grows (len len' : Z) (items : list Item) :
  len <= len' ->
  Forall (fun item => item_x item < 0 \/ item_y item < 0
                      \/ exists g, 0 <= g < len /\ cellOf item = gridCell g)
    items ->
  Forall (fun item => item_x item < 0 \/ item_y item < 0
                      \/ exists g, 0 <= g < len' /\ cellOf item = gridCell g)
    items.
Proof.
  intros Hle. apply Forall_impl. intros item [H|[H|[g [Hg Hc]]]];
    [now left | right; now left | right; right].
  exists g. split; [lia | exact Hc].
Qed.

(** An append at the end keeps the placement invariant. *)
Lemma append_end_tiled (count baseId : Z) (s : Store) :
  storeTiled s ->
  let new := generateLoop (Z.to_nat count) 0 baseId
               (Z.of_nat (length (ITEM_DATA s))) in
  forall c, storeTiled (mkStore (ITEM_DATA s ++ new) c false).
Proof.
  intros [Hgen Horigin Hnd Hwhere] new c.
  set (len := Z.of_nat (length (ITEM_DATA s))) in *.
  assert (Hcells : map cellOf new
                   = map gridCell (idsFrom len (Z.to_nat count))).
  { unfold new. rewrite generateLoop_cells. now rewrite Z.add_0_r. }
  constructor; cbn [ITEM_DATA usingRealData]; [reflexivity| | |].
  - rewrite map_app. apply in_or_app. now left.
  - rewrite map_app. apply NoDup_app; [exact Hnd| |].
    + rewrite Hcells.
      apply (NoDup_by_decode gridCell
               (fun p => snd p / ITEM_SIZE * GRID_COLUMNS
                         + fst p / ITEM_SIZE)).
      intros g Hg. apply gridCell_decode. unfold len in *. lia.
    + intros p Hold Hnew. rewrite Hcells in Hnew.
      apply in_map_iff in Hnew. destruct Hnew as [g [<- Hg]].
      apply idsFrom_In in Hg.
      apply in_map_iff in Hold. destruct Hold as [item [Hp Hitem]].
      rewrite Forall_forall in Hwhere.
      assert (Hg0 : 0 <= g) by (unfold len in *; lia).
      destruct (gridCell_nonneg g Hg0) as [Hx Hy].
      unfold cellOf in Hp.
      destruct (Hwhere item Hitem) as [H|[H|[g' [Hg' Hc]]]].
      * rewrite <- Hp in Hx. cbn [fst] in Hx. lia.
      * rewrite <- Hp in Hy. cbn [snd] in Hy. lia.
      * unfold cellOf in Hc. rewrite Hp in Hc.
        pose proof (gridCell_decode g Hg0) as D1.
        pose proof (gridCell_decode g' ltac:(lia)) as D2.
        rewrite Hc in D1. fold len in Hg'. lia.
  - apply Forall_app. split.
    + eapply tiled_where_grows; [|exact Hwhere].
      rewrite length_app. lia.
    + apply Forall_forall. intros item Hitem. right; right.
      apply (in_map cellOf) in Hitem. rewrite Hcells in Hitem.
      apply in_map_iff in Hitem. destruct Hitem as [g [Hg Hin]].
      apply idsFrom_In in Hin. exists g. split; [|now symmetry].
      rewrite length_app. unfold new. rewrite generateLoop_length.
      fold len. unfold len in *. lia.
Qed.

(** New items that all lie left of the origin, or all above it, at distinct
    cells none of which is taken, keep the placement invariant. *)
Lemma append_front_tiled (new : list Item) (c : Z) (s : Store) :
  storeTiled s ->
  NoDup (map cellOf new) ->
  Forall (fun n => (item_x n < 0 \/ item_y n < 0)
                   /\ ~ In (cellOf n) (map cellOf (ITEM_DATA s))) new ->
  storeTiled (mkStore (new ++ ITEM_DATA s) c false).
Proof.
  intros [Hgen Horigin Hnd Hwhere] Hnew Hclear.
  constructor; cbn [ITEM_DATA usingRealData]; [reflexivity| | |].
  - rewrite map_app. apply in_or_app. now right.
  - rewrite map_app. apply NoDup_app; [exact Hnew | exact Hnd|].
    intros p Hp Hold. apply in_map_iff in Hp. destruct Hp as [n [<- Hn]].
    rewrite Forall_forall in Hclear. now destruct (Hclear n Hn).
  - apply Forall_app. split.
    + eapply Forall_impl; [|exact Hclear].
      intros n [[H|H] _]; [now left | right; now left].
    + eapply tiled_where_grows; [|exact Hwhere]. rewrite length_app. lia.
Qed.

Lemma origin_bounds_min (s : Store) (minX minY : Z) :
  In (0, 0) (map cellOf (ITEM_DATA s)) ->
  JS.Math_min_list (map item_x (ITEM_DATA s)) = Some minX ->
  JS.Math_min_list (map item_y (ITEM_DATA s)) = Some minY ->
  minX <= 0 /\ minY <= 0.
Proof.
  intros Ho HX HY. apply in_map_iff in Ho. destruct Ho as [it [Hc Hit]].
  unfold cellOf in Hc. injection Hc as Hx Hy.
  pose proof (Math_min_list_le _ _ HX) as LX.
  pose proof (Math_min_list_le _ _ HY) as LY.
  rewrite Forall_map, Forall_forall in LX, LY.
  specialize (LX it Hit). specialize (LY it Hit). cbn beta in LX, LY. lia.
Qed.

(** One append, of any count and in any direction, keeps the placement
    invariant. *)
Lemma addMoreItems_tiled (count : Z) (direction : Direction)
    (s s' : Store) (newItems : list Item) :
  storeTiled s ->
  addMoreItems count direction s = Some (s', newItems) ->
  storeTiled s'.
Proof.
  intros Ht. pose proof Ht as [Hgen Horigin Hnd Hwhere].
  assert (Hne : ITEM_DATA s <> []).
  { intros E. rewrite E in Horigin. contradiction. }
  destruct (Math_min_list_nonempty item_x _ Hne) as [minX HX].
  destruct (Math_min_list_nonempty item_y _ Hne) as [minY HY].
  destruct (origin_bounds_min s minX minY Horigin HX HY) as [HX0 HY0].
  pose proof (Math_min_list_le _ _ HX) as LX.
  pose proof (Math_min_list_le _ _ HY) as LY.
  rewrite Forall_map in LX, LY.
  assert (Hrows : 0 < JS.ceil_div (Z.of_nat (length (ITEM_DATA s)))
                        GRID_COLUMNS).
  { apply ceil_div_pos; [|reflexivity].
    destruct (ITEM_DATA s); [congruence | simpl; lia]. }
  unfold addMoreItems. rewrite Hgen.
  destruct direction; unfold generateItemData;
    try (destruct (Math_min_spread (map item_x (ITEM_DATA s)))
           as [minX'|] eqn:EX;
         [apply Math_min_spread_Some in EX; destruct EX as [EX _];
          rewrite HX in EX; injection EX as <- | discriminate]);
    try (destruct (Math_min_spread (map item_y (ITEM_DATA s)))
           as [minY'|] eqn:EY;
         [apply Math_min_spread_Some in EY; destruct EY as [EY _];
          rewrite HY in EY; injection EY as <- | discriminate]);
    intros E; injection E as <- _.
  - now apply append_end_tiled.
  - destruct (Z_le_gt_dec count 0) as [Hc|Hc].
    { replace (Z.to_nat count) with O by lia.
      apply (append_front_tiled [] _ s Ht); constructor. }
    apply (append_front_tiled _ _ s Ht).
    + rewrite positionLeft_cells.
      apply (NoDup_by_decode _
               (fun p => (snd p / ITEM_SIZE - minY / ITEM_SIZE)
                         * JS.ceil_div count
                             (JS.ceil_div (Z.of_nat (length (ITEM_DATA s)))
                                GRID_COLUMNS)
                         + (JS.ceil_div count
                              (JS.ceil_div (Z.of_nat (length (ITEM_DATA s)))
                                 GRID_COLUMNS)
                            - (minX - fst p) / ITEM_SIZE))).
      intros g Hg. apply leftCell_decode; [apply ceil_div_pos; lia | lia].
    + eapply Forall_impl;
        [|apply positionLeft_left; [apply ceil_div_pos; lia | lia]].
      intros n Hn. cbn beta in Hn. unfold ITEM_SIZE in Hn.
      split; [left; lia|].
      intros Hin. apply in_map_iff in Hin. destruct Hin as [o [Ho Hoin]].
      rewrite Forall_forall in LX. specialize (LX o Hoin). cbn beta in LX.
      unfold cellOf in Ho. injection Ho as Hox _. lia.
  - destruct (Z_le_gt_dec count 0) as [Hc|Hc].
    { replace (Z.to_nat count) with O by lia.
      apply (append_front_tiled [] _ s Ht); constructor. }
    apply (append_front_tiled _ _ s Ht).
    + rewrite positionTop_cells.
      apply (NoDup_by_decode _
               (fun p => (JS.ceil_div count GRID_COLUMNS
                          - (minY - snd p) / ITEM_SIZE) * GRID_COLUMNS
                         + fst p / ITEM_SIZE)).
      intros g Hg. apply topCell_decode. lia.
    + eapply Forall_impl;
        [|apply (positionTop_above count);
          [lia | rewrite generateLoop_length; lia]].
      intros n Hn. cbn beta in Hn. unfold ITEM_SIZE in Hn.
      split; [right; lia|].
      intros Hin. apply in_map_iff in Hin. destruct Hin as [o [Ho Hoin]].
      rewrite Forall_forall in LY. specialize (LY o Hoin). cbn beta in LY.
      unfold cellOf in Ho. injection Ho as _ Hoy. lia.
  - now apply append_end_tiled.
Qed.

Lemma initialStore_tiled : storeTiled initialStore.
Proof.
  change initialStore with (generatedStore 2000).
  unfold generatedStore, generateItemData. cbn [fst].
  assert (Hcells : map cellOf (generateLoop (Z.to_nat 2000) 0 1 0)
                   = map gridCell (idsFrom 0 (Z.to_nat 2000)))
    by apply generateLoop_cells.
  constructor; cbn [ITEM_DATA usingRealData]; [reflexivity| | |].
  - rewrite Hcells. apply in_map_iff. exists 0. split; [reflexivity|].
    apply idsFrom_In. lia.
  - rewrite Hcells.
    apply (NoDup_by_decode gridCell
             (fun p => snd p / ITEM_SIZE * GRID_COLUMNS + fst p / ITEM_SIZE)).
    intros g Hg. now apply gridCell_decode.
  - apply Forall_forall. intros item Hitem. right; right.
    apply (in_map cellOf) in Hitem. rewrite Hcells in Hitem.
    apply in_map_iff in Hitem. destruct Hitem as [g [Hg Hin]].
    apply idsFrom_In in Hin. exists g. split; [|now symmetry].
    rewrite generateLoop_length. lia.
Qed.

(** X19: no two items of the generated store ever share a grid cell.
    After any appends that have returned, of any count and in any direction,
    the pixel positions of the items of the store are pairwise distinct. *)
Theorem store_cells_distinct (calls : list (Z * Direction)) (s : Store) :
  appendAll calls initialStore = Some s ->
  NoDup (map cellOf (ITEM_DATA s)).
Proof.
  assert (H : forall s0, storeTiled s0 ->
                appendAll calls s0 = Some s -> storeTiled s).
  { induction calls as [|[count direction] rest IH]; intros s0 Ht;
      cbn [appendAll].
    - intros E; injection E as <-. exact Ht.
    - destruct (addMoreItems count direction s0) as [[s1 new]|] eqn:E;
        [|discriminate].
      apply IH. apply (addMoreItems_tiled _ _ _ _ _ Ht E). }
  intros Hs. apply (tiled_distinct _ (H initialStore initialStore_tiled Hs)).
Qed.

(** X20: the canvas is large enough for a store built row by row: every
    item of [generateItemData(n, topic, 1, 0)] lies, with its whole cell,
    inside the rectangle from (0, 0) to the canvas size computed for that
    store. *)
Theorem generated_store_within_canvas (n : Z) :
  0 < n ->
  Forall (fun item =>
            0 <= item_x item
            /\ item_x item + ITEM_SIZE
               <= fst (calculateCanvasDimensions (generatedStore n))
            /\ 0 <= item_y item
            /\ item_y item + ITEM_SIZE
               <= snd (calculateCanvasDimensions (generatedStore n)))
    (ITEM_DATA (generatedStore n)).
Proof.
  intros Hn.
  assert (Hne : ITEM_DATA (generatedStore n) <> []).
  { unfold generatedStore, generateItemData. cbn [fst ITEM_DATA].
    destruct (Z.to_nat n) eqn:E; [lia | discriminate]. }
  rewrite (calculateCanvasDimensions_nonempty _ Hne).
  rewrite (generatedStore_length n) by lia. cbn [fst snd].
  apply Forall_forall. intros item Hitem.
  apply (in_map cellOf) in Hitem.
  unfold generatedStore, generateItemData in Hitem. cbn [fst ITEM_DATA] in Hitem.
  rewrite generateLoop_cells in Hitem. apply in_map_iff in Hitem.
  destruct Hitem as [g [Hg Hin]]. apply idsFrom_In in Hin.
  unfold cellOf, gridCell in Hg. injection Hg as Hx Hy.
  rewrite <- Hx, <- Hy.
  rewrite Z.rem_mod_nonneg by (unfold GRID_COLUMNS; lia).
  unfold JS.ceil_div, GRID_COLUMNS, ITEM_SIZE.
  pose proof (Z.div_mod g 50 ltac:(lia)).
  pose proof (Z.mod_pos_bound g 50 ltac:(lia)).
  pose proof (Z.div_mod (- n) 50 ltac:(lia)).
  pose proof (Z.mod_pos_bound (- n) 50 ltac:(lia)).
  lia.
Qed.
End ItemPlacement.

(* ================================================================== *)
(** * Real data: loading it, and what it switches off *)

Section RealData.

Lemma processItems_layout (i : nat) (items : list JsonItem) :
  Forall (fun e => json_hasType e = true \/ json_src e <> None) items ->
  exists data,
    processItems (Z.of_nat i) items = Some data
    /\ Forall2 loadedAs (combine (seq i (length items)) items) data.
Proof.
  revert i; induction items as [|e rest IH]; intros i Hall.
  - exists []. split; [reflexivity | constructor].
  - inversion Hall as [|? ? He Hrest]; subst.
    destruct (IH (S i) Hrest) as [data [Hdata Hlay]].
    cbn [processItems].
    replace (Z.of_nat i + 1) with (Z.of_nat (S i)) by lia.
    rewrite Hdata. cbn [option_map].
    eexists. split.
    + destruct (json_hasType e), (json_src e); try reflexivity.
      destruct He; congruence.
    + cbn [length seq combine]. constructor; [|exact Hlay].
      unfold loadedAs. cbn [fst snd].
      rewrite Z.rem_mod_nonneg by (unfold GRID_COLUMNS; lia).
      now replace (Z.of_nat (S i)) with (Z.of_nat i + 1) by lia.
Qed.

(** X6: a photos-data.json with at least one real URL (not picsum, unsplash
    or placeholder) in which every entry has a [type] or a [src] is loaded
    whole, placeholders included: the result has one item per entry, the
    [k]-th in column [k mod 50] and row [k / 50], with the entry's own id
    when it has a non-zero one and [k + 1] otherwise. *)
Theorem loadItemData_layout (items : list JsonItem) :
  hasRealUrls items = true ->
  Forall (fun e => json_hasType e = true \/ json_src e <> None) items ->
  exists data,
    loadItemData (Some items) = Some data
    /\ Forall2 loadedAs (combine (seq 0 (length items)) items) data.
Proof.
  intros Hreal Hall.
  destruct (processItems_layout 0 items Hall) as [data [Hdata Hlay]].
  exists data. split; [|exact Hlay].
  unfold loadItemData. rewrite Hreal.
  destruct items; [discriminate | exact Hdata].
Qed.

Lemma processItems_throws (index : Z) (items : list JsonItem) (e : JsonItem) :
  In e items -> json_hasType e = false -> json_src e = None ->
  processItems index items = None.
Proof.
  intros Hin Ht Hs. revert index.
  induction items as [|a rest IH]; intros index; [contradiction|].
  cbn [processItems]. destruct Hin as [->|Hin].
  - now rewrite Ht, Hs.
  - rewrite (IH Hin).
    now destruct (json_hasType a), (json_src a).
Qed.

(** X7: one entry with neither a [type] nor a [src] makes [loadItemData]
    give up on the whole file, however many real entries it has: the
    [TypeError] of [item.src.match] is swallowed by the [try / catch] and the
    result is [null], so the page stays on generated data. *)
Theorem loadItemData_gives_up (response : option (list JsonItem))
    (items : list JsonItem) (e : JsonItem) :
  response = Some items ->
  In e items -> json_hasType e = false -> json_src e = None ->
  loadItemData response = None.
Proof.
  intros -> Hin Ht Hs. unfold loadItemData.
  destruct items as [|a rest]; [reflexivity|].
  destruct (hasRealUrls (a :: rest)); [|reflexivity].
  now apply (processItems_throws 0 (a :: rest) e).
Qed.

Lemma callAppend_real_data (count : Z) (d : Direction) (w : World) :
  usingRealData (store w) = true ->
  store (callAppend count d w) = store w.
Proof.
  intros H.
  rewrite (callAppend_effect count d w (store w) []
             (addMoreItems_real_data count d (store w) H)).
  reflexivity.
Qed.

Lemma check_real_data (w : World) :
  usingRealData (store w) = true ->
  store (checkBoundariesAndLoad w) = store w.
Proof.
  intros H. unfold checkBoundariesAndLoad, loadMore.
  destruct (isLoadingMore w); [reflexivity|].
  destruct (ITEM_DATA (store w)); [reflexivity|].
  destruct (nearBoundary w) as [d|]; [|reflexivity].
  destruct (addMoreInstalled w); [|reflexivity].
  rewrite (addMoreItems_real_data 2000 d (store w) H).
  unfold finishLoad, beginLoad.
  rewrite (proj1 (proj2 (proj2 (proj2 (scheduleRender_frame _))))).
  cbn [set_isLoadingMore updateCanvasSize set_state store].
  now apply (callAppend_real_data 2000 d (set_isLoadingMore true w)).
Qed.

Lemma render_real_data (w : World) :
  usingRealData (store w) = true -> store (render w) = store w.
Proof.
  intros H. destruct (render_cases w) as [-> | ->];
    destruct (syncDOM_frame w) as [rel ->];
    cbn [set_renderAnimationFrame store]; now rewrite check_real_data.
Qed.

Lemma step_real_data (w : World) (e : Event) :
  usingRealData (store w) = true -> isDataLoad e = false ->
  store (step w e) = store w.
Proof.
  intros H He. destruct e; cbn [step]; try discriminate.
  - unfold handleMouseDown. now destruct (negb _).
  - unfold handleMouseMove. destruct (negb _); [reflexivity|].
    rewrite check_real_data;
      now rewrite (proj1 (proj2 (proj2 (proj2 (scheduleRender_frame _))))).
  - unfold handleMouseUp. destruct (negb _); [reflexivity|].
    now rewrite (proj1 (proj2 (proj2 (proj2 (scheduleRender_frame _))))).
  - unfold handleWheel.
    rewrite check_real_data;
      now rewrite (proj1 (proj2 (proj2 (proj2 (scheduleRender_frame _))))).
  - unfold handleResize.
    now rewrite (proj1 (proj2 (proj2 (proj2 (scheduleRender_frame _))))).
  - unfold handleDoubleClick. destruct itemId as [z|]; [|reflexivity].
    destruct (z =? 0); [reflexivity|]. now destruct (findItem _ _).
  - destruct (pendingFrames w); [reflexivity|].
    match goal with |- context [render ?x] =>
      now rewrite (render_real_data x) end.
  - unfold initialize, loadFromCenter.
    match goal with |- context [render ?x] =>
      now rewrite (render_real_data x) end.
  - reflexivity.
Qed.

(** X8: real data switches the infinite canvas off.  Once a non-empty data
    set has been loaded, [ITEM_DATA] is that data set and stays it through
    drags, wheel turns, resizes, frames and re-initialisations, although the
    boundary checks keep invoking the append. *)
Theorem real_data_freezes_store (data : list Item)
    (clientWidth clientHeight : float) (events : list Event) (w : World) :
  data <> [] -> forallb (fun e => negb (isDataLoad e)) events = true ->
  let w' := run (RealDataLoaded data clientWidth clientHeight :: events) w in
  ITEM_DATA (store w') = data /\ usingRealData (store w') = true.
Proof.
  intros Hne Hev w'.
  assert (Hrun : forall evs w0,
            forallb (fun e => negb (isDataLoad e)) evs = true ->
            usingRealData (store w0) = true ->
            store (run evs w0) = store w0).
  { induction evs as [|e rest IH]; intros w0 Hall Hreal; [reflexivity|].
    cbn [forallb] in Hall. apply andb_true_iff in Hall.
    destruct Hall as [He Hrest]. apply negb_true_iff in He.
    unfold run in *. cbn [fold_left].
    rewrite IH; [now apply step_real_data | exact Hrest|].
    now rewrite step_real_data. }
  subst w'. unfold run. cbn [fold_left step].
  destruct data as [|a rest]; [congruence|].
  unfold initialize, loadFromCenter.
  match goal with |- context [fold_left step events (render ?x)] =>
    assert (Hs : store (render x)
                 = mkStore (a :: rest)
                     (globalItemIdCounter (store w)) true)
      by (now rewrite (render_real_data x)) end.
  fold (run events). rewrite Hrun; [now rewrite Hs | exact Hev|].
  now rewrite Hs.
Qed.

End RealData.

(* ================================================================== *)
(** * More on the DOM manager *)

Section Reconciliation.

Lemma removeStale_selected (ids : list Z) (w : World) :
  Forall (fun e => selectedEntry ids e = true) (renderedItems w) ->
  removeStale ids w = w.
Proof.
  intros Hall. unfold removeStale.
  replace (filter (fun entry => negb (ids_has ids (JS.parseInt (fst entry))))
             (renderedItems w)) with (@nil (string * Element)); [reflexivity|].
  symmetry. induction Hall as [|e r He _ IH]; [reflexivity|].
  cbn [filter]. unfold selectedEntry in He. now rewrite He.
Qed.

Lemma addVisibleReg_present (visibleItems : list Item) (r : Registry) :
  Forall (fun item => reg_has (JS.toString (item_id item)) r = true)
    visibleItems ->
  addVisibleReg visibleItems r = r.
Proof.
  induction 1 as [|item rest Hitem _ IH]; [reflexivity|].
  unfold addVisibleReg in *. cbn [fold_left]. now rewrite Hitem.
Qed.

Lemma reposition_idem (items : list Item) (e : string * Element) :
  reposition items (reposition items e) = reposition items e.
Proof.
  unfold reposition at 2.
  destruct (findItem items (JS.parseInt (fst e))) as [item|] eqn:E.
  - unfold reposition. cbn [fst snd el_itemId]. now rewrite E.
  - unfold reposition. now rewrite E.
Qed.

(** X9: reconciliation is idempotent.  A second [syncDOM] pass over the same
    camera and store changes nothing at all: it releases no element, creates
    none and moves none. *)
Theorem syncDOM_idempotent (w : World) : syncDOM (syncDOM w) = syncDOM w.
Proof.
  destruct (syncDOM_frame w) as [rel Hw]. rewrite Hw.
  set (items := ITEM_DATA (store w)) in *.
  set (S := findVisibleItems (state w) items) in *.
  set (r1 := syncDOMReg items S (renderedItems w)) in *.
  pose proof (syncDOMReg_selected items S (renderedItems w)) as Hsel.
  pose proof (syncDOMReg_complete items S (renderedItems w)) as Hall.
  fold r1 in Hsel, Hall.
  unfold syncDOM.
  change (findVisibleItems (state (set_dom r1 rel w))
            (ITEM_DATA (store (set_dom r1 rel w)))) with S.
  rewrite (removeStale_selected (map item_id S) (set_dom r1 rel w) Hsel).
  rewrite <- (filter_all (selectedEntry (map item_id S)) r1 Hsel) at 1.
  rewrite evict_after_removal, addVisible_frame.
  cbn [set_dom renderedItems released].
  rewrite (filter_all _ r1 Hsel), (addVisibleReg_present S r1 Hall).
  rewrite updateItemPositions_frame.
  transitivity (set_dom (map (reposition items) r1) rel w); [reflexivity|].
  f_equal. unfold r1, syncDOMReg. rewrite map_map. apply map_ext.
  intros e. apply reposition_idem.
Qed.

Lemma selected_item_found (c : Camera) (items : list Item) (z : Z) :
  In z (map item_id (findVisibleItems c items)) ->
  exists item, findItem items (Some z) = Some item.
Proof.
  intros Hin. apply in_map_iff in Hin. destruct Hin as [i [Hid Hi]].
  apply filter_In in Hi. destruct Hi as [Hi _].
  cbn [findItem]. destruct (find (fun i0 => item_id i0 =? z) items) eqn:E;
    [eauto|].
  pose proof (find_none _ _ E i Hi) as Hno. cbn beta in Hno.
  rewrite Hid, Z.eqb_refl in Hno. discriminate.
Qed.

(** X10: after a [syncDOM] pass every live element belongs to an item of
    [ITEM_DATA] (the first one with the id its key spells) and sits exactly
    at that item's position. *)
Theorem syncDOM_places_elements (w : World) :
  Forall (elementAtItem (ITEM_DATA (store w))) (renderedItems (syncDOM w)).
Proof.
  destruct (syncDOM_frame w) as [rel ->]. cbn [set_dom renderedItems].
  set (items := ITEM_DATA (store w)).
  set (S := findVisibleItems (state w) items).
  pose proof (syncDOMReg_selected items S (renderedItems w)) as Hsel.
  unfold syncDOMReg in *. rewrite Forall_map in *.
  eapply Forall_impl; [|exact Hsel]. intros e He.
  unfold selectedEntry in He.
  assert (Hkey : fst (reposition items e) = fst e).
  { unfold reposition. now destruct (findItem items _). }
  rewrite Hkey in He.
  destruct (JS.parseInt (fst e)) as [z|] eqn:Ez; [|discriminate].
  apply ids_has_In in He.
  destruct (selected_item_found _ _ _ He) as [item Hitem].
  exists item. rewrite Hkey, Ez. split; [exact Hitem|].
  unfold reposition. rewrite Ez, Hitem. now split.
Qed.

Lemma filter_filedUnderOwnId (f : string * Element -> bool) (r : Registry) :
  filedUnderOwnId r -> filedUnderOwnId (filter f r).
Proof.
  unfold filedUnderOwnId. rewrite !Forall_forall. intros H e He.
  apply filter_In in He. now apply H.
Qed.

Lemma addVisibleReg_filedUnderOwnId (visibleItems : list Item)
    (r : Registry) :
  filedUnderOwnId r -> filedUnderOwnId (addVisibleReg visibleItems r).
Proof.
  revert r; induction visibleItems as [|item rest IH]; intros r Hr;
    [exact Hr|].
  unfold addVisibleReg in *. cbn [fold_left]. apply IH.
  destruct (reg_has (JS.toString (item_id item)) r) eqn:E; [exact Hr|].
  rewrite (reg_set_absent _ _ _ E). apply Forall_app. split; [exact Hr|].
  constructor; [reflexivity | constructor].
Qed.

Lemma syncDOMReg_filedUnderOwnId (items visibleItems : list Item)
    (r : Registry) :
  filedUnderOwnId r -> filedUnderOwnId (syncDOMReg items visibleItems r).
Proof.
  intros Hr. unfold syncDOMReg, filedUnderOwnId. rewrite Forall_map.
  eapply Forall_impl;
    [|apply addVisibleReg_filedUnderOwnId, filter_filedUnderOwnId, Hr].
  intros e He. unfold reposition.
  now destruct (findItem items (JS.parseInt (fst e))).
Qed.

(** Whatever [syncDOM] keeps true of the registry holds after every turn of
    the event loop. *)
Lemma step_registry_invariant (P : Registry -> Prop) (w : World) (e : Event) :
  (forall items visibleItems r, P r -> P (syncDOMReg items visibleItems r)) ->
  P (renderedItems w) -> P (renderedItems (step w e)).
Proof.
  intros Hsync H. destruct e; cbn [step].
  - unfold handleMouseDown. now destruct (negb _).
  - unfold handleMouseMove. destruct (negb _); [assumption|].
    rewrite check_registry.
    now rewrite (proj1 (proj2 (scheduleRender_frame _))).
  - unfold handleMouseUp. destruct (negb _); [assumption|].
    now rewrite (proj1 (proj2 (scheduleRender_frame _))).
  - unfold handleWheel. rewrite check_registry.
    now rewrite (proj1 (proj2 (scheduleRender_frame _))).
  - unfold handleResize.
    now rewrite (proj1 (proj2 (scheduleRender_frame _))).
  - unfold handleDoubleClick. destruct itemId as [z|]; [|assumption].
    destruct (z =? 0); [assumption|]. now destruct (findItem _ _).
  - destruct (pendingFrames w); [assumption|].
    rewrite render_registry. now apply Hsync.
  - unfold initialize, loadFromCenter.
    rewrite render_registry. now apply Hsync.
  - destruct data; [assumption|]. unfold initialize, loadFromCenter.
    rewrite render_registry. now apply Hsync.
  - assumption.
Qed.

(** X11: in every state the page can reach, the registry holds at most one
    element per key and every element is filed under the decimal string of
    its own [dataset.itemId]. *)
Theorem session_registry_invariant (events : list Event) :
  NoDup (map fst (renderedItems (run events initialWorld)))
  /\ filedUnderOwnId (renderedItems (run events initialWorld)).
Proof.
  set (P := fun r : Registry => NoDup (map fst r) /\ filedUnderOwnId r).
  assert (Hsync : forall items visibleItems r,
            P r -> P (syncDOMReg items visibleItems r)).
  { intros items visibleItems r [Hnd Hown]. split.
    - unfold syncDOMReg. rewrite reposition_key.
      now apply addVisibleReg_NoDup, filter_keys_NoDup.
    - now apply syncDOMReg_filedUnderOwnId. }
  assert (H : forall w, P (renderedItems w) ->
                        P (renderedItems (run events w))).
  { induction events as [|e rest IH]; intros w Hw; [exact Hw|].
    unfold run in *. cbn [fold_left].
    apply IH. now apply (step_registry_invariant P). }
  apply H. split; constructor.
Qed.

Lemma insertByDistance_perm (a : string * float) (l : list (string * float)) :
  Permutation (insertByDistance a l) (a :: l).
Proof.
  induction l as [|b l IH]; cbn [insertByDistance]; [reflexivity|].
  destruct (PrimFloat.ltb 0 (snd b - snd a)); [|reflexivity].
  rewrite IH. apply perm_swap.
Qed.

(** The sort only reorders [itemDistances]. *)
Lemma sortByDistance_perm (l : list (string * float)) :
  Permutation (sortByDistance l) l.
Proof.
  induction l as [|a l IH]; cbn [sortByDistance fold_right]; [reflexivity|].
  fold (sortByDistance l). rewrite insertByDistance_perm. now constructor.
Qed.

Lemma NoDup_firstn {A} (n : nat) (l : list A) :
  NoDup l -> NoDup (firstn n l).
Proof.
  revert l; induction n as [|n IH]; intros [|a l] H; simpl; try constructor.
  - inversion H; subst. intros Hin. apply In_firstn in Hin. contradiction.
  - inversion H; subst. now apply IH.
Qed.

Lemma reg_delete_length (key : string) (r : Registry) :
  NoDup (map fst r) -> In key (map fst r) ->
  S (length (reg_delete key r)) = length r.
Proof.
  induction r as [|e r IH]; [contradiction|].
  cbn [map]. intros Hnd Hin. inversion Hnd as [|? ? Hnotin Hrest]; subst.
  unfold reg_delete in *. cbn [filter].
  destruct (String.eqb (fst e) key) eqn:E; cbn [negb].
  - apply String.eqb_eq in E. subst key.
    fold (reg_delete (fst e) r).
    rewrite reg_delete_absent; [reflexivity|].
    now apply reg_has_false.
  - cbn [length]. f_equal. apply IH; [exact Hrest|].
    destruct Hin as [Hin|Hin]; [|exact Hin].
    apply String.eqb_neq in E. contradiction.
Qed.

(** Releasing distinct live keys removes one entry each. *)
Lemma release_keys_length (keys : list string) (r : Registry) :
  NoDup (map fst r) -> NoDup keys -> incl keys (map fst r) ->
  (length (filter (fun e => negb (keyIn keys e)) r) + length keys
   = length r)%nat.
Proof.
  revert r; induction keys as [|k keys IH]; intros r Hr Hk Hincl.
  - rewrite filter_all by (apply Forall_forall; reflexivity). simpl. lia.
  - inversion Hk as [|? ? Hnotin Hrest]; subst.
    assert (Hkr : In k (map fst r)) by (apply Hincl; now left).
    assert (E : filter (fun e => negb (keyIn (k :: keys) e)) r
                = filter (fun e => negb (keyIn keys e)) (reg_delete k r)).
    { unfold reg_delete. rewrite filter_filter. apply filter_ext.
      intros e. unfold keyIn. simpl. now rewrite negb_orb. }
    rewrite E. cbn [length].
    rewrite <- (reg_delete_length k r Hr Hkr).
    rewrite <- (IH (reg_delete k r)); [lia | | exact Hrest |].
    + now apply filter_keys_NoDup.
    + intros k' Hk'. apply reg_has_In. rewrite reg_has_delete.
      apply andb_true_iff. split.
      * apply negb_true_iff, String.eqb_neq. intros ->. contradiction.
      * apply reg_has_In, Hincl. now right.
Qed.

(** X12: the eviction step removes exactly as many elements as the registry
    is over the cap, or all the non-selected ones if there are fewer; it
    therefore never takes the registry below the cap (nor below its size, if
    that was under the cap already). *)
Theorem eviction_count (visibleItemIds : list Z) (w : World) :
  NoDup (map fst (renderedItems w)) ->
  reg_size (renderedItems (evictUnderPressure visibleItemIds w))
  = reg_size (renderedItems w)
    - Z.min (Z.max 0 (reg_size (renderedItems w) - MAX_DOM_NODES))
        (Z.of_nat (length (itemDistances visibleItemIds w)))
  /\ Z.min (reg_size (renderedItems w)) MAX_DOM_NODES
     <= reg_size (renderedItems (evictUnderPressure visibleItemIds w)).
Proof.
  intros Hnd.
  assert (Hmain :
    reg_size (renderedItems (evictUnderPressure visibleItemIds w))
    = reg_size (renderedItems w)
      - Z.min (Z.max 0 (reg_size (renderedItems w) - MAX_DOM_NODES))
          (Z.of_nat (length (itemDistances visibleItemIds w)))).
  { unfold evictUnderPressure.
    destruct (MAX_DOM_NODES <? reg_size (renderedItems w)) eqn:Hover.
    - apply Z.ltb_lt in Hover.
      set (dists := itemDistances visibleItemIds w).
      set (n := Z.to_nat (reg_size (renderedItems w) - MAX_DOM_NODES)).
      set (keys := firstn n (map fst (sortByDistance dists))).
      destruct (releaseAll_frame keys w) as [rel ->].
      cbn [set_dom renderedItems].
      assert (Hperm : Permutation (map fst (sortByDistance dists))
                        (map fst dists))
        by apply Permutation_map, sortByDistance_perm.
      assert (Hdnd : NoDup (map fst dists))
        by (unfold dists, itemDistances; now apply collectDistances_NoDup).
      assert (Hkeys : NoDup keys).
      { apply NoDup_firstn.
        apply (Permutation_NoDup (Permutation_sym Hperm) Hdnd). }
      assert (Hincl : incl keys (map fst (renderedItems w))).
      { intros k Hk. apply In_firstn in Hk.
        apply (Permutation_in _ Hperm) in Hk.
        apply in_map_iff in Hk. destruct Hk as [p [<- Hp]].
        unfold dists, itemDistances in Hp.
        match type of Hp with In _ (collectDistances ?a ?b ?cx ?cy ?r) =>
          pose proof (collectDistances_keys a b cx cy r) as Hall end.
        rewrite Forall_forall in Hall. now destruct (Hall p Hp). }
      pose proof (release_keys_length keys (renderedItems w) Hnd Hkeys Hincl)
        as Hlen.
      assert (Hk : length keys
                   = Nat.min n (length dists)).
      { unfold keys. rewrite length_firstn, length_map.
        now rewrite (Permutation_length (sortByDistance_perm dists)). }
      unfold reg_size in *. rewrite Hk in Hlen. unfold n in Hlen. lia.
    - apply Z.ltb_ge in Hover. unfold reg_size in *. lia. }
  split; [exact Hmain|]. rewrite Hmain. unfold reg_size. lia.
Qed.
End Reconciliation.

(* ================================================================== *)
(** * More on the boundary loader, the scheduler and the input handlers *)

Section Session.

Lemma set_canvas_same (c : Camera) :
  set_canvas (canvasWidth c, canvasHeight c) c = c.
Proof. now destruct c. Qed.

(** A boundary check touches nothing of the camera but the canvas size. *)
Lemma check_camera (w : World) :
  exists dims, state (checkBoundariesAndLoad w) = set_canvas dims (state w).
Proof.
  destruct (check_cases w)
    as [E|[E|[[d [s' [new [Happ E]]]]|[d [Happ E]]]]]; rewrite E.
  - eexists. symmetry. apply set_canvas_same.
  - eexists. symmetry. apply set_canvas_same.
  - rewrite (load_shape d w s' new Happ).
    rewrite (proj1 (scheduleRender_frame _)). eexists. reflexivity.
  - rewrite (raise_shape d w Happ). eexists. symmetry.
    apply set_canvas_same.
Qed.



(** A check made while a handle is held requests no frame and keeps the
    handle. *)
Lemma check_holding (w : World) (h : Z) :
  renderAnimationFrame w = Some h ->
  pendingFrames (checkBoundariesAndLoad w) = pendingFrames w
  /\ frameRequests (checkBoundariesAndLoad w) = frameRequests w
  /\ renderAnimationFrame (checkBoundariesAndLoad w) = Some h.
Proof.
  intros H.
  destruct (check_cases w)
    as [E|[E|[[d [s' [new [Happ E]]]]|[d [Happ E]]]]]; rewrite E.
  - now repeat split.
  - now repeat split.
  - rewrite (load_shape d w s' new Happ). unfold scheduleRender.
    cbn [renderAnimationFrame]. rewrite H. now repeat split.
  - rewrite (raise_shape d w Happ). now repeat split.
Qed.

(** The frame callback, run while its handle is held. *)
Lemma frame_settles (w : World) (h : Z) (n : nat) :
  renderAnimationFrame w = Some h -> pendingFrames w = S n ->
  pendingFrames (step w Frame) = n
  /\ frameRequests (step w Frame) = frameRequests w
  /\ renderAnimationFrame (step w Frame)
     = if checkRaises w then Some h else None.
Proof.
  intros Hr Hp. cbn [step]. rewrite Hp. unfold render.
  match goal with |- context [syncDOM ?x] =>
    destruct (syncDOM_frame x) as [rel ->];
    change (checkRaises (set_dom _ rel x)) with (checkRaises w);
    destruct (check_holding (set_dom (syncDOMReg (ITEM_DATA (store x))
                (findVisibleItems (state x) (ITEM_DATA (store x)))
                (renderedItems x)) rel x) h Hr) as [H1 [H2 H3]] end.
  destruct (checkRaises w);
    cbn [set_renderAnimationFrame pendingFrames frameRequests
         renderAnimationFrame];
    rewrite ?H1, ?H2, ?H3; now repeat split.
Qed.



(** X14: a frame callback leaves no frame requested.  When its boundary
    check appends items and calls [scheduleRender], [renderAnimationFrame]
    still holds the handle of the running frame, so nothing is requested:
    the appended items are first reconciled at the next input event.
    [render] then clears the handle, unless the append raised: the
    exception leaves [render] with the handle still held. *)
Theorem frame_requests_no_frame (w : World) (h : Z) :
  renderAnimationFrame w = Some h -> pendingFrames w = 1%nat ->
  pendingFrames (step w Frame) = O
  /\ frameRequests (step w Frame) = frameRequests w
  /\ renderAnimationFrame (step w Frame)
     = if checkRaises w then Some h else None.
Proof. intros Hr Hp. exact (frame_settles w h O Hr Hp). Qed.

Lemma handleMouseMove_dragging (clientX clientY : float) (w : World) :
  isDragging (state w) = true ->
  exists dims,
    state (handleMouseMove clientX clientY w)
    = set_canvas dims
        (set_pan (dragStartPanX (state w) + (clientX - dragStartX (state w)))
           (dragStartPanY (state w) + (clientY - dragStartY (state w)))
           (state w)).
Proof.
  intros H. unfold handleMouseMove. rewrite H. cbn [negb].
  match goal with |- context [checkBoundariesAndLoad ?x] =>
    destruct (check_camera x) as [dims ->] end.
  rewrite (proj1 (scheduleRender_frame _)). now exists dims.
Qed.

(** X15: a drag is anchored at the point where the button went down.  After
    any number of intermediate mouse moves, the pan that a move to [q] sets
    is the pan at mouse-down plus [q] minus the mouse-down point, computed
    in one step: intermediate moves leave no trace (no drift), and the zoom
    is untouched. *)
Theorem drag_follows_last_move
    (moves : list (float * float)) (px py qx qy : float) (w : World) :
  let w1 := handleMouseDown 0 px py w in
  let w2 := run (map (fun m => MouseMove (fst m) (snd m)) moves) w1 in
  let w3 := handleMouseMove qx qy w2 in
  panX (state w3) = (panX (state w) + (qx - px))%float
  /\ panY (state w3) = (panY (state w) + (qy - py))%float
  /\ zoom (state w3) = zoom (state w)
  /\ isDragging (state w3) = true.
Proof.
  intros w1 w2 w3.
  set (anchored := fun c : Camera =>
         isDragging c = true /\ dragStartX c = px /\ dragStartY c = py
         /\ dragStartPanX c = panX (state w)
         /\ dragStartPanY c = panY (state w) /\ zoom c = zoom (state w)).
  assert (H1 : anchored (state w1)) by (repeat split).
  assert (Hmove : forall cx cy w0, anchored (state w0) ->
            anchored (state (handleMouseMove cx cy w0))
            /\ panX (state (handleMouseMove cx cy w0))
               = (panX (state w) + (cx - px))%float
            /\ panY (state (handleMouseMove cx cy w0))
               = (panY (state w) + (cy - py))%float).
  { intros cx cy w0 [Hd [Hx [Hy [Hpx [Hpy Hz]]]]].
    destruct (handleMouseMove_dragging cx cy w0 Hd) as [dims ->].
    rewrite Hx, Hy, Hpx, Hpy. repeat split; assumption. }
  assert (H2 : anchored (state w2)).
  { subst w3 w2. generalize dependent w1.
    induction moves as [|m rest IH]; intros w1 H1; [exact H1|].
    unfold run in *. cbn [map fold_left step]. apply IH.
    apply (Hmove (fst m) (snd m) w1 H1). }
  destruct (Hmove qx qy w2 H2) as [[Hd [_ [_ [_ [_ Hz]]]]] [Hx Hy]].
  subst w3. repeat split; assumption.
Qed.

Lemma canvas_of_set_canvas (dims : Z * Z) (c : Camera) :
  (canvasWidth (set_canvas dims c), canvasHeight (set_canvas dims c)) = dims.
Proof. now destruct dims. Qed.

Lemma check_canvasInSync (w : World) :
  canvasInSync w -> canvasInSync (checkBoundariesAndLoad w).
Proof.
  intros H.
  destruct (check_cases w)
    as [E|[E|[[d [s' [new [Happ E]]]]|[d [Happ E]]]]]; rewrite E;
    try exact H.
  - rewrite (load_shape d w s' new Happ). unfold canvasInSync.
    rewrite (proj1 (scheduleRender_frame _)),
      (proj1 (proj2 (proj2 (proj2 (scheduleRender_frame _))))).
    apply canvas_of_set_canvas.
  - rewrite (raise_shape d w Happ). exact H.
Qed.

Lemma render_canvasInSync (w : World) :
  canvasInSync w -> canvasInSync (render w).
Proof.
  intros H. destruct (render_cases w) as [-> | ->];
    destruct (syncDOM_frame w) as [rel ->].
  - now apply check_canvasInSync.
  - match goal with |- canvasInSync (set_renderAnimationFrame None ?x) =>
      change (canvasInSync x) end.
    now apply check_canvasInSync.
Qed.

Lemma initialize_canvasInSync (clientWidth clientHeight : float) (w : World) :
  canvasInSync (initialize clientWidth clientHeight w).
Proof.
  unfold initialize, loadFromCenter. apply render_canvasInSync.
  unfold canvasInSync.
  cbn [set_state state store initializeCanvas set_pan set_viewport
       canvasWidth canvasHeight].
  apply canvas_of_set_canvas.
Qed.

Lemma step_canvasInSync (w : World) (e : Event) :
  canvasInSync w -> canvasInSync (step w e).
Proof.
  intros H. destruct e; cbn [step].
  - unfold handleMouseDown. now destruct (negb _).
  - unfold handleMouseMove. destruct (negb _); [assumption|].
    apply check_canvasInSync. unfold canvasInSync.
    now rewrite (proj1 (scheduleRender_frame _)),
      (proj1 (proj2 (proj2 (proj2 (scheduleRender_frame _))))).
  - unfold handleMouseUp. destruct (negb _); [assumption|].
    unfold canvasInSync.
    now rewrite (proj1 (scheduleRender_frame _)),
      (proj1 (proj2 (proj2 (proj2 (scheduleRender_frame _))))).
  - unfold handleWheel. apply check_canvasInSync. unfold canvasInSync.
    now rewrite (proj1 (scheduleRender_frame _)),
      (proj1 (proj2 (proj2 (proj2 (scheduleRender_frame _))))).
  - unfold handleResize. unfold canvasInSync.
    now rewrite (proj1 (scheduleRender_frame _)),
      (proj1 (proj2 (proj2 (proj2 (scheduleRender_frame _))))).
  - unfold handleDoubleClick. destruct itemId as [z|]; [|assumption].
    destruct (z =? 0); [assumption|]. now destruct (findItem _ _).
  - destruct (pendingFrames w); [assumption|].
    now apply render_canvasInSync.
  - apply initialize_canvasInSync.
  - destruct data; [assumption | apply initialize_canvasInSync].
  - exact H.
Qed.

(** X16: once the page has been initialised, [state.canvasWidth] and
    [state.canvasHeight] are the canvas size of the current [ITEM_DATA] after
    every turn of the event loop, whatever was appended or loaded
    meanwhile. *)
Theorem canvas_stays_in_sync (clientWidth clientHeight : float)
    (events : list Event) (w : World) :
  canvasInSync (run (Initialize clientWidth clientHeight :: events) w).
Proof.
  unfold run. cbn [fold_left step].
  generalize (initialize_canvasInSync clientWidth clientHeight w).
  generalize (initialize clientWidth clientHeight w) as w0.
  induction events as [|e rest IH]; intros w0 H; [exact H|].
  cbn [fold_left]. apply IH. now apply step_canvasInSync.
Qed.

Lemma withinThreshold_Right_nonempty (w : World) :
  ITEM_DATA (store w) <> [] ->
  withinThreshold Right w
  = PrimFloat.ltb
      (JS.num_of_Z (GRID_COLUMNS * ITEM_SIZE)
       - b_right (calculateViewportBounds (state w)))%float LOAD_THRESHOLD.
Proof.
  intros Hne. unfold withinThreshold.
  now rewrite (calculateCanvasDimensions_nonempty _ Hne).
Qed.

(** X17: the right boundary never moves.  When a boundary check finds the
    right test true (guard clear, store non-empty, handler installed), it
    appends to the right, and since the canvas width is the same afterwards
    the test is still true: [n] checks in a row, with the camera where it
    is, invoke [n] appends to the right. *)
Theorem right_boundary_keeps_loading (n : nat) (w : World) :
  isLoadingMore w = false -> ITEM_DATA (store w) <> [] ->
  addMoreInstalled w = true -> withinThreshold Right w = true ->
  appendCalls (Nat.iter n checkBoundariesAndLoad w)
  = appendCalls w ++ repeat (2000, Right) n
  /\ withinThreshold Right (Nat.iter n checkBoundariesAndLoad w) = true.
Proof.
  intros Hg Hne Hi Hr.
  set (ready := fun w0 : World =>
         isLoadingMore w0 = false /\ ITEM_DATA (store w0) <> []
         /\ addMoreInstalled w0 = true /\ withinThreshold Right w0 = true).
  assert (Hstep : forall w0, ready w0 ->
            ready (checkBoundariesAndLoad w0)
            /\ appendCalls (checkBoundariesAndLoad w0)
               = appendCalls w0 ++ [(2000, Right)]).
  { intros w0 [Hg0 [Hne0 [Hi0 Hr0]]].
    rewrite (check_loads w0 Hg0 Hne0 Hi0).
    assert (Hd : nearBoundary w0 = Some Right).
    { rewrite nearBoundary_first. unfold firstWithinThreshold.
      cbn [find]. now rewrite Hr0. }
    rewrite Hd.
    destruct (addMoreItems_towardsEnd 2000 Right (store w0) eq_refl)
      as [s' [new Happ]].
    rewrite Happ.
    rewrite (load_shape Right w0 s' new Happ).
    destruct (addMoreItems_nonempty _ _ _ _ _ Hne0 Happ) as [Hne' _].
    match goal with |- context [scheduleRender ?x] =>
      destruct (scheduleRender_frame x)
        as [Hst [_ [Hl [Hs [Hin [Ha _]]]]]] end.
    split; [|now rewrite Ha].
    unfold ready. rewrite Hl, Hs, Hin. cbn [isLoadingMore store
      addMoreInstalled]. repeat split; try assumption.
    rewrite withinThreshold_Right_nonempty
      by (rewrite Hs; exact Hne').
    rewrite Hst. cbn [state].
    rewrite withinThreshold_Right_nonempty in Hr0 by exact Hne0.
    exact Hr0. }
  assert (Hiter : ready (Nat.iter n checkBoundariesAndLoad w)
                  /\ appendCalls (Nat.iter n checkBoundariesAndLoad w)
                     = appendCalls w ++ repeat (2000, Right) n).
  { induction n as [|n [IHr IHa]].
    - split; [now repeat split | simpl; now rewrite app_nil_r].
    - rewrite Nat.iter_succ. destruct (Hstep _ IHr) as [Hr' Ha'].
      split; [exact Hr'|]. rewrite Ha', IHa, <- app_assoc. f_equal.
      change [(2000, Right)] with (repeat (2000, Right) 1).
      rewrite <- repeat_app. f_equal. lia. }
  destruct Hiter as [[_ [_ [_ H]]] Ha]. now split.
Qed.

(** Whatever an append of 2000 items keeps true of the store holds after
    every turn of the event loop that loads no real data. *)
Lemma step_store_invariant (P : Store -> Prop) (w : World) (e : Event) :
  (forall d s s' newItems,
     P s -> addMoreItems 2000 d s = Some (s', newItems) -> P s') ->
  isDataLoad e = false ->
  P (store w) -> P (store (step w e)).
Proof.
  intros Happend He H.
  assert (Hcheck : forall w0, P (store w0) ->
                              P (store (checkBoundariesAndLoad w0))).
  { intros w0 H0.
    destruct (check_cases w0)
      as [E|[E|[[d [s' [new [Happ E]]]]|[d [Happ E]]]]]; rewrite E;
      try exact H0.
    - rewrite (load_shape d w0 s' new Happ).
      rewrite (proj1 (proj2 (proj2 (proj2 (scheduleRender_frame _))))).
      cbn [store]. exact (Happend d _ _ _ H0 Happ).
    - rewrite (raise_shape d w0 Happ). exact H0. }
  assert (Hrender : forall w0, P (store w0) -> P (store (render w0))).
  { intros w0 H0. destruct (render_cases w0) as [-> | ->];
      destruct (syncDOM_frame w0) as [rel ->];
      cbn [set_renderAnimationFrame store]; now apply Hcheck. }
  destruct e; try discriminate; cbn [step].
  - unfold handleMouseDown. now destruct (negb _).
  - unfold handleMouseMove. destruct (negb _); [assumption|].
    apply Hcheck.
    now rewrite (proj1 (proj2 (proj2 (proj2 (scheduleRender_frame _))))).
  - unfold handleMouseUp. destruct (negb _); [assumption|].
    now rewrite (proj1 (proj2 (proj2 (proj2 (scheduleRender_frame _))))).
  - unfold handleWheel. apply Hcheck.
    now rewrite (proj1 (proj2 (proj2 (proj2 (scheduleRender_frame _))))).
  - unfold handleResize.
    now rewrite (proj1 (proj2 (proj2 (proj2 (scheduleRender_frame _))))).
  - unfold handleDoubleClick. destruct itemId as [z|]; [|assumption].
    destruct (z =? 0); [assumption|]. now destruct (findItem _ _).
  - destruct (pendingFrames w); [assumption|]. now apply Hrender.
  - unfold initialize, loadFromCenter. now apply Hrender.
  - exact H.
Qed.

(** X21: on generated data the page never breaks the store.  After any
    session without a real-data load, the item ids of [ITEM_DATA] are
    pairwise distinct, no two items share a cell, and every item lies on the
    grid. *)
Theorem session_store_invariant (events : list Event) :
  forallb (fun e => negb (isDataLoad e)) events = true ->
  NoDup (map item_id (ITEM_DATA (store (run events initialWorld))))
  /\ NoDup (map cellOf (ITEM_DATA (store (run events initialWorld))))
  /\ Forall positionConsistent
       (ITEM_DATA (store (run events initialWorld))).
Proof.
  intros Hev.
  set (P := fun s : Store =>
         storeInv s /\ storeTiled s
         /\ Forall positionConsistent (ITEM_DATA s)).
  assert (Happend : forall d s s' newItems,
            P s -> addMoreItems 2000 d s = Some (s', newItems) -> P s').
  { intros d s s' new [Hinv [Ht Hc]] E. split; [|split].
    - assert (Hc2000 : 0 <= 2000) by lia.
      apply (addMoreItems_inv 2000 d s s' new Hc2000 Hinv E).
    - apply (addMoreItems_tiled _ _ _ _ _ Ht E).
    - apply (addMoreItems_consistent _ _ _ _ _ Hc E). }
  assert (H : forall w, P (store w) -> P (store (run events w))).
  { revert Hev. induction events as [|e rest IH]; intros Hev w Hw;
      [exact Hw|].
    cbn [forallb] in Hev. apply andb_true_iff in Hev.
    destruct Hev as [He Hrest]. apply negb_true_iff in He.
    unfold run in *. cbn [fold_left]. apply (IH Hrest).
    now apply (step_store_invariant P). }
  destruct (H initialWorld) as [Hinv [Ht Hc]].
  - split; [exact initialStore_inv|]. split; [exact initialStore_tiled|].
    apply generateLoop_consistent.
  - split; [apply (inv_unique _ Hinv)|].
    split; [apply (tiled_distinct _ Ht) | exact Hc].
Qed.

(** A check on a store within the engine's limit, with the handler
    installed, leaves the guard clear, and adds no more than 2000 items. *)
Lemma check_guard_clear (w : World) (room : Z) :
  0 <= room ->
  isLoadingMore w = false -> addMoreInstalled w = true ->
  loadsReturn (room + 2000) (store w) ->
  isLoadingMore (checkBoundariesAndLoad w) = false
  /\ addMoreInstalled (checkBoundariesAndLoad w) = true
  /\ loadsReturn room (store (checkBoundariesAndLoad w)).
Proof.
  intros Hroom0 Hg Hi Hroom.
  assert (Hkeep : loadsReturn room (store w)).
  { destruct Hroom as [Hr|[Hr Hlen]];
      [now left | right; split; [exact Hr|lia]]. }
  assert (Hfit : spreadFits (store w) \/ usingRealData (store w) = true).
  { destruct Hroom as [Hr|[Hr Hlen]]; [now right | left].
    unfold spreadFits. lia. }
  assert (Hcase : ITEM_DATA (store w) = [] \/ ITEM_DATA (store w) <> [])
    by (destruct (ITEM_DATA (store w)); [now left | right; discriminate]).
  destruct Hcase as [Hd|Hne].
  { unfold checkBoundariesAndLoad. rewrite Hg, Hd. now repeat split. }
  rewrite (check_loads w Hg Hne Hi).
  destruct (nearBoundary w) as [d|]; [|now repeat split].
  assert (Happ : exists s' new,
            addMoreItems 2000 d (store w) = Some (s', new)).
  { destruct Hfit as [Hfit|Hr].
    - now apply addMoreItems_total.
    - rewrite (addMoreItems_real_data 2000 d (store w) Hr). eauto. }
  destruct Happ as [s' [new E]]. rewrite E.
  rewrite (load_shape d w s' new E).
  match goal with |- context [scheduleRender ?x] =>
    destruct (scheduleRender_frame x) as [_ [_ [Hl [Hs [Hin _]]]]] end.
  rewrite Hl, Hs, Hin. cbn [isLoadingMore addMoreInstalled store].
  split; [reflexivity|]. split; [exact Hi|].
  destruct Hroom as [Hr|[Hr Hlen]].
  - left. rewrite (addMoreItems_real_data 2000 d (store w) Hr) in E.
    injection E as <- _. exact Hr.
  - right.
    assert (Hc2000 : 0 <= 2000) by lia.
    destruct (addMoreItems_length _ _ _ _ _ Hr Hc2000 E) as [Hlen' Hr'].
    split; [exact Hr' | lia].
Qed.

(** X22: the in-flight guard is not left raised while the appends return.
    As long as the append handler stays installed, and for as many turns of
    the event loop as the store takes to outgrow what the engine accepts as
    arguments at 2000 items a turn, [isLoadingMore] is [false] after every
    turn: a boundary check that raises it lowers it again before it
    returns. *)
Theorem guard_is_never_left_raised (events : list Event) :
  forallb keepsHandler events = true ->
  2000 + 2000 * Z.of_nat (length events) <= argumentLimit ->
  isLoadingMore (run events initialWorld) = false
  /\ addMoreInstalled (run events initialWorld) = true.
Proof.
  intros Hev Hlimit.
  set (P := fun (room : Z) (w : World) =>
         0 <= room /\ isLoadingMore w = false /\ addMoreInstalled w = true
         /\ loadsReturn room (store w)).
  assert (Hweak : forall room w, 0 <= room -> P (room + 2000) w -> P room w).
  { intros room w H0 [_ [Hg [Hi [Hr|[Hr Hlen]]]]]; repeat split;
      try assumption; [now left | right; split; [exact Hr | lia]]. }
  assert (Hsched : forall room w, P room w -> P room (scheduleRender w)).
  { intros room w [H0 [Hg [Hi Hr]]].
    destruct (scheduleRender_frame w) as [_ [_ [Hl [Hs [Hin _]]]]].
    unfold P. rewrite Hl, Hs, Hin. now repeat split. }
  assert (Hcheck : forall room w, 0 <= room ->
            P (room + 2000) w -> P room (checkBoundariesAndLoad w)).
  { intros room w H0 [_ [Hg [Hi Hr]]].
    split; [exact H0|]. now apply check_guard_clear. }
  assert (Hrender : forall room w, 0 <= room ->
            P (room + 2000) w -> P room (render w)).
  { intros room w H0 Hw. destruct (render_cases w) as [-> | ->];
      destruct (syncDOM_frame w) as [rel ->].
    - now apply Hcheck.
    - match goal with |- P room (set_renderAnimationFrame None ?x) =>
        change (P room x) end.
      now apply Hcheck. }
  assert (Hstep : forall room w e, 0 <= room ->
            keepsHandler e = true -> P (room + 2000) w -> P room (step w e)).
  { intros room w e H0 He Hw. destruct e; cbn [step].
    - unfold handleMouseDown. destruct (negb _); now apply Hweak.
    - unfold handleMouseMove. destruct (negb _); [now apply Hweak|].
      apply Hcheck, Hsched; assumption.
    - unfold handleMouseUp. destruct (negb _); [now apply Hweak|].
      apply Hsched. now apply Hweak.
    - unfold handleWheel. apply Hcheck, Hsched; assumption.
    - unfold handleResize. apply Hsched. now apply Hweak.
    - unfold handleDoubleClick. destruct itemId as [z|]; [|now apply Hweak].
      destruct (z =? 0); [now apply Hweak|].
      destruct (findItem _ _); now apply Hweak.
    - destruct (pendingFrames w); [now apply Hweak|].
      apply Hrender; assumption.
    - unfold initialize, loadFromCenter. apply Hrender; assumption.
    - destruct data as [|a rest]; [now apply Hweak|].
      unfold initialize, loadFromCenter.
      apply Hrender; [exact H0|]. destruct Hw as [H1 [Hg [Hi _]]].
      split; [exact H1|]. split; [exact Hg|]. split; [exact Hi|]. now left.
    - destruct installed; [|discriminate].
      destruct (Hweak room w H0 Hw) as [_ [Hg [_ Hr]]]. now repeat split. }
  assert (H : forall w, P (2000 * Z.of_nat (length events)) w ->
                        P 0 (run events w)).
  { revert Hev. clear Hlimit.
    induction events as [|e rest IH]; intros Hev w Hw; [exact Hw|].
    cbn [forallb] in Hev. apply andb_true_iff in Hev.
    destruct Hev as [He Hrest].
    unfold run in *. cbn [fold_left]. apply (IH Hrest).
    apply (Hstep _ w e); [lia | exact He|].
    replace (2000 * Z.of_nat (length rest) + 2000)
      with (2000 * Z.of_nat (length (e :: rest)))
      by (cbn [length]; lia).
    exact Hw. }
  destruct (H initialWorld) as [_ [Hg [Hi _]]]; [|now split].
  split; [lia|]. split; [reflexivity|]. split; [reflexivity|]. right.
  split; [reflexivity|].
  change (ITEM_DATA (store initialWorld))
    with (generateLoop (Z.to_nat 2000) 0 1 0).
  rewrite generateLoop_length. lia.
Qed.

(** X23: an append that raises blocks loading for good.  When a boundary
    check on generated data calls for a left or a top append and
    [ITEM_DATA] has more items than the engine accepts as arguments, the
    handler is invoked and raises; the check ends there, with the guard
    raised and the store and the camera as they were.  Whatever happens
    afterwards the guard stays raised, every further check returns at once
    and no append is invoked again. *)
Theorem raising_append_blocks_loading
    (w : World) (d : Direction) (events : list Event) :
  isLoadingMore w = false -> ITEM_DATA (store w) <> [] ->
  nearBoundary w = Some d -> addMoreInstalled w = true ->
  usingRealData (store w) = false -> towardsEnd d = false ->
  argumentLimit < Z.of_nat (length (ITEM_DATA (store w))) ->
  let w1 := checkBoundariesAndLoad w in
  addMoreItems 2000 d (store w) = None
  /\ isLoadingMore w1 = true
  /\ appendCalls w1 = appendCalls w ++ [(2000, d)]
  /\ store w1 = store w
  /\ state w1 = state w
  /\ isLoadingMore (run events w1) = true
  /\ appendCalls (run events w1) = appendCalls w ++ [(2000, d)]
  /\ checkBoundariesAndLoad (run events w1) = run events w1.
Proof.
  intros Hg Hne Hd Hi Hreal Hdir Hbig w1.
  pose proof (addMoreItems_raises 2000 d (store w) Hreal Hdir Hbig) as Happ.
  assert (Hw1 : w1 = beginLoad d w).
  { subst w1. rewrite (check_loads w Hg Hne Hi). now rewrite Hd, Happ. }
  rewrite (raise_shape d w Happ) in Hw1.
  assert (Hflag : isLoadingMore w1 = true) by now rewrite Hw1.
  assert (Hcalls : appendCalls w1 = appendCalls w ++ [(2000, d)])
    by now rewrite Hw1.
  destruct (run_stuck events w1 Hflag) as [Hrun Hsame].
  split; [exact Happ|]. split; [exact Hflag|]. split; [exact Hcalls|].
  split; [now rewrite Hw1|]. split; [now rewrite Hw1|].
  split; [exact Hrun|]. split; [congruence|].
  now apply check_guarded.
Qed.

(** [scheduleRender] while a handle is held. *)
Lemma scheduleRender_holding (w : World) (h : Z) :
  renderAnimationFrame w = Some h ->
  renderAnimationFrame (scheduleRender w) = Some h
  /\ pendingFrames (scheduleRender w) = pendingFrames w
  /\ frameRequests (scheduleRender w) = frameRequests w.
Proof.
  intros H. unfold scheduleRender. rewrite H.
  cbn [renderAnimationFrame pendingFrames frameRequests]. now repeat split.
Qed.

(** A check that ends in an exception has found the guard clear and called
    an append that raised. *)
Lemma checkRaises_true (w : World) :
  checkRaises w = true ->
  exists d,
    addMoreItems 2000 d (store w) = None
    /\ checkBoundariesAndLoad w = beginLoad d w.
Proof.
  unfold checkRaises, checkBoundariesAndLoad, loadMore.
  destruct (isLoadingMore w); [discriminate|].
  destruct (ITEM_DATA (store w)); [discriminate|].
  destruct (nearBoundary w) as [d|]; [|discriminate].
  destruct (addMoreInstalled w); [|discriminate].
  destruct (addMoreItems 2000 d (store w)) eqn:E; [discriminate|].
  intros _. exists d. now split.
Qed.

(** With a stale handle held and no callback owed, a turn of the event loop
    requests no frame and leaves the registry alone. *)
Lemma step_frozen (w : World) (h : Z) (e : Event) :
  rendersDirectly e = false ->
  renderAnimationFrame w = Some h -> pendingFrames w = O ->
  renderAnimationFrame (step w e) = Some h
  /\ pendingFrames (step w e) = O
  /\ frameRequests (step w e) = frameRequests w
  /\ renderedItems (step w e) = renderedItems w.
Proof.
  intros He Hr Hp.
  assert (Hsched : forall c,
            renderAnimationFrame (scheduleRender (set_state c w)) = Some h
            /\ pendingFrames (scheduleRender (set_state c w)) = O
            /\ frameRequests (scheduleRender (set_state c w))
               = frameRequests w
            /\ renderedItems (scheduleRender (set_state c w))
               = renderedItems w).
  { intros c.
    destruct (scheduleRender_holding (set_state c w) h Hr) as [H1 [H2 H3]].
    rewrite H1, H2, H3.
    rewrite (proj1 (proj2 (scheduleRender_frame _))). now repeat split. }
  assert (Hcheck : forall c,
            renderAnimationFrame
              (checkBoundariesAndLoad (scheduleRender (set_state c w)))
            = Some h
            /\ pendingFrames
                 (checkBoundariesAndLoad (scheduleRender (set_state c w)))
               = O
            /\ frameRequests
                 (checkBoundariesAndLoad (scheduleRender (set_state c w)))
               = frameRequests w
            /\ renderedItems
                 (checkBoundariesAndLoad (scheduleRender (set_state c w)))
               = renderedItems w).
  { intros c. destruct (Hsched c) as [H1 [H2 [H3 H4]]].
    destruct (check_holding _ h H1) as [K1 [K2 K3]].
    rewrite K1, K2, K3, check_registry. now repeat split. }
  destruct e; try discriminate; cbn [step].
  - unfold handleMouseDown. destruct (negb _); now repeat split.
  - unfold handleMouseMove. destruct (negb _); [now repeat split|].
    apply Hcheck.
  - unfold handleMouseUp. destruct (negb _); [now repeat split|].
    apply Hsched.
  - unfold handleWheel. apply Hcheck.
  - unfold handleResize. apply Hsched.
  - unfold handleDoubleClick. destruct itemId as [z|]; [|now repeat split].
    destruct (z =? 0); [now repeat split|].
    destruct (findItem _ _); now repeat split.
  - rewrite Hp. now repeat split.
  - now repeat split.
Qed.

(** X24: an append that raises inside a frame callback freezes the
    rendering.  The exception leaves [render] before
    [renderAnimationFrame = null], so the handle of the frame that has just
    run stays in place; every later [scheduleRender] finds it there and
    requests nothing.  Through any mouse, wheel, resize and double-click
    events no frame is requested again, no callback is owed, and the
    registry stays as that frame left it. *)
Theorem raise_in_frame_freezes_rendering
    (w : World) (h : Z) (events : list Event) :
  renderAnimationFrame w = Some h -> pendingFrames w = 1%nat ->
  checkRaises w = true ->
  forallb (fun e => negb (rendersDirectly e)) events = true ->
  let w1 := step w Frame in
  renderAnimationFrame w1 = Some h
  /\ isLoadingMore w1 = true
  /\ frameRequests (run events w1) = frameRequests w
  /\ pendingFrames (run events w1) = O
  /\ renderAnimationFrame (run events w1) = Some h
  /\ renderedItems (run events w1) = renderedItems w1.
Proof.
  intros Hr Hp Hraise Hev w1.
  destruct (frame_settles w h O Hr Hp) as [H1 [H2 H3]].
  rewrite Hraise in H3. fold w1 in H1, H2, H3.
  assert (Hguard : isLoadingMore w1 = true).
  { subst w1. cbn [step]. rewrite Hp. unfold render.
    match goal with |- context [syncDOM ?x] =>
      destruct (syncDOM_frame x) as [rel ->] end.
    match goal with |- context [checkRaises ?x] =>
      assert (Hx : checkRaises x = true) by exact Hraise;
      rewrite Hx; destruct (checkRaises_true x Hx) as [d [Happ ->]];
      rewrite (raise_shape d x Happ) end.
    reflexivity. }
  split; [exact H3|]. split; [exact Hguard|].
  assert (Hrun : forall w0,
            renderAnimationFrame w0 = Some h -> pendingFrames w0 = O ->
            renderAnimationFrame (run events w0) = Some h
            /\ pendingFrames (run events w0) = O
            /\ frameRequests (run events w0) = frameRequests w0
            /\ renderedItems (run events w0) = renderedItems w0).
  { revert Hev. induction events as [|e rest IH]; intros Hev w0 Hr0 Hp0;
      [now repeat split|].
    cbn [forallb] in Hev. apply andb_true_iff in Hev.
    destruct Hev as [He Hrest]. apply negb_true_iff in He.
    destruct (step_frozen w0 h e He Hr0 Hp0) as [K1 [K2 [K3 K4]]].
    unfold run in *. cbn [fold_left].
    destruct (IH Hrest (step w0 e) K1 K2) as [L1 [L2 [L3 L4]]].
    rewrite L3, L4, K3, K4. now repeat split. }
  destruct (Hrun w1 H3 H1) as [L1 [L2 [L3 L4]]].
  rewrite L3, H2. now repeat split.
Qed.

End Session.

(* ================================================================== *)
(** * The zoom range *)

Section ZoomRange.

Lemma SFcompare_antisym (x y : spec_float) :
  SFcompare y x = option_map CompOpp (SFcompare x y).
Proof.
  destruct x as [sx|sx| |sx mx ex], y as [sy|sy| |sy my ey];
    cbn [SFcompare option_map]; try reflexivity;
    try (destruct sx; reflexivity); try (destruct sy; reflexivity);
    try (destruct sx, sy; reflexivity).
  f_equal. destruct sx, sy; try reflexivity;
    rewrite (Z.compare_antisym ex ey);
    destruct (ex ?= ey); cbn [CompOpp]; try reflexivity.
  - f_equal. symmetry. apply (Pos.compare_cont_antisym mx my Eq).
  - symmetry. apply (Pos.compare_cont_antisym mx my Eq).
Qed.

Lemma not_nan_compare (x : float) :
  PrimFloat.is_nan x = false ->
  SFcompare (Prim2SF x) (Prim2SF x) = Some Eq.
Proof.
  unfold PrimFloat.is_nan. intros H. apply negb_false_iff in H.
  rewrite FloatAxioms.eqb_spec in H. unfold SFeqb in H.
  destruct (SFcompare (Prim2SF x) (Prim2SF x)) as [[| |]|]; try discriminate.
  reflexivity.
Qed.

Lemma compare_defined (x y : float) :
  PrimFloat.is_nan x = false -> PrimFloat.is_nan y = false ->
  exists c, SFcompare (Prim2SF x) (Prim2SF y) = Some c.
Proof.
  intros Hx Hy. apply not_nan_compare in Hx, Hy.
  destruct (Prim2SF x), (Prim2SF y); cbn [SFcompare] in *;
    try discriminate; eauto.
Qed.

Lemma leb_refl (x : float) :
  PrimFloat.is_nan x = false -> PrimFloat.leb x x = true.
Proof.
  intros H. rewrite leb_spec. unfold SFleb. now rewrite not_nan_compare.
Qed.

Lemma ltb_leb (x y : float) :
  PrimFloat.ltb x y = true -> PrimFloat.leb x y = true.
Proof.
  rewrite ltb_spec, leb_spec. unfold SFltb, SFleb.
  now destruct (SFcompare (Prim2SF x) (Prim2SF y)) as [[| |]|].
Qed.

Lemma not_ltb_leb (x y : float) :
  PrimFloat.is_nan x = false -> PrimFloat.is_nan y = false ->
  PrimFloat.ltb y x = false -> PrimFloat.leb x y = true.
Proof.
  intros Hx Hy. rewrite ltb_spec, leb_spec. unfold SFltb, SFleb.
  rewrite (SFcompare_antisym (Prim2SF x) (Prim2SF y)).
  destruct (compare_defined x y Hx Hy) as [c ->].
  now destruct c.
Qed.

(** [Math.max(lo, Math.min(hi, z))] is NaN exactly when [z] is, and lies
    between [lo] and [hi] otherwise. *)
Lemma clamp_range (lo hi z : float) :
  PrimFloat.is_nan lo = false -> PrimFloat.is_nan hi = false ->
  PrimFloat.leb lo hi = true ->
  let r := JS.Math_max lo (JS.Math_min hi z) in
  (PrimFloat.is_nan z = true /\ PrimFloat.is_nan r = true)
  \/ (PrimFloat.is_nan z = false /\ PrimFloat.is_nan r = false
      /\ PrimFloat.leb lo r = true /\ PrimFloat.leb r hi = true).
Proof.
  intros Hlo Hhi Hle r.
  destruct (PrimFloat.is_nan z) eqn:Hz.
  - left. split; [reflexivity|]. subst r. unfold JS.Math_min.
    rewrite Hz, orb_true_r. unfold JS.Math_max.
    now rewrite orb_true_r.
  - right. split; [reflexivity|].
    assert (Hm : PrimFloat.is_nan (JS.Math_min hi z) = false
                 /\ PrimFloat.leb (JS.Math_min hi z) hi = true).
    { unfold JS.Math_min. rewrite Hhi, Hz. cbn [orb].
      destruct (PrimFloat.ltb hi z) eqn:E1; [split; [exact Hhi|]|].
      - now apply leb_refl.
      - destruct (PrimFloat.ltb z hi) eqn:E2.
        + split; [exact Hz | now apply ltb_leb].
        + destruct (JS.is_neg_zero hi).
          * split; [exact Hhi | now apply leb_refl].
          * split; [exact Hz | now apply not_ltb_leb]. }
    destruct Hm as [Hmn Hmle]. subst r.
    set (m := JS.Math_min hi z) in *. unfold JS.Math_max.
    rewrite Hlo, Hmn. cbn [orb].
    destruct (PrimFloat.ltb lo m) eqn:E1.
    + repeat split; [exact Hmn | now apply ltb_leb | exact Hmle].
    + destruct (PrimFloat.ltb m lo) eqn:E2.
      * repeat split; [exact Hlo | now apply leb_refl | exact Hle].
      * destruct (JS.is_neg_zero lo).
        -- repeat split; [exact Hmn | now apply not_ltb_leb | exact Hmle].
        -- repeat split; [exact Hlo | now apply leb_refl | exact Hle].
Qed.

Lemma zoomAt_clamped (deltaY mouseX mouseY : float) (c : Camera) :
  zoomClamped (zoomAt deltaY mouseX mouseY c) = true.
Proof.
  unfold zoomClamped, zoomAt. cbn [set_pan set_zoom zoom].
  match goal with |- context [JS.Math_max ?lo (JS.Math_min ?hi ?z)] =>
    destruct (clamp_range lo hi z eq_refl eq_refl eq_refl)
      as [[_ Hn]|[_ [_ [H1 H2]]]] end.
  - now rewrite Hn.
  - rewrite H1, H2. apply orb_true_r.
Qed.

Lemma check_zoom (w : World) :
  zoom (state (checkBoundariesAndLoad w)) = zoom (state w).
Proof. now destruct (check_camera w) as [dims ->]. Qed.

Lemma render_zoom (w : World) : zoom (state (render w)) = zoom (state w).
Proof.
  destruct (render_cases w) as [-> | ->];
    destruct (syncDOM_frame w) as [rel ->];
    cbn [set_renderAnimationFrame state]; now rewrite check_zoom.
Qed.

Lemma step_zoomClamped (w : World) (e : Event) :
  zoomClamped (state w) = true -> zoomClamped (state (step w e)) = true.
Proof.
  intros H. unfold zoomClamped in *. destruct e; cbn [step].
  - unfold handleMouseDown. now destruct (negb _).
  - unfold handleMouseMove. destruct (negb _); [assumption|].
    now rewrite check_zoom, (proj1 (scheduleRender_frame _)).
  - unfold handleMouseUp. destruct (negb _); [assumption|].
    now rewrite (proj1 (scheduleRender_frame _)).
  - unfold handleWheel.
    rewrite check_zoom, (proj1 (scheduleRender_frame _)).
    apply (zoomAt_clamped deltaY (clientX - rectLeft) (clientY - rectTop)
             (state w)).
  - unfold handleResize. now rewrite (proj1 (scheduleRender_frame _)).
  - unfold handleDoubleClick. destruct itemId as [z|]; [|assumption].
    destruct (z =? 0); [assumption|]. now destruct (findItem _ _).
  - destruct (pendingFrames w); [assumption|]. now rewrite render_zoom.
  - unfold initialize, loadFromCenter. now rewrite render_zoom.
  - destruct data; [assumption|]. unfold initialize, loadFromCenter.
    now rewrite render_zoom.
  - exact H.
Qed.

(** X18: the zoom never leaves its range.  In every state the page can
    reach, the zoom factor is between 0.1 and 5 (bounds included), or it is
    NaN; and a wheel turn yields NaN exactly when the old zoom plus the
    scaled wheel delta is NaN. *)
Theorem zoom_stays_in_range (events : list Event)
    (deltaY mouseX mouseY : float) (c : Camera) :
  zoomClamped (state (run events initialWorld)) = true
  /\ PrimFloat.is_nan (zoom (zoomAt deltaY mouseX mouseY c))
     = PrimFloat.is_nan
         (zoom c + - deltaY * 0x1.999999999999ap-4 / 1000)%float.
Proof.
  split.
  - assert (H : forall w, zoomClamped (state w) = true ->
                          zoomClamped (state (run events w)) = true).
    { induction events as [|e rest IH]; intros w Hw; [exact Hw|].
      unfold run in *. cbn [fold_left]. now apply IH, step_zoomClamped. }
    apply H. reflexivity.
  - unfold zoomAt. cbn [set_pan set_zoom zoom].
    match goal with |- context [JS.Math_max ?lo (JS.Math_min ?hi ?z)] =>
      destruct (clamp_range lo hi z eq_refl eq_refl eq_refl)
        as [[Hz Hn]|[Hz [Hn _]]] end; now rewrite Hz, Hn.
Qed.

End ZoomRange.

(* ================================================================== *)
(** * Zoom anchoring *)

Section ZoomAnchoring.














End ZoomAnchoring.

End Engine.

(* ================================================================== *)
(** * The theorems at work

    The engine is the one of 125000 arguments, except where an append is to
    raise: there it is the smallest one. *)

(** C7, as the specification words it, fails once real data is loaded: the
    ids of [dupJson] come out as 2 and 2, and the store takes them as they
    are. *)
Lemma idsAlwaysUnique_counterexample :
  loadItemData (Some dupJson) = Some [mkItem 2 0 0 0 0; mkItem 2 200 0 1 0]
  /\ map item_id
       (ITEM_DATA
          (store (run v8
                    [RealDataLoaded [mkItem 2 0 0 0 0; mkItem 2 200 0 1 0]
                       800 600] initialWorld))) = [2; 2]
  /\ ~ idsAlwaysUnique v8.
Proof.
  assert (Hids : map item_id
                   (ITEM_DATA
                      (store (run v8
                                [RealDataLoaded
                                   [mkItem 2 0 0 0 0; mkItem 2 200 0 1 0]
                                   800 600] initialWorld))) = [2; 2])
    by (vm_compute; reflexivity).
  split; [vm_compute; reflexivity|]. split; [exact Hids|].
  intros Hall.
  specialize (Hall [RealDataLoaded [mkItem 2 0 0 0 0; mkItem 2 200 0 1 0]
                      800 600]).
  rewrite Hids in Hall. inversion Hall as [|? ? Hnotin _]; subst.
  apply Hnotin. now left.
Qed.

(** The amended C7 on the generated store, after a left append, an empty
    top append and a right append. *)
Lemma store_ids_unique_and_sequential_witness :
  Forall (fun call => 0 <= fst call) [(3, Left); (0, Top); (4, Right)]
  /\ 0 <= 2
  /\ 2000 + totalCount [(3, Left); (0, Top); (4, Right)] <= argumentLimit v8
  /\ exists s s' newItems,
       appendAll v8 [(3, Left); (0, Top); (4, Right)] initialStore = Some s
       /\ addMoreItems v8 2 Top s = Some (s', newItems)
       /\ NoDup (map item_id (ITEM_DATA s))
       /\ map item_id newItems
          = idsFrom (globalItemIdCounter s + 1) (Z.to_nat 2)
       /\ NoDup (map item_id (ITEM_DATA s')).
Proof.
  assert (H1 : Forall (fun call : Z * Direction => 0 <= fst call)
                 [(3, Left); (0, Top); (4, Right)])
    by (repeat constructor; simpl; lia).
  assert (H2 : 0 <= 2) by lia.
  assert (H3 : 2000 + totalCount [(3, Left); (0, Top); (4, Right)]
               <= argumentLimit v8) by (vm_compute; discriminate).
  split; [exact H1|]. split; [exact H2|]. split; [exact H3|].
  destruct (store_ids_unique_and_sequential v8 _ 2 Top H1 H2) as [Hall Hex].
  destruct (Hex H3) as [s [s' [new [Hs Happ]]]].
  destruct (Hall s s' new Hs Happ) as [Hnd [_ [Hids [_ [Hnd' _]]]]].
  exists s, s', new.
  split; [exact Hs|]. split; [exact Happ|]. split; [exact Hnd|].
  split; [exact Hids | exact Hnd'].
Defined.

Lemma append_left_tiles_witness :
  usingRealData sixtyItems = false /\
  JS.ceil_div (Z.of_nat (length (ITEM_DATA sixtyItems))) GRID_COLUMNS = 2 /\
  JS.Math_min_list (map item_column (ITEM_DATA sixtyItems)) = Some 0 /\
  exists s' newItems,
    addMoreItems v8 5 Left sixtyItems = Some (s', newItems) /\
    map item_column newItems = [-3; -2; -1; -3; -2] /\
    map item_x newItems = [-600; -400; -200; -600; -400] /\
    Forall (fun item => item_column item < 0) newItems /\
    ITEM_DATA s' = newItems ++ ITEM_DATA sixtyItems.
Proof.
  split; [reflexivity|split; [reflexivity|split; [reflexivity|]]].
  apply (append_left_tiles v8 sixtyItems); try reflexivity.
  apply columnConsistent_check. vm_compute. reflexivity.
Defined.

(** C1, as the specification words it, fails on the page dragged to the top
    left corner: after the reconciliation both the left and the top tests
    hold, and the boundary check of that pass appends to the left only. *)
Lemma appendsEveryDirection_counterexample :
  isLoadingMore (cornerDragged v8) = false
  /\ addMoreInstalled (cornerDragged v8) = true
  /\ withinThreshold Left (syncDOM (cornerDragged v8)) = true
  /\ withinThreshold Top (syncDOM (cornerDragged v8)) = true
  /\ skipn (length (appendCalls (cornerDragged v8)))
       (appendCalls (render v8 (cornerDragged v8))) = [(2000, Left)]
  /\ ~ appendsEveryDirectionWithinThreshold v8 (cornerDragged v8).
Proof.
  assert (Htop : withinThreshold Top (syncDOM (cornerDragged v8)) = true)
    by (vm_compute; reflexivity).
  assert (Hcalls : skipn (length (appendCalls (cornerDragged v8)))
                     (appendCalls (render v8 (cornerDragged v8)))
                   = [(2000, Left)])
    by (vm_compute; reflexivity).
  repeat split; try (vm_compute; reflexivity); try assumption.
  intros Hall. specialize (Hall Top Htop). rewrite Hcalls in Hall.
  destruct Hall as [E|[]]. discriminate.
Qed.

(** The amended C1 at the corner page: the left and the top tests both hold,
    left comes first in the chain, and the pass appends to the left; the
    append returns, the guard is clear again and a render is scheduled. *)
Lemma render_appends_first_direction_witness :
  isLoadingMore cornerWorld = false
  /\ ITEM_DATA (store cornerWorld) <> []
  /\ addMoreInstalled cornerWorld = true
  /\ appendCalls (render v8 cornerWorld) = [(2000, Left)]
  /\ isLoadingMore (render v8 cornerWorld) = false
  /\ scheduleCalls (render v8 cornerWorld) = 1%nat
  /\ renderAnimationFrame (render v8 cornerWorld) = None.
Proof.
  assert (Hne : ITEM_DATA (store cornerWorld) <> [])
    by (vm_compute; discriminate).
  pose proof (render_appends_first_direction v8 cornerWorld eq_refl Hne
                eq_refl) as H.
  assert (E : firstWithinThreshold (syncDOM cornerWorld) = Some Left)
    by (vm_compute; reflexivity).
  cbv zeta in H. rewrite E in H.
  destruct H as [Hcalls H].
  destruct (addMoreItems_total v8 2000 Left (store cornerWorld) Hne)
    as [s' [new Happ]]; [vm_compute; discriminate|].
  rewrite Happ in H. destruct H as [_ [_ [Hguard [Hsched Hframe]]]].
  split; [reflexivity|]. split; [exact Hne|]. split; [reflexivity|].
  split; [exact Hcalls|]. split; [exact Hguard|].
  split; [exact Hsched | exact Hframe].
Defined.

(** C2 at the crowded page: the keys 500 and 502 (distances 50 and 30) are
    released and 501 (distance 10) stays. *)
Lemma eviction_takes_farthest_witness :
  NoDup (map fst (renderedItems crowdedWorld))
  /\ reg_size (renderedItems crowdedWorld) = MAX_DOM_NODES + 2
  /\ itemDistances (idsFrom 1 499) crowdedWorld
     = [("500"%string, 50%float); ("501"%string, 10%float);
        ("502"%string, 30%float)]
  /\ released (evictUnderPressure (idsFrom 1 499) crowdedWorld)
     = ["500"%string; "502"%string]
  /\ reg_has "501" (renderedItems
                      (evictUnderPressure (idsFrom 1 499) crowdedWorld))
     = true.
Proof.
  assert (Hnd : NoDup (map fst (renderedItems crowdedWorld)))
    by (apply NoDup_toString_keys, idsFrom_NoDup).
  assert (Hsize : reg_size (renderedItems crowdedWorld) = MAX_DOM_NODES + 2)
    by (vm_compute; reflexivity).
  assert (Hdist : itemDistances (idsFrom 1 499) crowdedWorld
                  = [("500"%string, 50%float); ("501"%string, 10%float);
                     ("502"%string, 30%float)])
    by (vm_compute; reflexivity).
  destruct (eviction_takes_farthest crowdedWorld (idsFrom 1 499)
              "500" "501" "502" crowdedWorld (idsFrom 1 499)
              Hnd Hsize Hdist) as [_ [Hrel [_ [_ [Hkeep _]]]]].
  split; [exact Hnd|]. split; [exact Hsize|]. split; [exact Hdist|].
  split; [exact Hrel | exact Hkeep].
Defined.

(** C3 at the corner page, whose registry is still empty. *)
Lemma live_count_within_cap_witness :
  registryWf (renderedItems cornerWorld)
  /\ (reg_size (renderedItems (syncDOM cornerWorld)) <= MAX_DOM_NODES
      \/ MAX_DOM_NODES
         < Z.of_nat (length (findVisibleItems (state cornerWorld)
                               (ITEM_DATA (store cornerWorld)))))
  /\ registryWf (renderedItems (syncDOM cornerWorld)).
Proof.
  assert (Hwf : registryWf (renderedItems cornerWorld))
    by (split; constructor).
  destruct (live_count_within_cap cornerWorld Hwf) as [Hcap [_ Hwf']].
  split; [exact Hwf|]. split; [exact Hcap | exact Hwf'].
Defined.

(** C6 at the corner page: the check fired while the left append is in
    flight changes nothing, and the two checks make one append. *)
Lemma guarded_check_is_noop_witness :
  isLoadingMore (set_isLoadingMore true cornerWorld) = true
  /\ isLoadingMore cornerWorld = false
  /\ ITEM_DATA (store cornerWorld) <> []
  /\ addMoreInstalled cornerWorld = true
  /\ nearBoundary cornerWorld = Some Left
  /\ checkBoundariesAndLoad v8 (beginLoad v8 Left cornerWorld)
     = beginLoad v8 Left cornerWorld
  /\ appendCalls (checkBoundariesAndLoad v8 cornerWorld) = [(2000, Left)]
  /\ appendCalls
       (finishLoad
          (checkBoundariesAndLoad v8 (beginLoad v8 Left cornerWorld)))
     = [(2000, Left)].
Proof.
  assert (Hne : ITEM_DATA (store cornerWorld) <> [])
    by (vm_compute; discriminate).
  assert (Hd : nearBoundary cornerWorld = Some Left)
    by (vm_compute; reflexivity).
  destruct (guarded_check_is_noop v8 (set_isLoadingMore true cornerWorld)
              cornerWorld Left eq_refl eq_refl Hne eq_refl Hd)
    as [_ [_ [_ [Hnoop [_ [Hone Hcalls]]]]]].
  split; [reflexivity|]. split; [reflexivity|]. split; [exact Hne|].
  split; [reflexivity|]. split; [exact Hd|].
  split; [exact Hnoop|]. split; [exact Hone | exact Hcalls].
Defined.

(** C10 at the corner page with the handler missing: after the first check
    the guard stays raised through a drag, a late installation of the
    handler, a frame and a wheel turn, and nothing is ever appended. *)
Lemma missing_handler_blocks_loading_witness :
  isLoadingMore (set_addMoreInstalled false cornerWorld) = false
  /\ ITEM_DATA (store (set_addMoreInstalled false cornerWorld)) <> []
  /\ nearBoundary (set_addMoreInstalled false cornerWorld) = Some Left
  /\ addMoreInstalled (set_addMoreInstalled false cornerWorld) = false
  /\ isLoadingMore
       (run v8
          [MouseDown 0 5 5; MouseMove 9 9; SetAppendHandler true; Frame;
           Wheel 120 400 300 0 0]
          (checkBoundariesAndLoad v8
             (set_addMoreInstalled false cornerWorld)))
     = true
  /\ appendCalls
       (run v8
          [MouseDown 0 5 5; MouseMove 9 9; SetAppendHandler true; Frame;
           Wheel 120 400 300 0 0]
          (checkBoundariesAndLoad v8
             (set_addMoreInstalled false cornerWorld)))
     = [].
Proof.
  assert (Hne : ITEM_DATA (store (set_addMoreInstalled false cornerWorld))
                <> []) by (vm_compute; discriminate).
  assert (Hd : nearBoundary (set_addMoreInstalled false cornerWorld)
               = Some Left) by (vm_compute; reflexivity).
  destruct (missing_handler_blocks_loading v8
              (set_addMoreInstalled false cornerWorld) Left
              [MouseDown 0 5 5; MouseMove 9 9; SetAppendHandler true; Frame;
               Wheel 120 400 300 0 0] eq_refl Hne Hd eq_refl)
    as [_ [_ [Hflag [Hcalls _]]]].
  split; [reflexivity|]. split; [exact Hne|]. split; [exact Hd|].
  split; [reflexivity|]. split; [exact Hflag | exact Hcalls].
Defined.

(** X1 and X19 after a left and a top append to the initial store. *)
Lemma store_positions_on_grid_witness :
  exists s,
    appendAll v8 [(3, Left); (2, Top)] initialStore = Some s
    /\ ITEM_DATA s <> []
    /\ Forall positionConsistent (ITEM_DATA s).
Proof.
  destruct (appendAll_returns v8 [(3, Left); (2, Top)] initialStore)
    as [s [Hs _]].
  - repeat constructor; simpl; lia.
  - reflexivity.
  - vm_compute; discriminate.
  - vm_compute; discriminate.
  - exists s. split; [exact Hs|].
    exact (store_positions_on_grid v8 [(3, Left); (2, Top)] s Hs).
Defined.

Lemma store_cells_distinct_witness :
  exists s,
    appendAll v8 [(3, Left); (2, Top)] initialStore = Some s
    /\ NoDup (map cellOf (ITEM_DATA s)).
Proof.
  destruct (appendAll_returns v8 [(3, Left); (2, Top)] initialStore)
    as [s [Hs _]].
  - repeat constructor; simpl; lia.
  - reflexivity.
  - vm_compute; discriminate.
  - vm_compute; discriminate.
  - exists s. split; [exact Hs|].
    exact (store_cells_distinct v8 [(3, Left); (2, Top)] s Hs).
Defined.

Lemma generated_item_cell_witness :
  0 <= 1234 < 2000
  /\ nth_error (ITEM_DATA (generatedStore 2000)) (Z.to_nat 1234)
     = Some (mkItem 1235 6800 4800 34 24).
Proof.
  assert (H : 0 <= 1234 < 2000) by lia.
  split; [exact H|]. exact (generated_item_cell 2000 1234 H).
Defined.

Lemma appends_at_end_extend_grid_witness :
  Forall (fun call => 0 <= fst call /\ towardsEnd (snd call) = true)
    [(2000, Right); (50, Bottom)]
  /\ appendAll v8 [(2000, Right); (50, Bottom)] initialStore
     = Some (generatedStore 4050).
Proof.
  assert (H : Forall (fun call : Z * Direction =>
                        0 <= fst call /\ towardsEnd (snd call) = true)
                [(2000, Right); (50, Bottom)])
    by (repeat constructor; simpl; lia).
  split; [exact H|]. exact (appends_at_end_extend_grid v8 _ H).
Defined.

Lemma append_left_top_clear_of_old_witness :
  usingRealData sixtyItems = false /\ ITEM_DATA sixtyItems <> []
  /\ spreadFits v8 sixtyItems /\ 0 <= 5
  /\ exists s' newItems,
       addMoreItems v8 5 Left sixtyItems = Some (s', newItems)
       /\ Z.of_nat (length newItems) = 5
       /\ Forall (fun n => Forall (fun o => item_x n + ITEM_SIZE <= item_x o)
                             (ITEM_DATA sixtyItems)) newItems.
Proof.
  assert (Hne : ITEM_DATA sixtyItems <> []) by (vm_compute; discriminate).
  assert (Hfit : spreadFits v8 sixtyItems) by (vm_compute; discriminate).
  assert (Hc : 0 <= 5) by lia.
  split; [reflexivity|]. split; [exact Hne|]. split; [exact Hfit|].
  split; [exact Hc|].
  exact (proj1 (append_left_top_clear_of_old v8 5 sixtyItems eq_refl Hne
                  Hfit Hc)).
Defined.

Lemma append_grows_canvas_downwards_witness :
  usingRealData sixtyItems = false /\ ITEM_DATA sixtyItems <> [] /\ 0 <= 40
  /\ exists s' newItems,
       addMoreItems v8 (GRID_COLUMNS * 40) Left sixtyItems
       = Some (s', newItems)
       /\ calculateCanvasDimensions s'
          = (GRID_COLUMNS * ITEM_SIZE,
             snd (calculateCanvasDimensions sixtyItems) + 40 * ITEM_SIZE).
Proof.
  assert (Hne : ITEM_DATA sixtyItems <> []) by (vm_compute; discriminate).
  assert (Hk : 0 <= 40) by lia.
  split; [reflexivity|]. split; [exact Hne|]. split; [exact Hk|].
  destruct (addMoreItems_total v8 (GRID_COLUMNS * 40) Left sixtyItems Hne)
    as [s' [new Happ]]; [vm_compute; discriminate|].
  exists s', new. split; [exact Happ|].
  exact (append_grows_canvas_downwards v8 40 Left sixtyItems s' new eq_refl
           Hne Hk Happ).
Defined.

Lemma loadItemData_layout_witness :
  hasRealUrls sampleJson = true
  /\ Forall (fun e => json_hasType e = true \/ json_src e <> None) sampleJson
  /\ exists data,
       loadItemData (Some sampleJson) = Some data
       /\ Forall2 loadedAs (combine (seq 0 (length sampleJson)) sampleJson)
            data.
Proof.
  assert (H : Forall (fun e => json_hasType e = true \/ json_src e <> None)
                sampleJson)
    by (apply Forall_cons; [now left|]; apply Forall_cons; [now left|];
        apply Forall_cons; [right; discriminate | apply Forall_nil]).
  split; [reflexivity|]. split; [exact H|].
  exact (loadItemData_layout sampleJson eq_refl H).
Defined.

Lemma loadItemData_gives_up_witness :
  In (mkJsonItem (Some 9) false None) brokenJson
  /\ hasRealUrls brokenJson = true
  /\ loadItemData (Some brokenJson) = None.
Proof.
  assert (H : In (mkJsonItem (Some 9) false None) brokenJson)
    by (simpl; tauto).
  split; [exact H|]. split; [reflexivity|].
  exact (loadItemData_gives_up (Some brokenJson) brokenJson _ eq_refl H
           eq_refl eq_refl).
Defined.

Lemma real_data_freezes_store_witness :
  [mkItem 1 0 0 0 0] <> []
  /\ forallb (fun e => negb (isDataLoad e))
       [MouseDown 0 0 0; MouseMove 50 50; Frame; Initialize 640 480] = true
  /\ ITEM_DATA
       (store (run v8
                 (RealDataLoaded [mkItem 1 0 0 0 0] 800 600
                    :: [MouseDown 0 0 0; MouseMove 50 50; Frame;
                        Initialize 640 480]) initialWorld))
     = [mkItem 1 0 0 0 0].
Proof.
  assert (Hne : [mkItem 1 0 0 0 0] <> []) by discriminate.
  split; [exact Hne|]. split; [reflexivity|].
  exact (proj1 (real_data_freezes_store v8 [mkItem 1 0 0 0 0] 800 600
                  [MouseDown 0 0 0; MouseMove 50 50; Frame;
                   Initialize 640 480] initialWorld Hne eq_refl)).
Defined.

Lemma eviction_count_witness :
  NoDup (map fst (renderedItems crowdedWorld))
  /\ reg_size (renderedItems (evictUnderPressure (idsFrom 1 499) crowdedWorld))
     = reg_size (renderedItems crowdedWorld)
       - Z.min (Z.max 0 (reg_size (renderedItems crowdedWorld)
                         - MAX_DOM_NODES))
           (Z.of_nat (length (itemDistances (idsFrom 1 499) crowdedWorld))).
Proof.
  assert (Hnd : NoDup (map fst (renderedItems crowdedWorld)))
    by (apply NoDup_toString_keys, idsFrom_NoDup).
  split; [exact Hnd|].
  exact (proj1 (eviction_count (idsFrom 1 499) crowdedWorld Hnd)).
Defined.


(** X14 at the corner page with a frame requested: the append of the frame
    returns and the handle is cleared; on the overfull page it raises and
    the handle stays. *)
Lemma frame_requests_no_frame_witness :
  renderAnimationFrame (scheduleRender cornerWorld) = Some 1
  /\ pendingFrames (scheduleRender cornerWorld) = 1%nat
  /\ pendingFrames (step v8 (scheduleRender cornerWorld) Frame) = O
  /\ renderAnimationFrame (step v8 (scheduleRender cornerWorld) Frame) = None
  /\ renderAnimationFrame
       (step smallEngine (scheduleRender overfullWorld) Frame) = Some 1.
Proof.
  destruct (frame_requests_no_frame v8 (scheduleRender cornerWorld) 1
              eq_refl eq_refl) as [H1 [_ H2]].
  destruct (frame_requests_no_frame smallEngine
              (scheduleRender overfullWorld) 1 eq_refl eq_refl)
    as [_ [_ H3]].
  assert (E : checkRaises v8 (scheduleRender cornerWorld) = false)
    by (vm_compute; reflexivity).
  assert (E' : checkRaises smallEngine (scheduleRender overfullWorld) = true)
    by (vm_compute; reflexivity).
  rewrite E in H2. rewrite E' in H3.
  split; [reflexivity|]. split; [reflexivity|]. split; [exact H1|].
  split; [exact H2 | exact H3].
Defined.

Lemma right_boundary_keeps_loading_witness :
  isLoadingMore rightEdgeWorld = false
  /\ ITEM_DATA (store rightEdgeWorld) <> []
  /\ addMoreInstalled rightEdgeWorld = true
  /\ withinThreshold Right rightEdgeWorld = true
  /\ appendCalls (Nat.iter 3 (checkBoundariesAndLoad v8) rightEdgeWorld)
     = appendCalls rightEdgeWorld ++ repeat (2000, Right) 3.
Proof.
  assert (Hne : ITEM_DATA (store rightEdgeWorld) <> [])
    by (vm_compute; discriminate).
  assert (Hr : withinThreshold Right rightEdgeWorld = true)
    by (vm_compute; reflexivity).
  split; [reflexivity|]. split; [exact Hne|]. split; [reflexivity|].
  split; [exact Hr|].
  exact (proj1 (right_boundary_keeps_loading v8 3 rightEdgeWorld eq_refl Hne
                  eq_refl Hr)).
Defined.

Lemma generated_store_within_canvas_witness :
  0 < 60
  /\ Forall (fun item =>
               0 <= item_x item
               /\ item_x item + ITEM_SIZE
                  <= fst (calculateCanvasDimensions (generatedStore 60))
               /\ 0 <= item_y item
               /\ item_y item + ITEM_SIZE
                  <= snd (calculateCanvasDimensions (generatedStore 60)))
       (ITEM_DATA (generatedStore 60)).
Proof.
  assert (H : 0 < 60) by lia.
  split; [exact H|]. exact (generated_store_within_canvas 60 H).
Defined.

Lemma session_store_invariant_witness :
  forallb (fun e => negb (isDataLoad e)) (dragToCorner ++ [Frame]) = true
  /\ NoDup (map item_id
              (ITEM_DATA
                 (store (run v8 (dragToCorner ++ [Frame]) initialWorld))))
  /\ NoDup (map cellOf
              (ITEM_DATA
                 (store (run v8 (dragToCorner ++ [Frame]) initialWorld)))).
Proof.
  destruct (session_store_invariant v8 (dragToCorner ++ [Frame]) eq_refl)
    as [H1 [H2 _]].
  split; [reflexivity|]. split; [exact H1 | exact H2].
Defined.

Lemma guard_is_never_left_raised_witness :
  forallb keepsHandler (dragToCorner ++ [Frame; SetAppendHandler true]) = true
  /\ 2000 + 2000 * Z.of_nat
                      (length (dragToCorner ++ [Frame; SetAppendHandler true]))
     <= argumentLimit v8
  /\ isLoadingMore
       (run v8 (dragToCorner ++ [Frame; SetAppendHandler true]) initialWorld)
     = false.
Proof.
  assert (Hlimit : 2000 + 2000 * Z.of_nat
                     (length (dragToCorner
                              ++ [Frame; SetAppendHandler true]))
                   <= argumentLimit v8) by (vm_compute; discriminate).
  split; [reflexivity|]. split; [exact Hlimit|].
  exact (proj1 (guard_is_never_left_raised v8
                  (dragToCorner ++ [Frame; SetAppendHandler true]) eq_refl
                  Hlimit)).
Defined.

(** X23 on the overfull page, with the smallest engine: the left append
    raises, and a drag, a frame and a wheel turn later the guard is still
    raised and nothing more has been appended. *)
Lemma raising_append_blocks_loading_witness :
  isLoadingMore overfullWorld = false
  /\ nearBoundary overfullWorld = Some Left
  /\ argumentLimit smallEngine
     < Z.of_nat (length (ITEM_DATA (store overfullWorld)))
  /\ addMoreItems smallEngine 2000 Left (store overfullWorld) = None
  /\ isLoadingMore
       (run smallEngine
          [MouseDown 0 5 5; MouseMove 9 9; Frame; Wheel 120 400 300 0 0]
          (checkBoundariesAndLoad smallEngine overfullWorld)) = true
  /\ appendCalls
       (run smallEngine
          [MouseDown 0 5 5; MouseMove 9 9; Frame; Wheel 120 400 300 0 0]
          (checkBoundariesAndLoad smallEngine overfullWorld))
     = [(2000, Left)].
Proof.
  assert (Hlen : Z.of_nat (length (ITEM_DATA (store overfullWorld)))
                 = 66000).
  { change (store overfullWorld) with (generatedStore 66000).
    apply generatedStore_length. lia. }
  assert (Hne : ITEM_DATA (store overfullWorld) <> []).
  { intros E. rewrite E in Hlen. discriminate. }
  assert (Hd : nearBoundary overfullWorld = Some Left)
    by (vm_compute; reflexivity).
  assert (Hbig : argumentLimit smallEngine
                 < Z.of_nat (length (ITEM_DATA (store overfullWorld))))
    by (rewrite Hlen; reflexivity).
  destruct (raising_append_blocks_loading smallEngine overfullWorld Left
              [MouseDown 0 5 5; MouseMove 9 9; Frame; Wheel 120 400 300 0 0]
              eq_refl Hne Hd eq_refl eq_refl eq_refl Hbig)
    as [Happ [_ [_ [_ [_ [Hflag [Hcalls _]]]]]]].
  split; [reflexivity|]. split; [exact Hd|]. split; [exact Hbig|].
  split; [exact Happ|]. split; [exact Hflag | exact Hcalls].
Defined.

(** X24 on the overfull page with a frame requested, with the smallest
    engine: the left append of the frame raises, and through a drag, a wheel
    turn, a resize and a mouse-up no other frame is requested. *)
Lemma raise_in_frame_freezes_rendering_witness :
  renderAnimationFrame (scheduleRender overfullWorld) = Some 1
  /\ pendingFrames (scheduleRender overfullWorld) = 1%nat
  /\ checkRaises smallEngine (scheduleRender overfullWorld) = true
  /\ frameRequests
       (run smallEngine
          [MouseDown 0 5 5; MouseMove 9 9; Wheel 120 400 300 0 0; Frame;
           Resize 1024 768; MouseUp]
          (step smallEngine (scheduleRender overfullWorld) Frame)) = 1%nat
  /\ pendingFrames
       (run smallEngine
          [MouseDown 0 5 5; MouseMove 9 9; Wheel 120 400 300 0 0; Frame;
           Resize 1024 768; MouseUp]
          (step smallEngine (scheduleRender overfullWorld) Frame)) = O.
Proof.
  assert (Hraise : checkRaises smallEngine (scheduleRender overfullWorld)
                   = true) by (vm_compute; reflexivity).
  destruct (raise_in_frame_freezes_rendering smallEngine
              (scheduleRender overfullWorld) 1
              [MouseDown 0 5 5; MouseMove 9 9; Wheel 120 400 300 0 0; Frame;
               Resize 1024 768; MouseUp] eq_refl eq_refl Hraise eq_refl)
    as [_ [_ [Hreq [Hpend _]]]].
  split; [reflexivity|]. split; [reflexivity|]. split; [exact Hraise|].
  split; [exact Hreq | exact Hpend].
Defined.


